(** * ProjectCoach trainer: CSV layer, seeded shuffle and session scoring

    A shallow embedding of the core of the practice-exam trainer
    (the [trainerUtils] functions [shuffle], [toCSV], [parseCSVStream],
    [parseCSV], the session handlers of the [App] component, and the
    older [App.jsx] variant with its Lehmer-generator shuffle), followed
    by the properties the specification states about them.  The later
    parts do the same for the quiz engine hook [useQuizEngine], for the
    scoring, the CSV reader and the session handlers of the v2.1 trainer,
    and for the CSV reader and the answer handler of the older [App.jsx].

    Conventions of the embedding:
    - a JS string is the list of its code units; code units are modelled
      by [ascii], so texts range over the Latin-1 code units 0..255;
    - a JS number that holds an integer is a [Z]; the only places where
      double rounding can occur (a product above 2^53) go through [fl53],
      and the one product that can leave the doubles, in the Lehmer
      generator, gives [NaN];
    - [undefined] is [None];
    - [Math.random] and [Date.now] are explicit inputs. *)

From Stdlib Require Import ZArith List Ascii String Lia Bool DecimalString Sorted.
From Stdlib Require Import DecimalFacts DecimalNat.
From stdpp Require Import base list gmap strings.

(** ** Numbers *)

Definition two32 : Z := 2 ^ 32.
Definition two53 : Z := 2 ^ 53.

(** Rounding of an integer to the nearest double (53-bit significand,
    ties to even).  Integers below 2^53 in absolute value are exact. *)
Definition fl53 (x : Z) : Z :=
  let m := Z.abs x in
  let e := (Z.log2 m - 52)%Z in
  if (e <=? 0)%Z then x
  else
    let q := (m / 2 ^ e)%Z in
    let r := (m mod 2 ^ e)%Z in
    let h := (2 ^ (e - 1))%Z in
    let q' := if (r <? h)%Z then q
              else if (h <? r)%Z then (q + 1)%Z
              else if Z.even q then q else (q + 1)%Z in
    (Z.sgn x * (q' * 2 ^ e))%Z.

(** ** The random source

    [Math.random()] returns a double in [0,1); a draw is modelled by its
    numerator [n] over 2^53.  An [Entropy] is the sequence of draws the
    program will see. *)

Definition Entropy := nat -> Z.

Definition validEntropy (e : Entropy) : Prop :=
  forall k, (0 <= e k < two53)%Z.

Definition Math_random (e : Entropy) : Z * Entropy :=
  (e O, fun k => e (S k)).

(** [Math.floor(Math.random() * c)] for a positive integer constant [c]. *)
Definition randomBelow (c : Z) (e : Entropy) : Z * Entropy :=
  let '(n, e') := Math_random e in ((fl53 (n * c) / two53)%Z, e').

(** ** JS arrays

    Indexed elements plus the properties an index expression can create
    besides them: [a[i] = v] stores under the key [i] when [i] is a
    negative integer, and under the key [NaN] when [i] is not a number.
    A hole and [undefined] are both [None]. *)

Inductive Key :=
| KInt (k : Z)
| KNaN.

Global Instance Key_eq_dec : EqDecision Key.
Proof. solve_decision. Defined.

Record jsarray (A : Type) := JsArray {
  items : list (option A);
  props : list (Key * option A)
}.
Arguments JsArray {A} _ _.
Arguments items {A} _.
Arguments props {A} _.

Section JsArrays.
Context {A : Type}.

Fixpoint propGet (ps : list (Key * option A)) (k : Key) : option A :=
  match ps with
  | [] => None
  | (k', v) :: ps' => if bool_decide (k' = k) then v else propGet ps' k
  end.

Fixpoint propSet (ps : list (Key * option A)) (k : Key) (v : option A)
  : list (Key * option A) :=
  match ps with
  | [] => [(k, v)]
  | (k', v') :: ps' =>
      if bool_decide (k' = k) then (k, v) :: ps'
      else (k', v') :: propSet ps' k v
  end.

(** [a[k]] and [a[k] = v] for a key that is no array index. *)
Definition agetKey (a : jsarray A) (k : Key) : option A :=
  propGet (props a) k.

Definition asetKey (a : jsarray A) (k : Key) (v : option A) : jsarray A :=
  JsArray (items a) (propSet (props a) k v).

(** [a[i]] *)
Definition aget (a : jsarray A) (i : Z) : option A :=
  if (i <? 0)%Z then agetKey a (KInt i)
  else mjoin (items a !! Z.to_nat i).

(** [a[i] = v]; an index past the end extends the array with holes. *)
Definition aset (a : jsarray A) (i : Z) (v : option A) : jsarray A :=
  if (i <? 0)%Z then asetKey a (KInt i) v
  else
    let n := Z.to_nat i in
    if (n <? length (items a))%nat
    then JsArray (<[n := v]> (items a)) (props a)
    else JsArray (items a ++ replicate (n - length (items a)) None ++ [v])
                 (props a).

(** [[a[i], a[j]] = [a[j], a[i]]]: both reads happen first, then
    [a[i]] is written, then [a[j]]. *)
Definition swap (a : jsarray A) (i j : Z) : jsarray A :=
  let x := aget a j in
  let y := aget a i in
  aset (aset a i x) j y.

(** An array literal, or any array all of whose slots are filled. *)
Definition ofList (l : list A) : jsarray A :=
  JsArray (Some <$> l) [].

(** [[...arr]] and [arr.slice()]: a fresh array with the indexed
    elements of [arr]; other properties are not copied. *)
Definition spread (arr : jsarray A) : jsarray A :=
  JsArray (items arr) [].

Definition alength (a : jsarray A) : nat := length (items a).
End JsArrays.

(** ** Arrays in the store

    [shuffle] receives a reference to an array object.  A store maps
    references to array objects; a reference that is not yet in use is
    bound to nothing. *)

Definition ref := nat.
Definition store (A : Type) := list (jsarray A).

(** A write through the reference [r]: the object [r] points to is
    replaced by [f] of it. *)
Definition updateAt {A} (st : store A) (r : ref)
    (f : jsarray A -> jsarray A) : store A :=
  match st !! r with
  | Some a => <[r := f a]> st
  | None => st
  end.

(** [r.length] *)
Definition lengthAt {A} (st : store A) (r : ref) : nat :=
  match st !! r with
  | Some a => alength a
  | None => 0
  end.

(** ** [shuffle] of trainerUtils: xorshift32 driven Fisher-Yates

    [s] is kept as the unsigned 32-bit pattern of the JS int32 value:
    [<<] wraps modulo 2^32, [>>>] is the logical shift of the pattern and
    [^] acts bitwise, so the pattern after each statement is the one
    computed here; [(s >>> 0)] is the pattern itself. *)

Definition toUint32 (x : Z) : Z := (x mod two32)%Z.

Definition xorshift (s : Z) : Z :=
  let s1 := Z.lxor s (Z.shiftl s 13 mod two32) in
  let s2 := Z.lxor s1 (Z.shiftr s1 17) in
  Z.lxor s2 (Z.shiftl s2 5 mod two32).

(** [Math.floor(rand() * n)] where [rand()] returned [u / 2^32]. *)
Definition pickIndex (u n : Z) : Z := (fl53 (u * n) / two32)%Z.

(** The loop [for (i = a.length - 1; i > 0; i--)], by recursion on [i]. *)
Fixpoint fisherYates {A} (i : nat) (s : Z) (a : jsarray A) : jsarray A :=
  match i with
  | O => a
  | S i' =>
      let s' := xorshift s in
      let j := pickIndex s' (Z.of_nat i + 1) in
      fisherYates i' s' (swap a (Z.of_nat i) j)
  end.

(** [seed ?? Math.floor(Math.random() * 1e9)] *)
Definition seedOrRandom (seed : option Z) (e : Entropy) : Z :=
  match seed with
  | Some s => s
  | None => fst (randomBelow 1000000000 e)
  end.

Definition shuffle {A} (arr : jsarray A) (seed : option Z) (e : Entropy)
  : jsarray A :=
  let a := spread arr in
  let s := seedOrRandom seed e in
  fisherYates (alength a - 1) (toUint32 s) a.

(** The same loop as the source runs it, on the store: every swap is a
    write through the reference [a]. *)
Fixpoint fisherYatesIn {A} (i : nat) (s : Z) (st : store A) (a : ref)
  : store A :=
  match i with
  | O => st
  | S i' =>
      let s' := xorshift s in
      let j := pickIndex s' (Z.of_nat i + 1) in
      fisherYatesIn i' s'
        (updateAt st a (fun x => swap x (Z.of_nat i) j)) a
  end.

(** The call [shuffle(arr, seed)] on the store: [const a = [...arr]]
    allocates a fresh object, the loop writes through [a], and [a] is
    what is returned.  [None]: [arr] is not an array of the store. *)
Definition shuffleIn {A} (st : store A) (arr : ref) (seed : option Z)
    (e : Entropy) : option (store A * ref) :=
  match st !! arr with
  | None => None
  | Some contents =>
      let a := length st in
      let st1 := st ++ [spread contents] in
      let s := seedOrRandom seed e in
      Some (fisherYatesIn (lengthAt st1 a - 1) (toUint32 s) st1 a, a)
  end.

(** ** [shuffle] of the older [App.jsx]: Lehmer generator

    [rand = (rand * 16807) % 2147483647] on doubles: the product is
    rounded by [fl53] (it exceeds 2^53 only for the first step of a large
    seed); a product that rounds to 2^1024 or beyond is [Infinity], and
    the remainder of [Infinity] is [NaN]; otherwise [%] is the exact
    remainder with the sign of the dividend.  For a number [rand] the
    index [Math.floor(rand / 2147483647 * m)] is taken as the floor of the
    real quotient [rand * m / 2147483647]; the two agree for arrays
    shorter than 2^20, since a non-zero [rand * m / 2147483647] lies at
    least 1/2147483647 away from every integer while the two roundings
    move it by less than [m * 2^-52].  For [NaN] the index is [NaN]. *)

Module Legacy.

Definition modulus : Z := 2147483647.

(** The magnitude at which a double is [Infinity]. *)
Definition two1024 : Z := 2 ^ 1024.

(** The state [rand] of the generator: a number, or [NaN]. *)
Inductive Rand :=
| Num (r : Z)
| NaN.

Definition lehmer (rand : Rand) : Rand :=
  match rand with
  | Num r =>
      let product := fl53 (r * 16807) in
      if (two1024 <=? Z.abs product)%Z then NaN
      else Num (Z.rem product modulus)
  | NaN => NaN
  end.

(** [seed ? ... : ...]: [undefined] and [0] are falsy. *)
Definition truthy (seed : option Z) : bool :=
  match seed with
  | Some s => negb (s =? 0)%Z
  | None => false
  end.

(** [[arr[m], arr[NaN]] = [arr[NaN], arr[m]]]: both reads happen first,
    then [arr[m]] is written, then the property [NaN]. *)
Definition swapNaN {A} (arr : jsarray A) (m : Z) : jsarray A :=
  let x := agetKey arr KNaN in
  let y := aget arr m in
  asetKey (aset arr m x) KNaN y.

(** The swap of one pass of the loop, for the value [rand] has after
    [random()]; [m'] is [m] after the decrement. *)
Definition seededSwap {A} (rand : Rand) (m' : nat) (arr : jsarray A)
  : jsarray A :=
  match rand with
  | Num r => swap arr (Z.of_nat m') (r * Z.of_nat (S m') / modulus)%Z
  | NaN => swapNaN arr (Z.of_nat m')
  end.

(** The loop [while (m) { i = floor(r * m--); [arr[m], arr[i]] = ... }]:
    the product sees [m] before the decrement, the swap after it. *)
Fixpoint lehmerLoop {A} (m : nat) (seed : option Z) (rand : Rand)
    (e : Entropy) (arr : jsarray A) : jsarray A :=
  match m with
  | O => arr
  | S m' =>
      if truthy seed then
        let rand' := lehmer rand in
        lehmerLoop m' seed rand' e (seededSwap rand' m' arr)
      else
        let '(n, e') := Math_random e in
        let i := (fl53 (n * Z.of_nat m) / two53)%Z in
        lehmerLoop m' seed rand e' (swap arr (Z.of_nat m') i)
  end.

(** [let rand = seed]; without a seed [rand] is never read. *)
Definition initialRand (seed : option Z) : Rand := Num (default 0%Z seed).

Definition shuffle {A} (array : jsarray A) (seed : option Z)
    (e : Entropy) : jsarray A :=
  let arr := spread array in
  lehmerLoop (alength arr) seed (initialRand seed) e arr.

(** The same loop as the source runs it, on the store: every swap is a
    write through the reference [arr]. *)
Fixpoint lehmerLoopIn {A} (m : nat) (seed : option Z) (rand : Rand)
    (e : Entropy) (st : store A) (arr : ref) : store A :=
  match m with
  | O => st
  | S m' =>
      if truthy seed then
        let rand' := lehmer rand in
        lehmerLoopIn m' seed rand' e
          (updateAt st arr (seededSwap rand' m')) arr
      else
        let '(n, e') := Math_random e in
        let i := (fl53 (n * Z.of_nat m) / two53)%Z in
        lehmerLoopIn m' seed rand e'
          (updateAt st arr (fun x => swap x (Z.of_nat m') i)) arr
  end.

(** The call on the store; [array.slice()] allocates the object that
    is permuted and returned. *)
Definition shuffleIn {A} (st : store A) (array : ref) (seed : option Z)
    (e : Entropy) : option (store A * ref) :=
  match st !! array with
  | None => None
  | Some contents =>
      let arr := length st in
      let st1 := st ++ [spread contents] in
      Some (lehmerLoopIn (lengthAt st1 arr) seed (initialRand seed) e st1 arr,
            arr)
  end.

End Legacy.

(** ** Strings *)

Definition jsstring := list ascii.

(** A string literal of the source. *)
Definition str (s : string) : jsstring := list_ascii_of_string s.

Definition dquote : ascii := "034"%char.
Definition comma : ascii := ","%char.
Definition LF : ascii := "010"%char.
Definition CR : ascii := "013"%char.

Definition chEq (a b : ascii) : bool := bool_decide (a = b).
Definition strEq (a b : jsstring) : bool := bool_decide (a = b).

(** [s.length === 0], the test [!s] and the comparison with the empty
    string. *)
Definition isEmpty (s : jsstring) : bool :=
  match s with [] => true | _ => false end.

(** White space and line terminators removed by [trim], within Latin-1:
    TAB, LF, VT, FF, CR, SP and NBSP. *)
Definition isSpace (c : ascii) : bool :=
  let n := nat_of_ascii c in
  ((9 <=? n) && (n <=? 13) || (n =? 32) || (n =? 160))%nat.

Fixpoint trimStart (s : jsstring) : jsstring :=
  match s with
  | c :: s' => if isSpace c then trimStart s' else s
  | [] => []
  end.

Definition trimEnd (s : jsstring) : jsstring := rev (trimStart (rev s)).

Definition trim (s : jsstring) : jsstring := trimEnd (trimStart s).

(** [toLowerCase] on Latin-1 code units: A-Z and the accented capitals
    192-214 and 216-222 move up by 32. *)
Definition lowerChar (c : ascii) : ascii :=
  let n := nat_of_ascii c in
  if ((65 <=? n) && (n <=? 90) || (192 <=? n) && (n <=? 214)
      || (216 <=? n) && (n <=? 222))%nat
  then ascii_of_nat (n + 32) else c.

Definition toLowerCase (s : jsstring) : jsstring := map lowerChar s.

(** [String(n)] for a natural number. *)
Definition decimal (n : nat) : jsstring :=
  str (NilZero.string_of_uint (Nat.to_uint n)).

(** [parts.join(sep)] *)
Fixpoint join (sep : jsstring) (parts : list jsstring) : jsstring :=
  match parts with
  | [] => []
  | [p] => p
  | p :: ps => p ++ sep ++ join sep ps
  end.

(** [l.indexOf(x)]: the first position holding [x], or -1. *)
Fixpoint indexOfFrom {A} `{EqDecision A} (l : list A) (x : A) (k : Z) : Z :=
  match l with
  | [] => (-1)%Z
  | y :: l' => if bool_decide (y = x) then k else indexOfFrom l' x (k + 1)%Z
  end.

Definition indexOf {A} `{EqDecision A} (l : list A) (x : A) : Z :=
  indexOfFrom l x 0%Z.

(** [xs[i]] for a list used as an array and an index that may be negative
    (then, as out of range, [undefined]). *)
Definition at_ {A} (xs : list A) (i : Z) : option A :=
  if (i <? 0)%Z then None else xs !! Z.to_nat i.

(** ** The serializer [toCSV] *)

(** The regular expression test of [toCSV]: the cell holds a double
    quote, a comma or a line feed. *)
Definition needsQuote (cell : jsstring) : bool :=
  existsb (fun c => chEq c dquote || chEq c comma || chEq c LF) cell.

(** The [replace] of [toCSV]: every double quote is written twice. *)
Fixpoint doubleQuotes (cell : jsstring) : jsstring :=
  match cell with
  | [] => []
  | c :: cell' =>
      if chEq c dquote then dquote :: dquote :: doubleQuotes cell'
      else c :: doubleQuotes cell'
  end.

Definition encodeCell (cell : jsstring) : jsstring :=
  if needsQuote cell then dquote :: doubleQuotes cell ++ [dquote] else cell.

Definition encodeRow (r : list jsstring) : jsstring :=
  join [comma] (map encodeCell r).

Definition toCSV (rows : list (list jsstring)) : jsstring :=
  join [LF] (map encodeRow rows).

(** ** The tokenizer [parseCSVStream] *)

(** [rows.push(row)] under the guard [row.length && row.some(...)]: the
    row is kept when one of its cells is not the empty string. *)
Definition pushRow (rows : list (list jsstring)) (row : list jsstring)
  : list (list jsstring) :=
  if (negb (length row =? 0)%nat) && existsb (fun c => negb (isEmpty c)) row
  then rows ++ [row] else rows.

(** The [while (i < len)] loop, by recursion on the text still to read
    ([text.slice(i)]); the look-ahead [text[i+1]] is the head of the rest,
    and [i += 2] drops it. *)
Fixpoint scan (text : jsstring) (rows : list (list jsstring))
    (row : list jsstring) (cur : jsstring) (inQ : bool)
  : list (list jsstring) :=
  match text with
  | [] =>
      if negb (length cur =? 0)%nat || negb (length row =? 0)%nat
      then pushRow rows (row ++ [cur]) else rows
  | ch :: rest =>
      if chEq ch dquote then
        match rest with
        | ch2 :: rest' =>
            if inQ && chEq ch2 dquote
            then scan rest' rows row (cur ++ [dquote]) inQ
            else scan rest rows row cur (negb inQ)
        | [] => scan rest rows row cur (negb inQ)
        end
      else if negb inQ && chEq ch comma then
        scan rest rows (row ++ [cur]) [] inQ
      else if negb inQ && (chEq ch LF || chEq ch CR) then
        let rows' := pushRow rows (row ++ [cur]) in
        match rest with
        | ch2 :: rest' =>
            if chEq ch CR && chEq ch2 LF
            then scan rest' rows' [] [] inQ
            else scan rest rows' [] [] inQ
        | [] => scan rest rows' [] [] inQ
        end
      else scan rest rows row (cur ++ [ch]) inQ
  end.

Definition parseCSVStream (text : jsstring) : list (list jsstring) :=
  scan text [] [] [] false.

(** ** Questions *)

(** The value stored in [answerIndex].  [toIdx] looks the cell up with
    [t in m], which also finds what the object literal inherits; of the
    inherited names only [constructor] and [__proto__] are lower case, and
    for them [m[t]] is an object rather than a number. *)
Inductive AnswerIndex :=
| AnsNum (n : Z)
| AnsInherited (name : jsstring).

Global Instance AnswerIndex_eq_dec : EqDecision AnswerIndex.
Proof. solve_decision. Defined.

(** A question object: the fields [parseCSV] writes, and the optional
    fields of the v2.1 schema that [isV21] and [correctIndex] read. *)
Record Question := mkQuestion {
  id : jsstring;
  domain : jsstring;
  question : jsstring;
  choices : jsarray jsstring;
  answerIndex : option AnswerIndex;
  explanation : jsstring;
  reference : jsstring;
  item_type : option jsstring;
  correct_index : option Z;
  prompt : option jsstring
}.

(** ** The record builder [parseCSV] *)

(** [row[i] || ""] *)
Definition cellOr (row : list jsstring) (i : Z) : jsstring :=
  default [] (at_ row i).

(** [toIdx] *)
Definition toIdx (s : jsstring) : option AnswerIndex :=
  let t := toLowerCase (trim s) in
  if strEq t (str "a") then Some (AnsNum 0)
  else if strEq t (str "b") then Some (AnsNum 1)
  else if strEq t (str "c") then Some (AnsNum 2)
  else if strEq t (str "d") then Some (AnsNum 3)
  else if strEq t (str "constructor") || strEq t (str "__proto__")
  then Some (AnsInherited t)
  else if strEq t (str "0") then Some (AnsNum 0)
  else if strEq t (str "1") then Some (AnsNum 1)
  else if strEq t (str "2") then Some (AnsNum 2)
  else if strEq t (str "3") then Some (AnsNum 3)
  else None.

Definition allowed : list jsstring :=
  [str "People"; str "Process"; str "Business"; str "Agile"].

(** The positions of the columns in the lower-cased, trimmed header. *)
Record Columns := mkColumns {
  qi : Z; di : Z; qq : Z; ai : Z; bi : Z; ci : Z; dd : Z; co : Z;
  ex : Z; rf : Z
}.

Definition header (hrow : list jsstring) : list jsstring :=
  map (fun h => toLowerCase (trim h)) hrow.

Definition columns (H : list jsstring) : Columns :=
  let ix n := indexOf H (str n) in
  mkColumns (ix "id") (ix "domain") (ix "question") (ix "a") (ix "b")
            (ix "c") (ix "d") (ix "correct") (ix "explanation")
            (ix "reference").

Definition required (c : Columns) : list Z :=
  [di c; qq c; ai c; bi c; ci c; dd c; co c].

(** [row.every(c => !c || !String(c).trim())] *)
Definition blankRow (row : list jsstring) : bool :=
  forallb (fun c => isEmpty c || isEmpty (trim c)) row.

(** The object pushed for an accepted row; [r] is the index of the row in
    [table.slice(1)]. *)
Definition makeRecord (c : Columns) (row : list jsstring) (r : nat)
    (ans : AnswerIndex) (dom : jsstring) : Question :=
  let given := if (0 <=? qi c)%Z then trim (cellOr row (qi c)) else [] in
  {| id := if isEmpty given then str "U" ++ decimal (r + 1) else given;
     domain := dom;
     question := trim (cellOr row (qq c));
     choices := ofList [trim (cellOr row (ai c)); trim (cellOr row (bi c));
                        trim (cellOr row (ci c)); trim (cellOr row (dd c))];
     answerIndex := Some ans;
     explanation := if (0 <=? ex c)%Z then cellOr row (ex c) else [];
     reference := if (0 <=? rf c)%Z then cellOr row (rf c) else [];
     item_type := None;
     correct_index := None;
     prompt := None |}.

(** What one data row contributes: [None] when the callback returns
    [out] unchanged. *)
Definition convertRow (c : Columns) (row : list jsstring) (r : nat)
  : option Question :=
  if blankRow row then None
  else
    let ans := toIdx (cellOr row (co c)) in
    let dom := trim (cellOr row (di c)) in
    match ans with
    | Some a =>
        if bool_decide (dom ∈ allowed) then Some (makeRecord c row r a dom)
        else None
    | None => None
    end.

(** The callback of [reduce]: [out.push(...)] or [out] as it is. *)
Definition reducer (c : Columns) (out : list Question)
    (row : list jsstring) (r : nat) : list Question :=
  match convertRow c row r with
  | Some q => out ++ [q]
  | None => out
  end.

(** [l.reduce((acc, x, r) => f(acc, x, r), init)] with [r] counted from
    [r0]. *)
Fixpoint reduceFrom {A B} (f : B -> A -> nat -> B) (l : list A) (r0 : nat)
    (acc : B) : B :=
  match l with
  | [] => acc
  | x :: l' => reduceFrom f l' (S r0) (f acc x r0)
  end.

Definition parseCSV (text : jsstring) : list Question :=
  match parseCSVStream text with
  | [] => []
  | hrow :: body =>
      let c := columns (header hrow) in
      if existsb (fun i => (i <? 0)%Z) (required c) then []
      else reduceFrom (reducer c) body 0 []
  end.

(** ** Session set-up helpers *)

(** [arr.slice(0, end)] for an integer [end]: a negative [end] counts
    from the end of the array. *)
Definition slice0 {A} (arr : jsarray A) (end_ : Z) : jsarray A :=
  let len := Z.of_nat (alength arr) in
  let k := if (end_ <? 0)%Z then Z.max (len + end_) 0 else Z.min end_ len in
  JsArray (take (Z.to_nat k) (items arr)) [].

(** [idxs.indexOf(x)] where [x] is a value that may not be a number. *)
Definition indexOfAnswer (idxs : jsarray Z) (x : option AnswerIndex) : Z :=
  match x with
  | Some (AnsNum n) => indexOf (items idxs) (Some n)
  | _ => (-1)%Z
  end.

(** [choices[i]] where [i] may be [undefined]. *)
Definition choiceAt (cs : jsarray jsstring) (i : option Z) : option jsstring :=
  match i with
  | Some n => aget cs n
  | None => None
  end.

(** The body shared by both [beginSession] callbacks once [idxs] has been
    drawn: the four choices are re-read through [idxs] and the answer
    index becomes its position in [idxs]. *)
Definition remapChoices (idxs : jsarray Z) (q : Question) : Question :=
  let newChoices :=
    JsArray [choiceAt (choices q) (aget idxs 0);
             choiceAt (choices q) (aget idxs 1);
             choiceAt (choices q) (aget idxs 2);
             choiceAt (choices q) (aget idxs 3)] [] in
  let newAnswerIndex := indexOfAnswer idxs (answerIndex q) in
  {| id := id q; domain := domain q; question := question q;
     choices := newChoices;
     answerIndex := Some (AnsNum newAnswerIndex);
     explanation := explanation q; reference := reference q;
     item_type := item_type q; correct_index := correct_index q;
     prompt := prompt q |}.

(** The callback of [pickRaw.map] in [beginSession] of the v2.1 build,
    for a question without [item_type]: the order of the choices is a
    shuffle of [[0,1,2,3]] seeded by [Math.floor(Math.random() * 1e9)];
    [e] is the random source as the callback finds it. *)
Definition permuteChoices (q : Question) (e : Entropy) : Question :=
  let '(seed, e') := randomBelow 1000000000 e in
  let idxs := shuffle (ofList [0; 1; 2; 3]%Z) (Some seed) e' in
  remapChoices idxs q.

Module LegacySession.
(** The callback of [pick.map] in [beginSession] of the older
    [App.jsx]; the seed is [Math.floor(Math.random() * 2147483647)]. *)
Definition permuteChoices (q : Question) (e : Entropy) : Question :=
  let '(seed, e') := randomBelow 2147483647 e in
  let order := Legacy.shuffle (ofList [0; 1; 2; 3]%Z) (Some seed) e' in
  remapChoices order q.
End LegacySession.

(** ** The [App] component: state and handlers

    The component is re-rendered after every event.  A handler is a
    closure over the state of the render it was created in, so every
    state variable it reads is that of the snapshot; each [setX] call
    queues an update, and the queue is applied, in order, once the
    handler has returned.  A handler is therefore a function from the
    snapshot to the list of queued updates. *)

Inductive Mode := practice | exam.

Module Result.
Record t := mk {
  id : jsstring;
  firstTryCorrect : bool;
  tries : Z;
  timeMs : Z;
  chosenHistory : list Z
}.
End Result.

Module App.

Record State := mkState {
  allQuestions : list Question;
  selectedDomains : gmap jsstring bool;
  mode : Mode;
  sessionSize : Z;
  seed : Z;
  sessionQs : jsarray Question;
  idx : Z;
  started : bool;
  finished : bool;
  eliminated : gmap Z bool;
  chosenHistory : list Z;
  firstTryCorrect : option bool;
  results : gmap jsstring Result.t;
  flagged : gmap jsstring bool;
  questionStart : option Z
}.

Definition Update := State -> State.

Definition setSessionQs v : Update := fun s =>
  mkState (allQuestions s) (selectedDomains s) (mode s) (sessionSize s)
    (seed s) v (idx s) (started s) (finished s) (eliminated s)
    (chosenHistory s) (firstTryCorrect s) (results s) (flagged s)
    (questionStart s).
Definition setIdx (f : Z -> Z) : Update := fun s =>
  mkState (allQuestions s) (selectedDomains s) (mode s) (sessionSize s)
    (seed s) (sessionQs s) (f (idx s)) (started s) (finished s)
    (eliminated s) (chosenHistory s) (firstTryCorrect s) (results s)
    (flagged s) (questionStart s).
Definition setStarted v : Update := fun s =>
  mkState (allQuestions s) (selectedDomains s) (mode s) (sessionSize s)
    (seed s) (sessionQs s) (idx s) v (finished s) (eliminated s)
    (chosenHistory s) (firstTryCorrect s) (results s) (flagged s)
    (questionStart s).
Definition setFinished v : Update := fun s =>
  mkState (allQuestions s) (selectedDomains s) (mode s) (sessionSize s)
    (seed s) (sessionQs s) (idx s) (started s) v (eliminated s)
    (chosenHistory s) (firstTryCorrect s) (results s) (flagged s)
    (questionStart s).
Definition setEliminated (f : gmap Z bool -> gmap Z bool) : Update :=
  fun s =>
  mkState (allQuestions s) (selectedDomains s) (mode s) (sessionSize s)
    (seed s) (sessionQs s) (idx s) (started s) (finished s)
    (f (eliminated s)) (chosenHistory s) (firstTryCorrect s) (results s)
    (flagged s) (questionStart s).
Definition setChosenHistory (f : list Z -> list Z) : Update := fun s =>
  mkState (allQuestions s) (selectedDomains s) (mode s) (sessionSize s)
    (seed s) (sessionQs s) (idx s) (started s) (finished s)
    (eliminated s) (f (chosenHistory s)) (firstTryCorrect s) (results s)
    (flagged s) (questionStart s).
Definition setFirstTryCorrect v : Update := fun s =>
  mkState (allQuestions s) (selectedDomains s) (mode s) (sessionSize s)
    (seed s) (sessionQs s) (idx s) (started s) (finished s)
    (eliminated s) (chosenHistory s) v (results s) (flagged s)
    (questionStart s).
Definition setResults
    (f : gmap jsstring Result.t -> gmap jsstring Result.t) : Update :=
  fun s =>
  mkState (allQuestions s) (selectedDomains s) (mode s) (sessionSize s)
    (seed s) (sessionQs s) (idx s) (started s) (finished s)
    (eliminated s) (chosenHistory s) (firstTryCorrect s) (f (results s))
    (flagged s) (questionStart s).
Definition setFlagged
    (f : gmap jsstring bool -> gmap jsstring bool) : Update := fun s =>
  mkState (allQuestions s) (selectedDomains s) (mode s) (sessionSize s)
    (seed s) (sessionQs s) (idx s) (started s) (finished s)
    (eliminated s) (chosenHistory s) (firstTryCorrect s) (results s)
    (f (flagged s)) (questionStart s).
Definition setQuestionStart v : Update := fun s =>
  mkState (allQuestions s) (selectedDomains s) (mode s) (sessionSize s)
    (seed s) (sessionQs s) (idx s) (started s) (finished s)
    (eliminated s) (chosenHistory s) (firstTryCorrect s) (results s)
    (flagged s) v.

(** The state after the handler's queue has been applied. *)
Definition commit (s : State) (queue : list Update) : State :=
  fold_left (fun acc u => u acc) queue s.

(** The names every object inherits from [Object.prototype]; [obj[k]]
    finds them (all truthy) when [obj] has no entry of its own under
    [k]. *)
Definition inheritedNames : list jsstring :=
  [str "constructor"; str "__proto__"; str "hasOwnProperty";
   str "isPrototypeOf"; str "propertyIsEnumerable"; str "toLocaleString";
   str "toString"; str "valueOf"; str "__defineGetter__";
   str "__defineSetter__"; str "__lookupGetter__"; str "__lookupSetter__"].

(** Truthiness of [obj[k]] for an object whose own entries are
    booleans. *)
Definition truthyAt (obj : gmap jsstring bool) (k : jsstring) : bool :=
  match obj !! k with
  | Some b => b
  | None => bool_decide (k ∈ inheritedNames)
  end.

(** [allQuestions.filter(q => q && q.domain && selectedDomains[q.domain])] *)
Definition filtered (s : State) : list Question :=
  List.filter
    (fun q => negb (isEmpty (domain q))
              && truthyAt (selectedDomains s) (domain q))
    (allQuestions s).

(** [const q = sessionQs[idx]] *)
Definition current (s : State) : option Question :=
  aget (sessionQs s) (idx s).

Definition isV21 (q : Question) : bool :=
  bool_decide (is_Some (item_type q))
  || bool_decide (is_Some (correct_index q)).

Definition correctIndex (q : Question) : option AnswerIndex :=
  if isV21 q then Some (AnsNum (default 0%Z (correct_index q)))
  else answerIndex q.

Definition startSession (s : State) (now : Z) (e : Entropy)
  : list Update :=
  let pool := shuffle (ofList (filtered s)) (Some (seed s)) e in
  let pick :=
    slice0 pool (Z.min (sessionSize s) (Z.of_nat (alength pool))) in
  [setSessionQs pick; setIdx (fun _ => 0%Z); setStarted true;
   setFinished false; setResults (fun _ => ∅); setEliminated (fun _ => ∅);
   setChosenHistory (fun _ => []); setFirstTryCorrect None;
   setQuestionStart (Some now)].

Definition recordResult (s : State) (now : Z) (isCorrect : bool)
  : list Update :=
  match current s with
  | None => []
  | Some q =>
      let n := Z.of_nat (length (chosenHistory s)) in
      let tries := Z.max 1 (if (n =? 0)%Z then 1 else n) in
      let elapsed :=
        match questionStart s with
        | Some t0 => if (t0 =? 0)%Z then 0%Z else (now - t0)%Z
        | None => 0%Z
        end in
      [setResults (fun prev =>
         <[id q := Result.mk (id q) (isCorrect && (tries =? 1)%Z) tries
                      elapsed (chosenHistory s)]> prev)]
  end.

Definition nextQuestion (s : State) (now : Z) : list Update :=
  let atEnd := (Z.of_nat (alength (sessionQs s)) <=? idx s + 1)%Z in
  if atEnd then [setStarted false; setFinished true]
  else [setIdx (fun i => (i + 1)%Z); setEliminated (fun _ => ∅);
        setChosenHistory (fun _ => []); setFirstTryCorrect None;
        setQuestionStart (Some now)].

(** What a handler leaves behind: the queued updates, and whether it
    called [setTimeout(nextQuestion, 220)]. *)
Record Effects := mkEffects {
  queue : list Update;
  timer : bool
}.

(** [onChoice]; [None] is the [TypeError] of reading [answerIndex] when
    there is no current question. *)
Definition onChoice (s : State) (now : Z) (choiceIdx : Z)
  : option Effects :=
  match current s with
  | None => None
  | Some q =>
      let correct := correctIndex q in
      let hit := bool_decide (correct = Some (AnsNum choiceIdx)) in
      Some
        match mode s with
        | practice =>
            if hit then
              mkEffects
                ([setChosenHistory (fun prev => prev ++ [choiceIdx])]
                 ++ recordResult s now true
                 ++ [setFirstTryCorrect
                       (Some (length (chosenHistory s) =? 0)%nat)])
                true
            else
              mkEffects
                [setEliminated (fun prev => <[choiceIdx := true]> prev);
                 setChosenHistory (fun prev => prev ++ [choiceIdx]);
                 setFirstTryCorrect (Some false)]
                false
        | exam =>
            mkEffects
              ([setChosenHistory (fun _ => [choiceIdx])]
               ++ recordResult s now hit
               ++ nextQuestion s now)
              false
        end
  end.

Definition toggleFlag (s : State) : list Update :=
  match current s with
  | None => []
  | Some q =>
      [setFlagged (fun prev => <[id q := negb (truthyAt prev (id q))]> prev)]
  end.

(** The events of a session.  [Timeout snap] is the timer set by the
    handler that ran in snapshot [snap] going off: it runs that
    snapshot's [nextQuestion]. *)
Inductive Event :=
| Start (e : Entropy)
| Choice (choiceIdx : Z)
| Next
| Flag
| Timeout (snap : State).

Definition step (s : State) (now : Z) (ev : Event) : option State :=
  match ev with
  | Start e => Some (commit s (startSession s now e))
  | Choice c => (fun eff => commit s (queue eff)) <$> onChoice s now c
  | Next => Some (commit s (nextQuestion s now))
  | Flag => Some (commit s (toggleFlag s))
  | Timeout snap => Some (commit s (nextQuestion snap now))
  end.

(** A run: each event with the clock reading at which it happens. *)
Fixpoint run (s : State) (evs : list (Z * Event)) : option State :=
  match evs with
  | [] => Some s
  | (now, ev) :: evs' =>
      match step s now ev with
      | Some s' => run s' evs'
      | None => None
      end
  end.

(** The first row [exportSummary] puts in [rows]. *)
Definition summaryHeader : list jsstring :=
  [str "id"; str "domain"; str "first_try_correct"; str "tries";
   str "time_ms"; str "chosen"; str "question"; str "correct";
   str "explanation"].

(** [String(b)] for a boolean. *)
Definition boolString (b : bool) : jsstring :=
  if b then str "true" else str "false".

(** [String(n)] for an integer. *)
Definition decimalZ (z : Z) : jsstring :=
  if (z <? 0)%Z then str "-" ++ decimal (Z.to_nat (- z))
  else decimal (Z.to_nat z).

(** One pass of the [forEach] callback.  [None] is a [TypeError]: the
    element is missing, or [results[question.id]] found an inherited
    member, which has no [chosenHistory] to join. *)
Definition summaryRow (s : State) (elt : option Question)
  : option (list jsstring) :=
  match elt with
  | None => None
  | Some q =>
      let stem :=
        if isV21 q
        then if isEmpty (question q) then default [] (prompt q)
             else question q
        else question q in
      let correct :=
        match correctIndex q with
        | Some (AnsNum n) => default [] (aget (choices q) n)
        | _ => []
        end in
      match results s !! id q with
      | Some r =>
          Some [id q; domain q;
                boolString (Result.firstTryCorrect r);
                decimalZ (Result.tries r);
                decimalZ (Result.timeMs r);
                join (str "|") (map decimalZ (Result.chosenHistory r));
                stem; correct; explanation q]
      | None =>
          if bool_decide (id q ∈ inheritedNames) then None
          else Some [id q; domain q; []; []; []; []; stem; correct;
                     explanation q]
      end
  end.

(** The rows built by [exportSummary]. *)
Definition summaryRows (s : State) : option (list (list jsstring)) :=
  (fun rows => summaryHeader :: rows)
    <$> mapM (summaryRow s) (items (sessionQs s)).

(** The text [exportSummary] passes to [download]. *)
Definition exportSummary (s : State) : option jsstring :=
  toCSV <$> summaryRows s.

(** The state of the first render once the bank [qs] is loaded and the
    set-up controls show mode [m], size [size] and seed [seed0]: all four
    domains selected, no session yet. *)
Definition initial (qs : list Question) (m : Mode) (size seed0 : Z)
  : State :=
  mkState qs
    (list_to_map [(str "People", true); (str "Process", true);
                  (str "Business", true); (str "Agile", true)])
    m size seed0 (JsArray [] []) 0 false false ∅ [] None ∅ ∅ None.

End App.

(** ** The inputs of the round trip

    A row survives the tokenizer when one of its cells is not empty (the
    guard of [pushRow]); a cell survives when every carriage return in it
    is protected by quotes, which [toCSV] adds only for a double quote, a
    comma or a line feed. *)

Definition keptRow (r : list jsstring) : Prop :=
  exists c, c ∈ r ∧ c ≠ [].

Definition protectedCell (c : jsstring) : Prop :=
  CR ∈ c -> needsQuote c = true.

Definition roundTripTable (rows : list (list jsstring)) : Prop :=
  Forall (fun r => keptRow r ∧ Forall protectedCell r) rows.

(** The same conditions as a test that computes. *)
Definition roundTripTableb (rows : list (list jsstring)) : bool :=
  forallb
    (fun r =>
       existsb (fun c => negb (isEmpty c)) r
       && forallb (fun c => needsQuote c || negb (existsb (chEq CR) c)) r)
    rows.

(** What follows a closing quote in a text of [toCSV]: the end of the
    text, or a character that is not a quote. *)
Definition noQuoteAhead (rest : jsstring) : Prop :=
  match rest with
  | [] => True
  | ch :: _ => ch ≠ dquote
  end.

(** The field of the quoting test of the specification: John, then the
    PM between quotes, then the word go between quotes. *)
Definition quotedField : jsstring :=
  str "John, " ++ [dquote] ++ str "the PM," ++ [dquote] ++ str " said "
  ++ [dquote] ++ str "go" ++ [dquote].

(** ** Reading [parseCSV] row by row *)

Definition requiredNames : list jsstring :=
  [str "domain"; str "question"; str "a"; str "b"; str "c"; str "d";
   str "correct"].

(** The lower-cased, trimmed header of a text; empty when the tokenizer
    finds no row at all. *)
Definition headerOf (text : jsstring) : list jsstring :=
  match parseCSVStream text with
  | [] => []
  | hrow :: _ => header hrow
  end.

(** The rows after the header, [table.slice(1)]. *)
Definition dataRows (text : jsstring) : list (list jsstring) :=
  tail (parseCSVStream text).

(** The records of the rows [body], numbered from [r0], in the order of
    the rows. *)
Fixpoint convertFrom (c : Columns) (body : list (list jsstring)) (r0 : nat)
  : list Question :=
  match body with
  | [] => []
  | row :: body' =>
      match convertRow c row r0 with
      | Some q => q :: convertFrom c body' (S r0)
      | None => convertFrom c body' (S r0)
      end
  end.

(** The basic sample without its [correct] column, and the basic sample
    with a padded explanation. *)
Definition sampleCsvNoCorrect : jsstring :=
  str "id,domain,question,a,b,c,d" ++ [LF]
  ++ str "Q1,People,What?,A,B,C,D" ++ [LF].


(** Whether a reader that was inside quotes ([inQ]) or not before [t] is
    inside quotes after it: every double quote flips the state (a doubled
    quote inside quotes, which the tokenizer reads as one character,
    flips it twice). *)
Fixpoint insideAfter (t : jsstring) (inQ : bool) : bool :=
  match t with
  | [] => inQ
  | ch :: rest => insideAfter rest (if chEq ch dquote then negb inQ else inQ)
  end.

(** ** Sample data

    The [basic] sample of the parser self-tests, extended to three rows,
    and the question it starts with. *)

Definition sampleCsv : jsstring :=
  str "id,domain,question,a,b,c,d,correct" ++ [LF]
  ++ str "Q1,People,What?,A,B,C,D,A" ++ [LF]
  ++ str "Q2,Process,How?,A,B,C,D,b" ++ [LF]
  ++ str "Q3,Agile,Why?,A,B,C,D,2" ++ [LF].

Definition sampleBank : list Question := parseCSV sampleCsv.

Definition sampleQuestion : Question :=
  mkQuestion (str "Q1") (str "People") (str "What?")
    (ofList [str "A"; str "B"; str "C"; str "D"]) (Some (AnsNum 2))
    [] [] None None None.

(** The lines of a text, as the specification counts them: the pieces
    between line feeds. *)
Fixpoint splitLines (text cur : jsstring) : list jsstring :=
  match text with
  | [] => [cur]
  | ch :: rest =>
      if chEq ch LF then cur :: splitLines rest []
      else splitLines rest (cur ++ [ch])
  end.

Definition lines (text : jsstring) : list jsstring := splitLines text [].

(** A practice session over the sample question alone (correct index 2),
    started at time 1000. *)
Definition sampleSession : App.State :=
  App.commit (App.initial [sampleQuestion] practice 20 42)
    (App.startSession (App.initial [sampleQuestion] practice 20 42) 1000
       (fun _ => 0%Z)).

(** The [newlineInField] sample of the parser self-tests, and the session
    over it once its question has been answered (choice 3) and the timer
    of that answer has gone off. *)
Definition sampleCsvNewline : jsstring :=
  str "id,domain,question,a,b,c,d,correct" ++ [LF]
  ++ str "Q4,People," ++ [dquote] ++ str "Line1" ++ [LF] ++ str "Line2"
  ++ [dquote] ++ str ",A,B,C,D,D" ++ [LF].

Definition finishedOver (bank : list Question) (choice : Z)
  : option App.State :=
  let s0 := App.initial bank practice 20 42 in
  let s1 := App.commit s0 (App.startSession s0 1000 (fun _ => 0%Z)) in
  App.run s1 [(1500%Z, App.Choice choice); (1720%Z, App.Timeout s1)].

Definition sampleFinished : App.State :=
  default sampleSession (finishedOver [sampleQuestion] 2).

Definition sampleFinishedNewline : App.State :=
  default sampleSession (finishedOver (parseCSV sampleCsvNewline) 3).

(** The same sample with a carriage return in place of the line feed. *)
Definition sampleCsvReturn : jsstring :=
  str "id,domain,question,a,b,c,d,correct" ++ [LF]
  ++ str "Q4,People," ++ [dquote] ++ str "Line1" ++ [CR] ++ str "Line2"
  ++ [dquote] ++ str ",A,B,C,D,D" ++ [LF].

Definition sampleFinishedReturn : App.State :=
  default sampleSession (finishedOver (parseCSV sampleCsvReturn) 3).

(** A string that [trimStart] has nothing to remove from. *)
Definition headNotSpace (s : jsstring) : Prop :=
  match s with
  | [] => True
  | c :: _ => isSpace c = false
  end.

(** A text whose [correct] cell names an inherited member. *)
Definition sampleCsvInherited : jsstring :=
  str "domain,question,a,b,c,d,correct" ++ [LF]
  ++ str "Agile,Why?,A,B,C,D,Constructor" ++ [LF]
  ++ str "Agile,How?,A,B,C,D, d " ++ [LF].

(** ** Sets of numbers *)

(** [new Set(l)]: the elements of [l] in the order of their first
    occurrence; [acc] holds what has been added so far. *)
Fixpoint newSetFrom (l acc : list Z) : list Z :=
  match l with
  | [] => acc
  | x :: l' =>
      if bool_decide (x ∈ acc) then newSetFrom l' acc
      else newSetFrom l' (acc ++ [x])
  end.

Definition newSet (l : list Z) : list Z := newSetFrom l [].

(** [set.has(x)] *)
Definition setHas (set : list Z) (x : Z) : bool := bool_decide (x ∈ set).

(** [set.delete(x)] and [set.add(x)] on a set that does not hold [x]. *)
Definition setDelete (set : list Z) (x : Z) : list Z :=
  List.filter (fun y => negb (y =? x)%Z) set.

Definition setAdd (set : list Z) (x : Z) : list Z :=
  if setHas set x then set else set ++ [x].

(** ** The quiz engine [useQuizEngine]

    The hook keeps [questions] as it was given ([setQuestions] is never
    called), so the list is a parameter of the handlers and not part of
    the state. *)

Module QuizEngine.

Record Q := mkQ {
  id : jsstring;
  question : jsstring;
  choices : list jsstring;
  answerIndex : Z;
  domain : option jsstring
}.

Inductive Mode := practice | exam.

Record State := mkState {
  idx : Z;
  started : bool;
  mode : option Mode;
  answers : gmap jsstring Z;
  eliminated : gmap jsstring (list Z)
}.

(** A queued update; [None] is an exception thrown by the updater. *)
Definition Update := State -> option State.

Definition setIdx (f : Z -> Z) : Update := fun s =>
  Some (mkState (f (idx s)) (started s) (mode s) (answers s) (eliminated s)).
Definition setStarted (v : bool) : Update := fun s =>
  Some (mkState (idx s) v (mode s) (answers s) (eliminated s)).
Definition setMode (v : option Mode) : Update := fun s =>
  Some (mkState (idx s) (started s) v (answers s) (eliminated s)).
Definition setAnswers (f : gmap jsstring Z -> gmap jsstring Z) : Update :=
  fun s =>
  Some (mkState (idx s) (started s) (mode s) (f (answers s)) (eliminated s)).
Definition setEliminated
    (f : gmap jsstring (list Z) -> option (gmap jsstring (list Z)))
  : Update := fun s =>
  mkState (idx s) (started s) (mode s) (answers s) <$> f (eliminated s).

Definition commit (s : State) (queue : list Update) : option State :=
  fold_left (fun acc u => acc ≫= u) queue (Some s).

Definition clamp (n min max : Z) : Z := Z.max min (Z.min max n).

(** [prev[k] || []] as the argument of [new Set]: an entry of the map
    itself is an array; a name inherited from [Object.prototype] is a
    function or an object, which [new Set] refuses with a [TypeError]
    ([None]). *)
Definition eliminatedOf (prev : gmap jsstring (list Z)) (k : jsstring)
  : option (list Z) :=
  match prev !! k with
  | Some l => Some l
  | None => if bool_decide (k ∈ App.inheritedNames) then None else Some []
  end.

(** The array the updater of [toggleEliminate] stores. *)
Definition toggled (l : list Z) (choiceIndex : Z) : list Z :=
  let set := newSet l in
  if setHas set choiceIndex then setDelete set choiceIndex
  else setAdd set choiceIndex.

(** The first row of the export. *)
Definition exportHeader : list jsstring :=
  [str "Question"; str "Chosen"; str "Correct"; str "IsCorrect";
   str "Domain"].

(** [answers[q.id] ?? ""]: a number of the map itself, an inherited
    member, or the empty string. *)
Inductive Chosen :=
| ChosenNum (c : Z)
| ChosenInherited
| ChosenNone.

Definition chosenOf (a : gmap jsstring Z) (k : jsstring) : Chosen :=
  match a !! k with
  | Some c => ChosenNum c
  | None =>
      if bool_decide (k ∈ App.inheritedNames) then ChosenInherited
      else ChosenNone
  end.

(** [String(cell)] for a cell that is a string or [undefined]. *)
Definition cellString (cell : option jsstring) : jsstring :=
  default (str "undefined") cell.

(** The always-quoting cell encoder of [exportCSV]. *)
Definition quoteCell (cell : jsstring) : jsstring :=
  dquote :: doubleQuotes cell ++ [dquote].

(** The text [csv] that [exportCSV] builds from its rows. *)
Definition csvOf (rows : list (list (option jsstring))) : jsstring :=
  join [LF]
    (map (fun r => join [comma] (map (fun cell => quoteCell (cellString cell)) r))
       rows).

Section Engine.
Variable questions : list Q.

Definition total : Z := Z.of_nat (length questions).

(** [questions[idx] ?? null] *)
Definition current (s : State) : option Q := at_ questions (idx s).

(** What the callback of the [reduce] in [correctCount] adds for the
    entry [[qid, choiceIndex]]. *)
Definition scoreEntry (entry : jsstring * Z) : Z :=
  let q := List.find (fun q => bool_decide (id q = entry.1)) questions in
  match q with
  | Some q' => if (answerIndex q' =? entry.2)%Z then 1%Z else 0%Z
  | None => 0%Z
  end.

(** The [reduce] over [Object.entries(answers)]; the sum does not depend
    on the order of the entries. *)
Definition correctCount (s : State) : Z :=
  fold_left (fun acc entry => (acc + scoreEntry entry)%Z)
    (map_to_list (answers s)) 0%Z.

Definition startPractice : list Update :=
  [setMode (Some practice); setStarted true].

Definition startExam : list Update :=
  [setMode (Some exam); setStarted true].

Definition resetAll : list Update :=
  [setMode None; setStarted false; setIdx (fun _ => 0%Z);
   setAnswers (fun _ => ∅); setEliminated (fun _ => Some ∅)].

Definition toggleEliminate (s : State) (choiceIndex : Z) : list Update :=
  match current s with
  | None => []
  | Some cur =>
      [setEliminated (fun prev =>
         (fun l => <[id cur := toggled l choiceIndex]> prev)
         <$> eliminatedOf prev (id cur))]
  end.

(** The callback [choose] hands to [setTimeout] in exam mode. *)
Definition advance : list Update :=
  [setIdx (fun i => clamp (i + 1) 0 (total - 1))].

(** [choose]: the queued updates, and whether the timer was set. *)
Definition choose (s : State) (choiceIndex : Z) : list Update * bool :=
  match current s with
  | None => ([], false)
  | Some cur =>
      ([setAnswers (fun a => <[id cur := choiceIndex]> a)],
       match mode s with Some exam => true | _ => false end)
  end.

Definition next : list Update :=
  [setIdx (fun i => clamp (i + 1) 0 (total - 1))].

Definition prev : list Update :=
  [setIdx (fun i => clamp (i - 1) 0 (total - 1))].

(** The row [exportCSV] builds for a question. *)
Definition exportRow (s : State) (q : Q) : list (option jsstring) :=
  let chosen := chosenOf (answers s) (id q) in
  let chosenText :=
    match chosen with
    | ChosenNum c => at_ (choices q) c
    | ChosenInherited => None
    | ChosenNone => Some []
    end in
  let correctText := at_ (choices q) (answerIndex q) in
  let isCorrect :=
    match chosen with
    | ChosenNum c => if (c =? answerIndex q)%Z then str "Yes" else str "No"
    | ChosenInherited => str "No"
    | ChosenNone => []
    end in
  [Some (question q); chosenText; correctText; Some isCorrect;
   Some (default [] (domain q))].

Definition exportCSV (s : State) : jsstring :=
  csvOf (map Some exportHeader :: map (exportRow s) questions).

Inductive Event :=
| StartPractice
| StartExam
| ResetAll
| ToggleEliminate (choiceIndex : Z)
| Choose (choiceIndex : Z)
| Next
| Prev
| Timeout.

Definition step (s : State) (ev : Event) : option State :=
  match ev with
  | StartPractice => commit s startPractice
  | StartExam => commit s startExam
  | ResetAll => commit s resetAll
  | ToggleEliminate c => commit s (toggleEliminate s c)
  | Choose c => commit s (fst (choose s c))
  | Next => commit s next
  | Prev => commit s prev
  | Timeout => commit s advance
  end.

Fixpoint run (s : State) (evs : list Event) : option State :=
  match evs with
  | [] => Some s
  | ev :: evs' =>
      match step s ev with
      | Some s' => run s' evs'
      | None => None
      end
  end.

End Engine.

(** The state of the first render. *)
Definition initial : State := mkState 0 false None ∅ ∅.

(** The two sample questions of the engine, shortened. *)
Definition sampleQuestions : list Q :=
  [mkQ (str "q1") (str "What should the PM do first?")
       [str "Crash"; str "Update the risk register"; str "Escalate";
        str "Re-baseline"] 1 (Some (str "Risk"));
   mkQ (str "q2") (str "Which artifact tracks benefits?")
       [str "Stakeholder register"; str "Benefits management plan";
        str "Project charter"; str "Issue log"] 1
       (Some (str "Business Value"))].

End QuizEngine.

(** A state of the engine on its sample questions: the first answered
    right, the second with an index outside its choices. *)
Definition sampleAnswered : QuizEngine.State :=
  QuizEngine.mkState 1 true (Some QuizEngine.exam)
    (<[str "q1" := 1%Z]> (<[str "q2" := 7%Z]> ∅))
    (<[str "q1" := [0; 2]%Z]> ∅).

(** ** The v2.1 trainer: scoring and its CSV reader *)

Module V21.

(** [scoreMulti]: the verdict [correct] and the message [msg]. *)
Definition scoreMulti (selection correct : list Z) : bool * jsstring :=
  let selSet := newSet selection in
  let corSet := newSet correct in
  let wrongPicked := List.filter (fun i => negb (setHas corSet i)) selSet in
  let missed := List.filter (fun i => negb (setHas selSet i)) corSet in
  let ok := (length wrongPicked =? 0)%nat && (length missed =? 0)%nat in
  (ok,
   if ok then str "Correct"
   else str "Keep trying: "
        ++ (if negb (length wrongPicked =? 0)%nat
            then str "remove wrong choices"
            else str "select remaining correct choices")
        ++ str ".").

(** [scoreMatch]; [sel] may have holes, and [pairs] may be missing. *)
Definition scoreMatch (sel : list (option Z)) (pairs : option (list (Z * Z)))
  : bool :=
  match pairs with
  | None => false
  | Some ps =>
      if (length sel =? 0)%nat || (length ps =? 0)%nat then false
      else forallb
             (fun lr => bool_decide (mjoin (at_ sel lr.1) = Some lr.2)) ps
  end.

(** [s.replace(/\s+/g, "")]: every white-space character is dropped. *)
Definition removeSpaces (s : jsstring) : jsstring :=
  List.filter (fun c => negb (isSpace c)) s.

(** The object pushed for an accepted row; [r] is the index of the row in
    [table]. *)
Definition makeRecord (c : Columns) (row : list jsstring) (r : nat)
    (ans : AnswerIndex) (dom : jsstring) : Question :=
  let given :=
    removeSpaces
      (if (0 <=? qi c)%Z then trim (cellOr row (qi c)) else []) in
  {| id := if isEmpty given then str "U" ++ decimal r else given;
     domain := dom;
     question := trim (cellOr row (qq c));
     choices := ofList [trim (cellOr row (ai c)); trim (cellOr row (bi c));
                        trim (cellOr row (ci c)); trim (cellOr row (dd c))];
     answerIndex := Some ans;
     explanation := if (0 <=? ex c)%Z then cellOr row (ex c) else [];
     reference := if (0 <=? rf c)%Z then cellOr row (rf c) else [];
     item_type := None;
     correct_index := None;
     prompt := None |}.

(** The [for] loop over [table[r]], [r] from 1: [rows] is what is left of
    the table from index [r] on, [out] the records pushed so far. *)
Fixpoint loop (c : Columns) (rows : list (list jsstring)) (r : nat)
    (out : list Question) : list Question :=
  match rows with
  | [] => out
  | row :: rows' =>
      if blankRow row then loop c rows' (S r) out
      else
        let ans := toIdx (cellOr row (co c)) in
        let dom := trim (cellOr row (di c)) in
        match ans with
        | Some a =>
            if bool_decide (dom ∈ allowed)
            then loop c rows' (S r) (out ++ [makeRecord c row r a dom])
            else loop c rows' (S r) out
        | None => loop c rows' (S r) out
        end
  end.

Definition parseCSV (text : jsstring) : list Question :=
  match parseCSVStream text with
  | [] => []
  | hrow :: _ =>
      let c := columns (header hrow) in
      if existsb (fun i => (i <? 0)%Z) (required c) then []
      else loop c (drop 1 (parseCSVStream text)) 1 []
  end.

End V21.

(** A record with the white space taken out of its id. *)
Definition compactId (q : Question) : Question :=
  {| id := V21.removeSpaces (id q);
     domain := domain q;
     question := question q;
     choices := choices q;
     answerIndex := answerIndex q;
     explanation := explanation q;
     reference := reference q;
     item_type := item_type q;
     correct_index := correct_index q;
     prompt := prompt q |}.

(** A text whose ids hold white space. *)
Definition sampleCsvSpacedIds : jsstring :=
  str "id,domain,question,a,b,c,d,correct" ++ [LF]
  ++ str "Q 1,People,What?,A,B,C,D,A" ++ [LF]
  ++ str " ,Process,How?,A,B,C,D,b" ++ [LF].

(** ** The session handlers of the older [App.jsx]

    Its handlers set no timer, so every handler runs in the render that
    follows the previous one and reads the state that one left. *)

Module LegacyApp.

(** An entry of [results]: practice mode stores [selected] and
    [firstTry], exam mode [selected] only. *)
Record Answer := mkAnswer {
  selected : Z;
  answerFirstTry : option bool
}.

Record State := mkState {
  sessionQuestions : list Question;
  currentIdx : Z;
  practiceMode : bool;
  firstTry : bool;
  disabledChoices : list Z;
  results : gmap jsstring Answer;
  started : bool;
  finished : bool;
  showInterstitial : bool
}.

Definition Update := State -> State.

Definition setCurrentIdx (v : Z) : Update := fun s =>
  mkState (sessionQuestions s) v (practiceMode s) (firstTry s)
    (disabledChoices s) (results s) (started s) (finished s)
    (showInterstitial s).
Definition setFirstTry (v : bool) : Update := fun s =>
  mkState (sessionQuestions s) (currentIdx s) (practiceMode s) v
    (disabledChoices s) (results s) (started s) (finished s)
    (showInterstitial s).
Definition setDisabledChoices (f : list Z -> list Z) : Update := fun s =>
  mkState (sessionQuestions s) (currentIdx s) (practiceMode s) (firstTry s)
    (f (disabledChoices s)) (results s) (started s) (finished s)
    (showInterstitial s).
Definition setResults (f : gmap jsstring Answer -> gmap jsstring Answer)
  : Update := fun s =>
  mkState (sessionQuestions s) (currentIdx s) (practiceMode s) (firstTry s)
    (disabledChoices s) (f (results s)) (started s) (finished s)
    (showInterstitial s).
Definition setStarted (v : bool) : Update := fun s =>
  mkState (sessionQuestions s) (currentIdx s) (practiceMode s) (firstTry s)
    (disabledChoices s) (results s) v (finished s) (showInterstitial s).
Definition setFinished (v : bool) : Update := fun s =>
  mkState (sessionQuestions s) (currentIdx s) (practiceMode s) (firstTry s)
    (disabledChoices s) (results s) (started s) v (showInterstitial s).
Definition setShowInterstitial (v : bool) : Update := fun s =>
  mkState (sessionQuestions s) (currentIdx s) (practiceMode s) (firstTry s)
    (disabledChoices s) (results s) (started s) (finished s) v.

Definition commit (s : State) (queue : list Update) : State :=
  fold_left (fun acc u => u acc) queue s.

(** [sessionQuestions[currentIdx]] *)
Definition current (s : State) : option Question :=
  at_ (sessionQuestions s) (currentIdx s).

(** [CONFIG.adsEnabled] is [true]. *)
Definition nextQuestion (s : State) : list Update :=
  let nextIndex := (currentIdx s + 1)%Z in
  if (Z.of_nat (length (sessionQuestions s)) <=? nextIndex)%Z
  then [setFinished true; setStarted false]
  else (if (nextIndex mod 10 =? 0)%Z then [setShowInterstitial true] else [])
       ++ [setCurrentIdx nextIndex; setFirstTry true;
           setDisabledChoices (fun _ => [])].

(** [handleAnswer]; [None] is the [TypeError] of reading [q.id] when there
    is no current question. *)
Definition handleAnswer (s : State) (choiceIdx : Z) : option (list Update) :=
  match current s with
  | None => None
  | Some q =>
      let qid := id q in
      Some
        (if practiceMode s then
           if bool_decide (answerIndex q = Some (AnsNum choiceIdx)) then
             [setResults (fun prev =>
                <[qid := mkAnswer choiceIdx (Some (firstTry s))]> prev)]
             ++ nextQuestion s
           else
             (if firstTry s then [setFirstTry false] else [])
             ++ [setDisabledChoices (fun prev => prev ++ [choiceIdx])]
         else
           [setResults (fun prev => <[qid := mkAnswer choiceIdx None]> prev)]
           ++ nextQuestion s)
  end.

(** The state after the clicks [clicks], one render after the other. *)
Fixpoint run (s : State) (clicks : list Z) : option State :=
  match clicks with
  | [] => Some s
  | c :: clicks' =>
      match handleAnswer s c with
      | Some queue => run (commit s queue) clicks'
      | None => None
      end
  end.

End LegacyApp.

(** A practice session of the older app on the sample bank, at its first
    question. *)
Definition sampleLegacySession : LegacyApp.State :=
  LegacyApp.mkState sampleBank 0 true true [] ∅ true false false.

(** ** The v2.1 trainer: session handlers *)

(** [a < b] for strings: the order of the code units. *)
Fixpoint strLtb (a b : jsstring) : bool :=
  match a, b with
  | _, [] => false
  | [], _ :: _ => true
  | x :: a', y :: b' =>
      if (nat_of_ascii x <? nat_of_ascii y)%nat then true
      else if (nat_of_ascii y <? nat_of_ascii x)%nat then false
      else strLtb a' b'
  end.

(** [l.sort()] on an array of integers: the elements are compared as
    strings, and elements that compare equal keep their order. *)
Fixpoint sortInsert (x : Z) (l : list Z) : list Z :=
  match l with
  | [] => [x]
  | y :: l' =>
      if strLtb (App.decimalZ y) (App.decimalZ x) then y :: sortInsert x l'
      else x :: y :: l'
  end.

Definition sortDefault (l : list Z) : list Z := foldr sortInsert [] l.

Module V21App.

(** A question of a session, with the fields the handlers and
    [beginSession] read ([rationales] is left out). *)
Record Item := mkItem {
  id : jsstring;
  item_type : option jsstring;
  choices : option (list (option jsstring));
  answerIndex : option AnswerIndex;
  correct_index : option Z;
  correct_indices : option (list Z);
  pairs : option (list (Z * Z))
}.

(** ['item_type' in q] *)
Definition isV21 (q : Item) : bool :=
  match item_type q with Some _ => true | None => false end.

(** [cs[i]] where [i] may be [undefined]. *)
Definition choiceAt (cs : list (option jsstring)) (i : option Z)
  : option jsstring :=
  match i with
  | Some n => mjoin (at_ cs n)
  | None => None
  end.

(** The callback of [pickRaw.map] in [beginSession] once [idxs] has been
    drawn; [None] is the [TypeError] of reading a choice of a question
    that has no [choices] and no [item_type]. *)
Definition remapItem (idxs : jsarray Z) (q : Item) : option Item :=
  match item_type q with
  | Some t =>
      if strEq t (str "single") || strEq t (str "multi") then
        let newChoices :=
          match choices q with
          | Some cs =>
              imap (fun i _ => choiceAt cs (aget idxs (Z.of_nat i))) cs
          | None => []
          end in
        let newCorrectIndex :=
          match correct_index q with
          | Some n =>
              if strEq t (str "single")
              then Some (indexOf (items idxs) (Some n))
              else Some n
          | None => None
          end in
        let newCorrectIndices :=
          match correct_indices q with
          | Some l =>
              if strEq t (str "multi")
              then Some (sortDefault
                           (map (fun ci => indexOf (items idxs) (Some ci)) l))
              else Some l
          | None => None
          end in
        Some (mkItem (id q) (item_type q) (Some newChoices) (answerIndex q)
                newCorrectIndex newCorrectIndices (pairs q))
      else Some q
  | None =>
      match choices q with
      | Some cs =>
          let newChoices :=
            [choiceAt cs (aget idxs 0); choiceAt cs (aget idxs 1);
             choiceAt cs (aget idxs 2); choiceAt cs (aget idxs 3)] in
          let newAnswerIndex := indexOfAnswer idxs (answerIndex q) in
          Some (mkItem (id q) (item_type q) (Some newChoices)
                  (Some (AnsNum newAnswerIndex)) (correct_index q)
                  (correct_indices q) (pairs q))
      | None => None
      end
  end.

(** The same callback with its draw: the order is a shuffle of
    [[0,1,2,3]] seeded by [Math.floor(Math.random() * 1e9)]. *)
Definition permuteItem (q : Item) (e : Entropy) : option Item :=
  match item_type q with
  | Some t =>
      if strEq t (str "single") || strEq t (str "multi") then
        let '(seed, e') := randomBelow 1000000000 e in
        remapItem (shuffle (ofList [0; 1; 2; 3]%Z) (Some seed) e') q
      else Some q
  | None =>
      let '(seed, e') := randomBelow 1000000000 e in
      remapItem (shuffle (ofList [0; 1; 2; 3]%Z) (Some seed) e') q
  end.

(** An entry of [results]. *)
Record Outcome := mkOutcome {
  outcomeId : option jsstring;
  outcomeFirstTryCorrect : bool;
  tries : Z;
  outcomeHistory : list Z;
  timeMs : Z;
  matchSelections : option (list (option Z))
}.

Record State := mkState {
  sessionQs : list Item;
  idx : Z;
  mode : Mode;
  eliminated : gmap Z bool;
  multiSel : list Z;
  matchSel : list (option Z);
  chosenHistory : list Z;
  firstTryCorrect : option bool;
  results : gmap jsstring Outcome;
  started : bool;
  finished : bool;
  questionStart : option Z
}.

Definition Update := State -> State.

Definition setIdx (v : Z) : Update := fun s =>
  mkState (sessionQs s) v (mode s) (eliminated s) (multiSel s) (matchSel s)
    (chosenHistory s) (firstTryCorrect s) (results s) (started s)
    (finished s) (questionStart s).
Definition setEliminated (f : gmap Z bool -> gmap Z bool) : Update :=
  fun s =>
  mkState (sessionQs s) (idx s) (mode s) (f (eliminated s)) (multiSel s)
    (matchSel s) (chosenHistory s) (firstTryCorrect s) (results s)
    (started s) (finished s) (questionStart s).
Definition setMultiSel (f : list Z -> list Z) : Update := fun s =>
  mkState (sessionQs s) (idx s) (mode s) (eliminated s) (f (multiSel s))
    (matchSel s) (chosenHistory s) (firstTryCorrect s) (results s)
    (started s) (finished s) (questionStart s).
Definition setMatchSel (f : list (option Z) -> list (option Z)) : Update :=
  fun s =>
  mkState (sessionQs s) (idx s) (mode s) (eliminated s) (multiSel s)
    (f (matchSel s)) (chosenHistory s) (firstTryCorrect s) (results s)
    (started s) (finished s) (questionStart s).
Definition setChosenHistory (f : list Z -> list Z) : Update := fun s =>
  mkState (sessionQs s) (idx s) (mode s) (eliminated s) (multiSel s)
    (matchSel s) (f (chosenHistory s)) (firstTryCorrect s) (results s)
    (started s) (finished s) (questionStart s).
Definition setFirstTryCorrect (v : option bool) : Update := fun s =>
  mkState (sessionQs s) (idx s) (mode s) (eliminated s) (multiSel s)
    (matchSel s) (chosenHistory s) v (results s) (started s) (finished s)
    (questionStart s).
Definition setResults
    (f : gmap jsstring Outcome -> gmap jsstring Outcome) : Update := fun s =>
  mkState (sessionQs s) (idx s) (mode s) (eliminated s) (multiSel s)
    (matchSel s) (chosenHistory s) (firstTryCorrect s) (f (results s))
    (started s) (finished s) (questionStart s).
Definition setStarted (v : bool) : Update := fun s =>
  mkState (sessionQs s) (idx s) (mode s) (eliminated s) (multiSel s)
    (matchSel s) (chosenHistory s) (firstTryCorrect s) (results s) v
    (finished s) (questionStart s).
Definition setFinished (v : bool) : Update := fun s =>
  mkState (sessionQs s) (idx s) (mode s) (eliminated s) (multiSel s)
    (matchSel s) (chosenHistory s) (firstTryCorrect s) (results s)
    (started s) v (questionStart s).
Definition setQuestionStart (v : option Z) : Update := fun s =>
  mkState (sessionQs s) (idx s) (mode s) (eliminated s) (multiSel s)
    (matchSel s) (chosenHistory s) (firstTryCorrect s) (results s)
    (started s) (finished s) v.

Definition commit (s : State) (queue : list Update) : State :=
  fold_left (fun acc u => u acc) queue s.

(** [sessionQs[idx]] *)
Definition current (s : State) : option Item := at_ (sessionQs s) (idx s).

(** The number of tries [recordResult] computes. *)
Definition triesOf (s : State) : Z :=
  let n :=
    (Z.of_nat (length (chosenHistory s))
     + (if (length (multiSel s) =? 0)%nat then 0 else 1)
     + (if (length (matchSel s) =? 0)%nat then 0 else 1))%Z in
  if (n =? 0)%Z then 1%Z else n.

(** [recordResult]; without a current question the entry goes under the
    key [undefined]. *)
Definition recordResult (s : State) (now : Z) (correct : bool)
  : list Update :=
  let qid := id <$> current s in
  let tries := triesOf s in
  let elapsed :=
    match questionStart s with
    | Some t0 => if (t0 =? 0)%Z then 0%Z else (now - t0)%Z
    | None => 0%Z
    end in
  let r :=
    mkOutcome qid (correct && (tries =? 1)%Z) tries (chosenHistory s)
      elapsed
      (if (length (matchSel s) =? 0)%nat then None else Some (matchSel s)) in
  [setResults (fun prev => <[default (str "undefined") qid := r]> prev)].

Definition nextQuestion (s : State) (now : Z) : list Update :=
  let atEnd := (Z.of_nat (length (sessionQs s)) <=? idx s + 1)%Z in
  if atEnd then [setFinished true; setStarted false]
  else [setIdx (idx s + 1)%Z; setEliminated (fun _ => ∅);
        setChosenHistory (fun _ => []); setMultiSel (fun _ => []);
        setMatchSel (fun _ => []); setFirstTryCorrect None;
        setQuestionStart (Some now)].

(** What a handler leaves behind: the queued updates, and whether it
    called [setTimeout(() => nextQuestion(), 250)]. *)
Record Effects := mkEffects {
  queue : list Update;
  timer : bool
}.

(** [onChoiceSingle]; [None] is the [TypeError] of reading a field of a
    missing question. *)
Definition onChoiceSingle (s : State) (now : Z) (choiceIdx : Z)
  : option Effects :=
  match current s with
  | None => None
  | Some q =>
      let correctIdx :=
        if isV21 q then Some (AnsNum (default 0%Z (correct_index q)))
        else answerIndex q in
      let hit := bool_decide (correctIdx = Some (AnsNum choiceIdx)) in
      Some
        match mode s with
        | practice =>
            if hit then
              mkEffects
                ([setChosenHistory (fun prev => prev ++ [choiceIdx])]
                 ++ recordResult s now true
                 ++ [setFirstTryCorrect
                       (Some (length (chosenHistory s) =? 0)%nat)])
                true
            else
              mkEffects
                [setEliminated (fun prev => <[choiceIdx := true]> prev);
                 setChosenHistory (fun prev => prev ++ [choiceIdx]);
                 setFirstTryCorrect (Some false)]
                false
        | exam =>
            mkEffects
              ([setChosenHistory (fun _ => [choiceIdx])]
               ++ recordResult s now hit
               ++ nextQuestion s now)
              false
        end
  end.

(** [onCheckMulti] *)
Definition onCheckMulti (s : State) (now : Z) : option Effects :=
  match current s with
  | None => None
  | Some q =>
      let correct :=
        V21.scoreMulti (sortDefault (multiSel s))
          (sortDefault (default [] (correct_indices q))) in
      Some
        match mode s with
        | practice =>
            if correct.1 then
              mkEffects
                ([setChosenHistory (fun prev => prev ++ [(-1)%Z])]
                 ++ recordResult s now true
                 ++ [setFirstTryCorrect
                       (Some (length (chosenHistory s) =? 0)%nat)])
                true
            else
              mkEffects
                [setChosenHistory (fun prev => prev ++ [(-1)%Z]);
                 setFirstTryCorrect (Some false)]
                false
        | exam =>
            mkEffects
              ([setChosenHistory (fun _ => multiSel s)]
               ++ recordResult s now correct.1
               ++ nextQuestion s now)
              false
        end
  end.

(** [onCheckMatch] *)
Definition onCheckMatch (s : State) (now : Z) : option Effects :=
  match current s with
  | None => None
  | Some q =>
      let ok := V21.scoreMatch (matchSel s) (Some (default [] (pairs q))) in
      Some
        match mode s with
        | practice =>
            if ok then
              mkEffects
                ([setChosenHistory (fun prev => prev ++ [(-2)%Z])]
                 ++ recordResult s now true
                 ++ [setFirstTryCorrect
                       (Some (length (chosenHistory s) =? 0)%nat)])
                true
            else
              mkEffects
                [setChosenHistory (fun prev => prev ++ [(-2)%Z]);
                 setFirstTryCorrect (Some false)]
                false
        | exam =>
            mkEffects (recordResult s now ok ++ nextQuestion s now) false
        end
  end.

(** The [onChange] of a check box of a multi-select question. *)
Definition toggleMulti (i : Z) (checked : bool) : list Update :=
  [setMultiSel (fun sel =>
     if checked then sel ++ [i]
     else List.filter (fun x => negb (x =? i)%Z) sel)].

(** The events of a session.  [Timeout snap] is the timer set by the
    handler that ran in snapshot [snap] going off: it runs that
    snapshot's [nextQuestion]. *)
Inductive Event :=
| Single (choiceIdx : Z)
| ToggleMulti (i : Z) (checked : bool)
| CheckMulti
| CheckMatch
| Next
| Timeout (snap : State).

Definition step (s : State) (now : Z) (ev : Event) : option State :=
  match ev with
  | Single c => (fun eff => commit s (queue eff)) <$> onChoiceSingle s now c
  | ToggleMulti i checked => Some (commit s (toggleMulti i checked))
  | CheckMulti => (fun eff => commit s (queue eff)) <$> onCheckMulti s now
  | CheckMatch => (fun eff => commit s (queue eff)) <$> onCheckMatch s now
  | Next => Some (commit s (nextQuestion s now))
  | Timeout snap => Some (commit s (nextQuestion snap now))
  end.

Fixpoint run (s : State) (evs : list (Z * Event)) : option State :=
  match evs with
  | [] => Some s
  | (now, ev) :: evs' =>
      match step s now ev with
      | Some s' => run s' evs'
      | None => None
      end
  end.

(** A multi-select item whose correct choices are the first and the
    third, and a single-choice item. *)
Definition sampleMulti : Item :=
  mkItem (str "M1") (Some (str "multi"))
    (Some [Some (str "A"); Some (str "B"); Some (str "C"); Some (str "D")])
    None None (Some [0; 2]%Z) None.

Definition sampleSingle : Item :=
  mkItem (str "S1") (Some (str "single"))
    (Some [Some (str "A"); Some (str "B"); Some (str "C"); Some (str "D")])
    None (Some 1%Z) None None.

(** A practice session on three items, at the multi-select item, after
    one failed check and with the right selection made. *)
Definition sampleState : State :=
  mkState [sampleMulti; sampleSingle; sampleSingle] 0 practice ∅ [2; 0]%Z []
    [(-1)%Z] (Some false) ∅ true false (Some 1000%Z).

(** A practice session on three items, at its first item, a
    single-choice one, with nothing answered yet. *)
Definition sampleFresh : State :=
  mkState [sampleSingle; sampleSingle; sampleMulti] 0 practice ∅ [] [] []
    None ∅ true false (Some 1000%Z).

End V21App.

(** ** The CSV reader of the older [App.jsx] *)

Module LegacyCsv.

(** [line.split(sep)] for a separator of one character; [cur] is the
    piece being read. *)
Fixpoint splitOn (sep : ascii) (text cur : jsstring) : list jsstring :=
  match text with
  | [] => [cur]
  | ch :: rest =>
      if chEq ch sep then cur :: splitOn sep rest []
      else splitOn sep rest (cur ++ [ch])
  end.

(** [text.split(/\r?\n/)]: a line ends at a line feed, and a carriage
    return right before the line feed goes with it. *)
Fixpoint splitLineBreaks (text cur : jsstring) : list jsstring :=
  match text with
  | [] => [cur]
  | ch :: rest =>
      if chEq ch LF then cur :: splitLineBreaks rest []
      else
        match rest with
        | ch2 :: rest' =>
            if chEq ch CR && chEq ch2 LF then cur :: splitLineBreaks rest' []
            else splitLineBreaks rest (cur ++ [ch])
        | [] => splitLineBreaks rest (cur ++ [ch])
        end
  end.

(** [toUpperCase] on a Latin-1 code unit, as the code units of the
    result: a-z and the accented small letters move down by 32, the
    sharp s becomes SS, and the micro sign and the y with diaeresis leave
    Latin-1. *)
Definition upperUnits (c : ascii) : list Z :=
  let n := nat_of_ascii c in
  if ((97 <=? n) && (n <=? 122) || (224 <=? n) && (n <=? 246)
      || (248 <=? n) && (n <=? 254))%nat
  then [Z.of_nat (n - 32)]
  else if (n =? 223)%nat then [83; 83]%Z
  else if (n =? 181)%nat then [924%Z]
  else if (n =? 255)%nat then [376%Z]
  else [Z.of_nat n].

Definition toUpperCase (s : jsstring) : list Z := concat (map upperUnits s).

(** [{ A: 0, B: 1, C: 2, D: 3 }[key] ?? 0]; an upper-cased key cannot be
    a name the object inherits. *)
Definition letterIndex (key : list Z) : Z :=
  if bool_decide (key = [65%Z]) then 0%Z
  else if bool_decide (key = [66%Z]) then 1%Z
  else if bool_decide (key = [67%Z]) then 2%Z
  else if bool_decide (key = [68%Z]) then 3%Z
  else 0%Z.

(** [x ? x.trim() : ''] for a part that may be missing. *)
Definition trimOr (part : option jsstring) : jsstring :=
  match part with
  | Some x => if isEmpty x then [] else trim x
  | None => []
  end.

(** The callback of [rows.map]: [None] is [null]. *)
Definition parseLine (line : jsstring) : option Question :=
  let parts := splitOn comma line [] in
  if (length parts <? 9)%nat then None
  else
    let part i := default [] (parts !! i) in
    Some
      {| id := trim (part 0);
         domain := trim (part 1);
         question := trim (part 2);
         choices := ofList [trim (part 3); trim (part 4); trim (part 5);
                            trim (part 6)];
         answerIndex :=
           Some (AnsNum (letterIndex (toUpperCase (trim (part 7)))));
         explanation := trimOr (parts !! 8);
         reference := trimOr (parts !! 9);
         item_type := None;
         correct_index := None;
         prompt := None |}.

Definition parseCSV (csv : jsstring) : list Question :=
  let lines := splitLineBreaks (trim csv) [] in
  omap parseLine (drop 1 lines).

End LegacyCsv.


(** A cell without double quote, comma, line feed or carriage return. *)
Definition plainCell (c : jsstring) : Prop :=
  needsQuote c = false ∧ CR ∉ c.

(** The [malformedUnmatched] sample of the parser self-tests, followed by
    one more line. *)
Definition sampleCsvUnmatched : jsstring :=
  str "id,domain,question,a,b,c,d,correct" ++ [LF]
  ++ str "U6,People," ++ [dquote] ++ str "Unmatched,A,B,C,D,A" ++ [LF]
  ++ str "U7,Agile,Why?,A,B,C,D,2" ++ [LF].

(** * Properties *)

(** ** Rounding and the generators *)

Local Open Scope Z_scope.

Lemma fl53_exact x : Z.abs x < two53 -> fl53 x = x.
Proof.
  intros Hx. unfold fl53.
  destruct (Z.eq_dec x 0) as [-> | Hne]; [reflexivity |].
  assert (Z.log2 (Z.abs x) < 53) by (apply Z.log2_lt_pow2; unfold two53 in Hx; lia).
  destruct (Z.leb_spec (Z.log2 (Z.abs x) - 52) 0); [reflexivity | lia].
Qed.

(** On a non-negative integer the rounded value is [q * 2^e] or
    [(q + 1) * 2^e], the latter only from the upper half of the gap. *)
Lemma fl53_cases x :
  0 <= x ->
  fl53 x = x \/
  exists e, 0 < e /\ 2 ^ (e + 52) <= x /\
    (fl53 x = x / 2 ^ e * 2 ^ e \/
     (fl53 x = (x / 2 ^ e + 1) * 2 ^ e /\ 2 ^ (e - 1) <= x mod 2 ^ e)).
Proof.
  intros Hx. unfold fl53. rewrite (Z.abs_eq x Hx).
  destruct (Z.leb_spec (Z.log2 x - 52) 0) as [He | He]; [now left |].
  right. exists (Z.log2 x - 52). 
  assert (Hpos : 0 < x).
  { destruct (Z.eq_dec x 0) as [-> | ]; [simpl in He; lia | lia]. }
  split; [lia |]. split.
  { replace (Z.log2 x - 52 + 52) with (Z.log2 x) by lia.
    apply Z.log2_spec; lia. }
  rewrite (Z.sgn_pos x Hpos), !Z.mul_1_l.
  destruct (Z.ltb_spec (x mod 2 ^ (Z.log2 x - 52)) (2 ^ (Z.log2 x - 52 - 1)));
    [now left |].
  destruct (Z.ltb_spec (2 ^ (Z.log2 x - 52 - 1)) (x mod 2 ^ (Z.log2 x - 52)));
    [right; split; [reflexivity | lia] |].
  destruct (Z.even (x / 2 ^ (Z.log2 x - 52)));
    [now left | right; split; [reflexivity | lia]].
Qed.

Lemma fl53_nonneg x : 0 <= x -> 0 <= fl53 x.
Proof.
  intros Hx. destruct (fl53_cases x Hx) as [-> | (e & He & _ & Hc)]; [lia |].
  assert (0 < 2 ^ e) by (apply Z.pow_pos_nonneg; lia).
  assert (0 <= x / 2 ^ e) by (apply Z.div_pos; lia).
  destruct Hc as [-> | [-> _]]; nia.
Qed.

(** Rounding moves a non-negative integer up by at most [x / 2^53]. *)
Lemma fl53_upper x : 0 <= x -> fl53 x <= x + x / 2 ^ 53.
Proof.
  intros Hx.
  assert (0 <= x / 2 ^ 53) by (apply Z.div_pos; lia).
  destruct (fl53_cases x Hx) as [-> | (e & He & Hlow & Hc)]; [lia |].
  assert (Hpe : 0 < 2 ^ e) by (apply Z.pow_pos_nonneg; lia).
  pose proof (Z.div_mod x (2 ^ e) ltac:(lia)) as Hdm.
  pose proof (Z.mod_pos_bound x (2 ^ e) Hpe) as Hmod.
  destruct Hc as [-> | [-> Hhalf]]; [lia |].
  assert (Hh : 2 ^ (e - 1) <= x / 2 ^ 53).
  { apply Z.div_le_lower_bound; [lia |].
    replace (2 ^ 53 * 2 ^ (e - 1)) with (2 ^ (e + 52)); [exact Hlow |].
    rewrite <- Z.pow_add_r by lia. f_equal. lia. }
  assert (Hee : 2 ^ e = 2 * 2 ^ (e - 1)).
  { rewrite <- (Z.pow_succ_r 2 (e - 1)) by lia. f_equal. lia. }
  lia.
Qed.

(** A product that stays [n] below [n * 2^k] is not rounded up to it. *)
Lemma fl53_lt_scaled x n k :
  0 <= x -> 0 < n -> 0 <= k <= 53 -> x <= n * 2 ^ k - n -> fl53 x < n * 2 ^ k.
Proof.
  intros Hx Hn Hk Hle.
  pose proof (fl53_upper x Hx) as Hup.
  assert (Hpk : 0 < 2 ^ k) by (apply Z.pow_pos_nonneg; lia).
  assert (x / 2 ^ 53 <= x / 2 ^ k).
  { apply Z.div_le_compat_l; [lia |]. split; [lia |].
    apply Z.pow_le_mono_r; lia. }
  assert (x / 2 ^ k < n) by (apply Z.div_lt_upper_bound; lia).
  lia.
Qed.

Lemma lxor_below n a b :
  0 < n -> 0 <= a < 2 ^ n -> 0 <= b < 2 ^ n -> 0 <= Z.lxor a b < 2 ^ n.
Proof.
  intros Hn Ha Hb.
  assert (Hnn : 0 <= Z.lxor a b) by (apply Z.lxor_nonneg; lia).
  split; [exact Hnn |].
  destruct (Z.eq_dec (Z.lxor a b) 0) as [-> | Hne];
    [apply Z.pow_pos_nonneg; lia |].
  apply Z.log2_lt_pow2; [lia |].
  eapply Z.le_lt_trans; [apply Z.log2_lxor; lia |].
  apply Z.max_lub_lt.
  - destruct (Z.eq_dec a 0) as [-> | ]; [simpl; lia | apply Z.log2_lt_pow2; lia].
  - destruct (Z.eq_dec b 0) as [-> | ]; [simpl; lia | apply Z.log2_lt_pow2; lia].
Qed.

Lemma toUint32_range x : 0 <= toUint32 x < two32.
Proof. unfold toUint32, two32. apply Z.mod_pos_bound. lia. Qed.

Lemma xorshift_range s : 0 <= s < two32 -> 0 <= xorshift s < two32.
Proof.
  intros Hs. unfold xorshift, two32 in *.
  assert (H1 : 0 <= Z.lxor s (Z.shiftl s 13 mod 2 ^ 32) < 2 ^ 32).
  { apply lxor_below; [lia | exact Hs | apply Z.mod_pos_bound; lia]. }
  set (s1 := Z.lxor s (Z.shiftl s 13 mod 2 ^ 32)) in *.
  assert (H2 : 0 <= Z.lxor s1 (Z.shiftr s1 17) < 2 ^ 32).
  { apply lxor_below; [lia | exact H1 |].
    rewrite Z.shiftr_div_pow2 by lia. split; [apply Z.div_pos; lia |].
    apply Z.div_lt_upper_bound; lia. }
  apply lxor_below; [lia | exact H2 | apply Z.mod_pos_bound; lia].
Qed.

Lemma pickIndex_range u n :
  0 <= u < two32 -> 0 < n -> 0 <= pickIndex u n < n.
Proof.
  intros Hu Hn. unfold pickIndex, two32 in *.
  assert (Hx : 0 <= u * n) by nia.
  split.
  - apply Z.div_pos; [apply fl53_nonneg; exact Hx | lia].
  - apply Z.div_lt_upper_bound; [lia |].
    replace (2 ^ 32 * n) with (n * 2 ^ 32) by lia.
    apply fl53_lt_scaled; [exact Hx | lia | lia | nia].
Qed.

(** From a state that is a non-negative integer below 2^53 the product
    is finite, and the next state lies below the modulus. *)
Lemma lehmer_range r :
  0 <= r < two53 ->
  exists r', Legacy.lehmer (Legacy.Num r) = Legacy.Num r'
             /\ 0 <= r' < Legacy.modulus.
Proof.
  intros Hr. unfold Legacy.lehmer.
  assert (Hx : 0 <= r * 16807) by lia.
  pose proof (fl53_nonneg _ Hx) as Hp.
  pose proof (fl53_upper _ Hx) as Hup.
  assert (Hq : r * 16807 / 2 ^ 53 < 16807).
  { apply Z.div_lt_upper_bound; unfold two53 in Hr; lia. }
  assert (Hsmall : fl53 (r * 16807) < 2 ^ 68) by (unfold two53 in Hr; lia).
  assert (Hbig : 2 ^ 68 <= Legacy.two1024)
    by (unfold Legacy.two1024; apply Z.pow_le_mono_r; lia).
  cbv zeta. rewrite (Z.abs_eq _ Hp).
  destruct (Z.leb_spec Legacy.two1024 (fl53 (r * 16807))) as [Hge | _];
    [lia |].
  eexists. split; [reflexivity |].
  unfold Legacy.modulus. apply Z.rem_bound_pos; lia.
Qed.

Lemma lehmerIndex_range r m :
  0 <= r < Legacy.modulus -> 0 < m -> 0 <= r * m / Legacy.modulus < m.
Proof.
  intros Hr Hm. unfold Legacy.modulus in *. split.
  - apply Z.div_pos; nia.
  - apply Z.div_lt_upper_bound; nia.
Qed.

Lemma randomIndex_range d m :
  0 <= d < two53 -> 0 < m -> 0 <= fl53 (d * m) / two53 < m.
Proof.
  intros Hd Hm. unfold two53 in *.
  assert (Hx : 0 <= d * m) by nia.
  split.
  - apply Z.div_pos; [apply fl53_nonneg; exact Hx | lia].
  - apply Z.div_lt_upper_bound; [lia |].
    replace (2 ^ 53 * m) with (m * 2 ^ 53) by lia.
    apply fl53_lt_scaled; [exact Hx | lia | lia | nia].
Qed.

Lemma randomBelow_range c e :
  validEntropy e -> 0 < c -> 0 <= fst (randomBelow c e) < c.
Proof.
  intros He Hc. unfold randomBelow, Math_random. simpl.
  apply randomIndex_range; [apply He | exact Hc].
Qed.

Local Close Scope Z_scope.

(** ** Swapping two slots of an array *)

Section SwapFacts.
Context {A : Type}.
Implicit Types a : jsarray A.

Lemma swap_in_range a (i j : Z) :
  (0 <= i < Z.of_nat (alength a))%Z ->
  (0 <= j < Z.of_nat (alength a))%Z ->
  items (swap a i j) ≡ₚ items a
  ∧ props (swap a i j) = props a
  ∧ alength (swap a i j) = alength a.
Proof.
  intros Hi Hj. unfold alength in *.
  destruct (lookup_lt_is_Some_2 (items a) (Z.to_nat i)) as [vi Hvi]; [lia |].
  destruct (lookup_lt_is_Some_2 (items a) (Z.to_nat j)) as [vj Hvj]; [lia |].
  unfold swap, aget, aset.
  destruct (Z.ltb_spec i 0) as [? | _]; [lia |].
  destruct (Z.ltb_spec j 0) as [? | _]; [lia |].
  rewrite Hvi, Hvj. simpl.
  destruct (Nat.ltb_spec (Z.to_nat i) (length (items a))) as [_ | ?]; [| lia].
  simpl. rewrite length_insert.
  destruct (Nat.ltb_spec (Z.to_nat j) (length (items a))) as [_ | ?]; [| lia].
  simpl. rewrite !length_insert.
  split; [| split; reflexivity].
  exact (Permutation_insert_swap _ _ _ _ _ Hvi Hvj).
Qed.

(** The xorshift loop started at [i] touches slots [0..i] only. *)
Lemma fisherYates_perm (i : nat) : forall (s : Z) a,
  (i = 0 ∨ i < alength a) ->
  (0 <= s < two32)%Z ->
  items (fisherYates i s a) ≡ₚ items a ∧ props (fisherYates i s a) = props a.
Proof.
  induction i as [| i IH]; intros s a Hi Hs; [split; reflexivity |].
  destruct Hi as [Hi | Hi]; [discriminate |].
  cbn [fisherYates].
  pose proof (xorshift_range s Hs) as Hs'.
  pose proof (pickIndex_range (xorshift s) (Z.of_nat (S i) + 1) Hs'
                ltac:(lia)) as Hj.
  destruct (swap_in_range a (Z.of_nat (S i))
              (pickIndex (xorshift s) (Z.of_nat (S i) + 1)))
    as (Hp & Hq & Hl); [lia | lia |].
  destruct (IH (xorshift s)
              (swap a (Z.of_nat (S i))
                 (pickIndex (xorshift s) (Z.of_nat (S i) + 1))))
    as [Hp' Hq']; [right; lia | exact Hs' |].
  split; [etrans; [exact Hp' | exact Hp] | congruence].
Qed.

Lemma shuffle_perm (arr : jsarray A) seed e :
  items (shuffle arr seed e) ≡ₚ items arr ∧ props (shuffle arr seed e) = [].
Proof.
  unfold shuffle.
  destruct (fisherYates_perm (alength (spread arr) - 1)
              (toUint32 (seedOrRandom seed e)) (spread arr))
    as [Hp Hq]; [unfold alength; simpl; lia | apply toUint32_range |].
  split; [exact Hp | exact Hq].
Qed.

Lemma shuffle_length (arr : jsarray A) seed e :
  alength (shuffle arr seed e) = alength arr.
Proof.
  unfold alength. apply Permutation_length, shuffle_perm.
Qed.

(** The Lehmer loop, for a generator state that is a non-negative
    integer below 2^53 and draws that lie in [0,1). *)
Lemma lehmerLoop_perm (m : nat) : forall seed (r : Z) e a,
  m <= alength a ->
  (0 <= r < two53)%Z ->
  validEntropy e ->
  items (Legacy.lehmerLoop m seed (Legacy.Num r) e a) ≡ₚ items a
  ∧ props (Legacy.lehmerLoop m seed (Legacy.Num r) e a) = props a.
Proof.
  induction m as [| m IH]; intros seed r e a Hm Hr He;
    [split; reflexivity |].
  cbn [Legacy.lehmerLoop].
  destruct (Legacy.truthy seed).
  - destruct (lehmer_range r Hr) as (r' & -> & Hr').
    cbn [Legacy.seededSwap].
    pose proof (lehmerIndex_range _ (Z.of_nat (S m)) Hr' ltac:(lia)) as Hi.
    destruct (swap_in_range a (Z.of_nat m)
                (r' * Z.of_nat (S m) / Legacy.modulus)%Z)
      as (Hp & Hq & Hl); [lia | lia |].
    destruct (IH seed r' e
                (swap a (Z.of_nat m)
                   (r' * Z.of_nat (S m) / Legacy.modulus)%Z))
      as [Hp' Hq'];
      [lia | unfold Legacy.modulus, two53 in *; lia | exact He |].
    split; [etrans; [exact Hp' | exact Hp] | etrans; [exact Hq' | exact Hq]].
  - unfold Math_random.
    pose proof (randomIndex_range (e 0) (Z.of_nat (S m)) (He 0)
                  ltac:(lia)) as Hi.
    destruct (swap_in_range a (Z.of_nat m)
                (fl53 (e 0%nat * Z.of_nat (S m)) / two53)%Z)
      as (Hp & Hq & Hl); [lia | lia |].
    destruct (IH seed r (fun k => e (S k))
                (swap a (Z.of_nat m)
                   (fl53 (e 0%nat * Z.of_nat (S m)) / two53)%Z))
      as [Hp' Hq']; [lia | exact Hr | exact (fun k => He (S k)) |].
    split; [etrans; [exact Hp' | exact Hp] | etrans; [exact Hq' | exact Hq]].
Qed.

Lemma legacy_shuffle_perm (arr : jsarray A) seed e :
  (forall s, seed = Some s -> (0 <= s < two53)%Z) ->
  validEntropy e ->
  items (Legacy.shuffle arr seed e) ≡ₚ items arr
  ∧ props (Legacy.shuffle arr seed e) = [].
Proof.
  intros Hs He. unfold Legacy.shuffle, Legacy.initialRand.
  apply (lehmerLoop_perm _ seed _ e (spread arr)); [reflexivity | | exact He].
  destruct seed as [s |]; simpl; [apply Hs; reflexivity | unfold two53; lia].
Qed.

(** ** The loops on the store *)

Lemma updateAt_bound (st : list (jsarray A)) (r : ref) (x : jsarray A) f :
  st !! r = Some x -> updateAt st r f = <[r := f x]> st.
Proof. intros H. unfold updateAt, store. rewrite H. reflexivity. Qed.

Lemma insert_again (st : list (jsarray A)) (r : ref) (x y : jsarray A) :
  <[r := y]> (<[r := x]> st) = <[r := y]> st.
Proof.
  revert r. induction st as [| z st IH]; intros [| r]; simpl;
    [reflexivity .. |]. f_equal. apply IH.
Qed.

Lemma insert_bound (st : list (jsarray A)) (r : ref) (x y : jsarray A) :
  st !! r = Some x -> <[r := y]> st !! r = Some y.
Proof.
  intros H. apply list_lookup_insert_eq. eapply lookup_lt_Some, H.
Qed.

(** The xorshift loop on the store changes the object behind [a] as the
    loop on arrays does, and nothing else. *)
Lemma fisherYatesIn_writes (i : nat) :
  forall (s : Z) (st : list (jsarray A)) (r : ref) x,
  st !! r = Some x ->
  fisherYatesIn i s st r = <[r := fisherYates i s x]> st.
Proof.
  induction i as [| i IH]; intros s st r x Hx.
  - cbn [fisherYatesIn fisherYates]. symmetry. apply list_insert_id, Hx.
  - cbn [fisherYatesIn fisherYates].
    rewrite (updateAt_bound st r x _ Hx).
    rewrite (IH _ _ r _ (insert_bound st r x _ Hx)).
    apply insert_again.
Qed.

Lemma lehmerLoopIn_writes (m : nat) :
  forall seed rand e (st : list (jsarray A)) arr x,
  st !! arr = Some x ->
  Legacy.lehmerLoopIn m seed rand e st arr
  = <[arr := Legacy.lehmerLoop m seed rand e x]> st.
Proof.
  induction m as [| m IH]; intros seed rand e st arr x Hx.
  - cbn [Legacy.lehmerLoopIn Legacy.lehmerLoop].
    symmetry. apply list_insert_id, Hx.
  - cbn [Legacy.lehmerLoopIn Legacy.lehmerLoop].
    destruct (Legacy.truthy seed).
    + rewrite (updateAt_bound st arr x _ Hx).
      rewrite (IH _ _ _ _ arr _ (insert_bound st arr x _ Hx)).
      apply insert_again.
    + unfold Math_random.
      rewrite (updateAt_bound st arr x _ Hx).
      rewrite (IH _ _ _ _ arr _ (insert_bound st arr x _ Hx)).
      apply insert_again.
Qed.

Lemma insert_last (st : list (jsarray A)) (x y : jsarray A) :
  <[length st := y]> (st ++ [x]) = st ++ [y].
Proof.
  induction st as [| z st IH]; simpl; [reflexivity |]. f_equal. exact IH.
Qed.

Lemma lengthAt_last (st : list (jsarray A)) (x : jsarray A) :
  lengthAt (st ++ [x]) (length st) = alength x.
Proof.
  unfold lengthAt, store.
  rewrite list_lookup_middle by reflexivity. reflexivity.
Qed.

(** A call allocates one object, and what it leaves there is the
    shuffled array. *)
Lemma shuffleIn_result (st : list (jsarray A)) (arr : ref) contents seed e :
  st !! arr = Some contents ->
  shuffleIn st arr seed e
  = Some (st ++ [shuffle contents seed e], length st).
Proof.
  intros Harr. unfold shuffleIn, store. rewrite Harr. cbv zeta.
  rewrite lengthAt_last.
  rewrite (fisherYatesIn_writes _ _ _ _ (spread contents))
    by (apply list_lookup_middle; reflexivity).
  rewrite insert_last. reflexivity.
Qed.

Lemma legacy_shuffleIn_result (st : list (jsarray A)) (arr : ref) contents
    seed e :
  st !! arr = Some contents ->
  Legacy.shuffleIn st arr seed e
  = Some (st ++ [Legacy.shuffle contents seed e], length st).
Proof.
  intros Harr. unfold Legacy.shuffleIn, store. rewrite Harr. cbv zeta.
  rewrite lengthAt_last.
  rewrite (lehmerLoopIn_writes _ _ _ _ _ _ (spread contents))
    by (apply list_lookup_middle; reflexivity).
  rewrite insert_last. reflexivity.
Qed.
End SwapFacts.

(** ** Determinism of the seeded shuffles *)

Lemma lehmerLoop_seeded {A} (m : nat) : forall seed rand e1 e2 (a : jsarray A),
  Legacy.truthy seed = true ->
  Legacy.lehmerLoop m seed rand e1 a = Legacy.lehmerLoop m seed rand e2 a.
Proof.
  induction m as [| m IH]; intros seed rand e1 e2 a Hs; [reflexivity |].
  cbn [Legacy.lehmerLoop]. rewrite Hs. apply IH, Hs.
Qed.

(** Where the supplied seed decides the order: the output of the
    xorshift [shuffle] does not depend on the random source, for every
    seed; the output of the Lehmer [shuffle] of the older [App.jsx] does
    not depend on it for every seed other than 0. *)
Lemma shuffle_seeded_deterministic {A} (arr : jsarray A) (seed : Z)
    (e1 e2 : Entropy) :
  shuffle arr (Some seed) e1 = shuffle arr (Some seed) e2
  ∧ (seed ≠ 0%Z ->
     Legacy.shuffle arr (Some seed) e1 = Legacy.shuffle arr (Some seed) e2).
Proof.
  split; [reflexivity |].
  intros Hne. unfold Legacy.shuffle. apply lehmerLoop_seeded. simpl.
  destruct (Z.eqb_spec seed 0); [contradiction | reflexivity].
Qed.

(** C3.  The Lehmer [shuffle] of the older [App.jsx] does not honour the
    seed 0: it tests the seed with [seed ? random() : Math.random()], so
    a supplied 0 counts as no seed and every index is drawn from
    [Math.random].  Two calls with the same list and the seed 0 return
    different orders when [Math.random] returns 0 in one and 0.5 in the
    other, where the claim, the comment of the function and the xorshift
    [shuffle] (which reads the seed with [??]) promise one order. *)
Theorem legacy_shuffle_ignores_seed_zero :
  Legacy.shuffle (ofList [1; 2; 3]%Z) (Some 0%Z) (fun _ => 0%Z)
  = ofList [2; 3; 1]%Z
  ∧ Legacy.shuffle (ofList [1; 2; 3]%Z) (Some 0%Z) (fun _ => (2 ^ 52)%Z)
    = ofList [1; 3; 2]%Z
  ∧ shuffle (ofList [1; 2; 3]%Z) (Some 0%Z) (fun _ => 0%Z)
    = shuffle (ofList [1; 2; 3]%Z) (Some 0%Z) (fun _ => (2 ^ 52)%Z).
Proof.
  split; [vm_compute; reflexivity |].
  split; [vm_compute; reflexivity | reflexivity].
Qed.

(** ** [shuffle] returns a permuted copy *)

(** Allocation at the end of the store leaves what was there alone. *)
Lemma store_alloc {A} (st : store A) (arr : ref) (contents : jsarray A) :
  st !! arr = Some contents ->
  st !! length st = None
  ∧ (forall x, (st ++ [x]) !! arr = Some contents)
  ∧ (forall x r, r ≠ length st -> (st ++ [x]) !! r = st !! r).
Proof.
  intros Harr. pose proof (lookup_lt_Some _ _ _ Harr) as Hlt.
  split; [apply lookup_ge_None_2; lia |].
  split; [intros x; rewrite lookup_app_l; [exact Harr | exact Hlt] |].
  intros x r Hr. destruct (decide (r < length st)) as [Hl | Hl].
  - apply lookup_app_l, Hl.
  - transitivity (@None (jsarray A)).
    + apply lookup_ge_None_2. rewrite length_app. simpl. lia.
    + symmetry. apply lookup_ge_None_2. lia.
Qed.

(** C8.  Called on an array of the store, the xorshift [shuffle] returns,
    for every seed (supplied or not), a reference that was not in use
    before; the array behind it holds a permutation of the elements of
    the input (so it has the same length) and no other property; every
    array that was in the store, the input included, is as it was: all
    the writes of the loop went through the new reference.  The Lehmer
    [shuffle] of the older [App.jsx] does the same for every seed it can
    receive, a non-negative integer below 2^53 (its callers pass
    [Date.now()] and [Math.floor(Math.random() * 2147483647)]), its
    unseeded draws taken from [0,1). *)
Theorem shuffle_returns_permuted_copy {A} (st : store A) (arr : ref)
    (contents : jsarray A) (seed : option Z) (e : Entropy) :
  st !! arr = Some contents ->
  (exists st' a out,
      shuffleIn st arr seed e = Some (st', a)
      ∧ st !! a = None
      ∧ st' !! a = Some out
      ∧ items out ≡ₚ items contents
      ∧ props out = []
      ∧ alength out = alength contents
      ∧ st' !! arr = Some contents
      ∧ forall r, r ≠ a -> st' !! r = st !! r)
  ∧ ((forall s, seed = Some s -> (0 <= s < two53)%Z) -> validEntropy e ->
     exists st' a out,
      Legacy.shuffleIn st arr seed e = Some (st', a)
      ∧ st !! a = None
      ∧ st' !! a = Some out
      ∧ items out ≡ₚ items contents
      ∧ props out = []
      ∧ alength out = alength contents
      ∧ st' !! arr = Some contents
      ∧ forall r, r ≠ a -> st' !! r = st !! r).
Proof.
  intros Harr.
  destruct (store_alloc st arr contents Harr) as (Hfresh & Harr' & Hframe).
  split.
  - destruct (shuffle_perm contents seed e) as [Hp Hq].
    exists (st ++ [shuffle contents seed e]), (length st),
      (shuffle contents seed e).
    split; [apply shuffleIn_result, Harr |]. split; [exact Hfresh |].
    split; [apply list_lookup_middle; reflexivity |].
    split; [exact Hp |]. split; [exact Hq |].
    split; [unfold alength; apply Permutation_length, Hp |].
    split; [apply Harr' | apply Hframe].
  - intros Hs He.
    destruct (legacy_shuffle_perm contents seed e Hs He) as [Hp Hq].
    exists (st ++ [Legacy.shuffle contents seed e]), (length st),
      (Legacy.shuffle contents seed e).
    split; [apply legacy_shuffleIn_result, Harr |]. split; [exact Hfresh |].
    split; [apply list_lookup_middle; reflexivity |].
    split; [exact Hp |]. split; [exact Hq |].
    split; [unfold alength; apply Permutation_length, Hp |].
    split; [apply Harr' | apply Hframe].
Qed.

Lemma shuffle_returns_permuted_copy_witness :
  (exists st' a out,
     shuffleIn [ofList [1; 2; 3]%Z] 0 (Some 42%Z) (fun _ => 0%Z)
     = Some (st', a)
     ∧ st' !! a = Some out
     ∧ items out ≡ₚ items (ofList [1; 2; 3]%Z)
     ∧ st' !! 0 = Some (ofList [1; 2; 3]%Z))
  ∧ (exists st' a out,
     Legacy.shuffleIn [ofList [1; 2; 3]%Z] 0 (Some 1700000000000%Z)
       (fun _ => 0%Z)
     = Some (st', a)
     ∧ st' !! a = Some out
     ∧ items out ≡ₚ items (ofList [1; 2; 3]%Z)
     ∧ st' !! 0 = Some (ofList [1; 2; 3]%Z)).
Proof.
  destruct (shuffle_returns_permuted_copy [ofList [1; 2; 3]%Z] 0
              (ofList [1; 2; 3]%Z) (Some 42%Z) (fun _ => 0%Z) eq_refl)
    as [(st' & a & out & H1 & _ & H3 & H4 & _ & _ & H7 & _) _].
  split; [exists st', a, out; repeat split; assumption |].
  destruct (shuffle_returns_permuted_copy [ofList [1; 2; 3]%Z] 0
              (ofList [1; 2; 3]%Z) (Some 1700000000000%Z) (fun _ => 0%Z)
              eq_refl)
    as [_ Hlegacy].
  destruct Hlegacy as (st2 & a2 & out2 & L1 & _ & L3 & L4 & _ & _ & L7 & _).
  - intros s [= <-]. unfold two53. lia.
  - intros k. unfold two53. lia.
  - exists st2, a2, out2. repeat split; assumption.
Defined.

(** Outside the seeds it can receive the Lehmer [shuffle] is no shuffle.
    With the seed -1 the generator stays negative, every index is -1 and
    the swaps go through the property [-1] of the array; with the seed
    2^1015 the first product is [Infinity], the state is [NaN] from then
    on and the swaps go through the property [NaN].  Either way an
    element of the input is replaced by [undefined]. *)
Lemma legacy_shuffle_outside_its_seeds :
  Legacy.shuffle (ofList [1; 2]%Z) (Some (-1)%Z) (fun _ => 0%Z)
  = JsArray [Some 2%Z; None] [(KInt (-1), Some 1%Z)]
  ∧ Legacy.shuffle (ofList [1; 2]%Z) (Some (2 ^ 1015)%Z) (fun _ => 0%Z)
    = JsArray [Some 2%Z; None] [(KNaN, Some 1%Z)].
Proof. split; vm_compute; reflexivity. Qed.

(** ** The size of a session *)

Lemma slice0_length {A} (arr : jsarray A) (end_ : Z) :
  (0 <= end_)%Z ->
  Z.of_nat (alength (slice0 arr end_)) = Z.min end_ (Z.of_nat (alength arr)).
Proof.
  intros He. unfold slice0, alength. simpl.
  destruct (Z.ltb_spec end_ 0) as [? | _]; [lia |].
  rewrite length_take. lia.
Qed.

Lemma alength_ofList {A} (l : list A) : alength (ofList l) = length l.
Proof. unfold alength, ofList. simpl. apply length_fmap. Qed.

Lemma startSession_sessionQs (s : App.State) now e :
  App.sessionQs (App.commit s (App.startSession s now e))
  = slice0 (shuffle (ofList (App.filtered s)) (Some (App.seed s)) e)
      (Z.min (App.sessionSize s)
         (Z.of_nat (alength (shuffle (ofList (App.filtered s))
                                (Some (App.seed s)) e)))).
Proof. reflexivity. Qed.

(** C6, as amended.  For every pool and every requested size that is not
    negative, the session started holds as many questions as the smaller
    of the requested size and the size of the filtered pool. *)
Theorem startSession_size_clamped (s : App.State) (now : Z) (e : Entropy) :
  (0 <= App.sessionSize s)%Z ->
  Z.of_nat (alength (App.sessionQs (App.commit s (App.startSession s now e))))
  = Z.min (App.sessionSize s) (Z.of_nat (length (App.filtered s))).
Proof.
  intros Hsize. rewrite startSession_sessionQs.
  rewrite slice0_length by lia.
  rewrite shuffle_length, alength_ofList. lia.
Qed.

Lemma startSession_size_clamped_witness :
  Z.of_nat (alength (App.sessionQs
    (App.commit (App.initial sampleBank practice 2 42)
       (App.startSession (App.initial sampleBank practice 2 42) 0
          (fun _ => 0%Z)))))
  = 2%Z.
Proof.
  rewrite (startSession_size_clamped (App.initial sampleBank practice 2 42)
             0 (fun _ => 0%Z)); [| simpl; lia].
  vm_compute. reflexivity.
Defined.

(** C6 as stated fails for a negative size: [slice(0, -1)] drops the last
    question only, so a pool of three gives a session of two, not of
    [min(-1, 3)]. *)
Lemma startSession_negative_size_not_clamped :
  Z.of_nat (alength (App.sessionQs
    (App.commit (App.initial sampleBank practice (-1) 42)
       (App.startSession (App.initial sampleBank practice (-1) 42) 0
          (fun _ => 0%Z)))))
  = 2%Z
  ∧ Z.min (App.sessionSize (App.initial sampleBank practice (-1) 42))
      (Z.of_nat (length (App.filtered
                           (App.initial sampleBank practice (-1) 42))))
    = (-1)%Z
  ∧ Z.of_nat (alength (App.sessionQs
      (App.commit (App.initial sampleBank practice (-1) 42)
         (App.startSession (App.initial sampleBank practice (-1) 42) 0
            (fun _ => 0%Z)))))
    ≠ Z.min (App.sessionSize (App.initial sampleBank practice (-1) 42))
        (Z.of_nat (length (App.filtered
                             (App.initial sampleBank practice (-1) 42)))).
Proof.
  split; [vm_compute; reflexivity |].
  split; [vm_compute; reflexivity |].
  vm_compute. discriminate.
Qed.

(** ** Permuting the choices of a question *)

Lemma indexOfFrom_spec {A} `{EqDecision A} (l : list A) (x : A) :
  forall k : Z,
  x ∈ l ->
  exists n : nat,
    indexOfFrom l x k = (k + Z.of_nat n)%Z ∧ l !! n = Some x.
Proof.
  induction l as [| y l IH]; intros k Hin; [inversion Hin |].
  cbn [indexOfFrom]. destruct (decide (y = x)) as [-> | Hne].
  - rewrite bool_decide_eq_true_2 by reflexivity.
    exists 0. split; [lia | reflexivity].
  - rewrite bool_decide_eq_false_2 by exact Hne.
    apply elem_of_cons in Hin as [-> | Hin]; [contradiction |].
    destruct (IH (k + 1)%Z Hin) as (n & Hn & Hl).
    exists (S n). split; [lia | exact Hl].
Qed.

Lemma indexOf_spec {A} `{EqDecision A} (l : list A) (x : A) :
  x ∈ l ->
  exists n : nat, indexOf l x = Z.of_nat n ∧ l !! n = Some x.
Proof.
  intros Hin. destruct (indexOfFrom_spec l x 0%Z Hin) as (n & Hn & Hl).
  exists n. split; [unfold indexOf; lia | exact Hl].
Qed.

(** Whatever permutation of [[0,1,2,3]] is drawn, the remapped answer
    index leads to the choice the old one led to. *)
Lemma remapChoices_keeps_answer (idxs : jsarray Z) (q : Question) (n : Z) :
  items idxs ≡ₚ [Some 0; Some 1; Some 2; Some 3]%Z ->
  answerIndex q = Some (AnsNum n) ->
  (0 <= n < 4)%Z ->
  exists n' : Z,
    answerIndex (remapChoices idxs q) = Some (AnsNum n')
    ∧ (0 <= n' < 4)%Z
    ∧ aget (choices (remapChoices idxs q)) n' = aget (choices q) n.
Proof.
  intros Hp Hans Hn.
  assert (Hin : Some n ∈ items idxs).
  { rewrite Hp. assert (n = 0 ∨ n = 1 ∨ n = 2 ∨ n = 3)%Z as Hc by lia.
    clear Hn Hans. destruct Hc as [-> | [-> | [-> | ->]]]; set_solver. }
  destruct (indexOf_spec (items idxs) (Some n) Hin) as (k & Hk & Hl).
  pose proof (lookup_lt_Some _ _ _ Hl) as Hlt.
  rewrite (Permutation_length Hp) in Hlt. simpl in Hlt.
  exists (Z.of_nat k).
  split; [simpl; rewrite Hans; simpl; rewrite Hk; reflexivity |].
  split; [lia |].
  assert (Hget : aget idxs (Z.of_nat k) = Some n).
  { unfold aget. destruct (Z.ltb_spec (Z.of_nat k) 0); [lia |].
    rewrite Nat2Z.id, Hl. reflexivity. }
  assert (Hnew : aget (choices (remapChoices idxs q)) (Z.of_nat k)
                 = choiceAt (choices q) (aget idxs (Z.of_nat k))).
  { destruct k as [| [| [| [| k]]]]; [reflexivity .. | simpl in Hlt; lia]. }
  rewrite Hnew, Hget. reflexivity.
Qed.

Lemma aget_ofList {A} (l : list A) (n : Z) :
  (0 <= n < Z.of_nat (length l))%Z ->
  exists x, l !! Z.to_nat n = Some x ∧ aget (ofList l) n = Some x.
Proof.
  intros Hn.
  destruct (lookup_lt_is_Some_2 l (Z.to_nat n)) as [x Hx]; [lia |].
  exists x. split; [exact Hx |].
  unfold aget, ofList. simpl.
  destruct (Z.ltb_spec n 0); [lia |].
  rewrite list_lookup_fmap, Hx. reflexivity.
Qed.

(** C4.  For a question with four choices and a correct index among
    0..3, after [beginSession] has permuted the choices and remapped the
    index, the text at the new correct index is the text that was at the
    old one; this holds for the v2.1 build whatever the random source
    gives, and for the older [App.jsx] when its draws lie in [0,1). *)
Theorem permuteChoices_keeps_correct_text (q : Question)
    (cs : list jsstring) (n : Z) (e : Entropy) :
  choices q = ofList cs ->
  length cs = 4 ->
  answerIndex q = Some (AnsNum n) ->
  (0 <= n < 4)%Z ->
  (exists (n' : Z) (text : jsstring),
      answerIndex (permuteChoices q e) = Some (AnsNum n')
      ∧ aget (choices q) n = Some text
      ∧ aget (choices (permuteChoices q e)) n' = Some text)
  ∧ (validEntropy e ->
     exists (n' : Z) (text : jsstring),
      answerIndex (LegacySession.permuteChoices q e) = Some (AnsNum n')
      ∧ aget (choices q) n = Some text
      ∧ aget (choices (LegacySession.permuteChoices q e)) n' = Some text).
Proof.
  intros Hcs Hlen Hans Hn.
  destruct (aget_ofList cs n ltac:(lia)) as (text & _ & Htext).
  rewrite <- Hcs in Htext.
  split.
  - unfold permuteChoices, randomBelow, Math_random.
    destruct (remapChoices_keeps_answer
                (shuffle (ofList [0; 1; 2; 3]%Z)
                   (Some (fl53 (e O * 1000000000) / two53)%Z)
                   (fun k => e (S k))) q n)
      as (n' & Ha & _ & Hc); [apply shuffle_perm | exact Hans | exact Hn |].
    exists n', text. rewrite Hc. auto.
  - intros He.
    unfold LegacySession.permuteChoices, randomBelow, Math_random.
    destruct (remapChoices_keeps_answer
                (Legacy.shuffle (ofList [0; 1; 2; 3]%Z)
                   (Some (fl53 (e O * 2147483647) / two53)%Z)
                   (fun k => e (S k))) q n)
      as (n' & Ha & _ & Hc); [| exact Hans | exact Hn |].
    + apply legacy_shuffle_perm; [| exact (fun k => He (S k))].
      intros s [= <-].
      pose proof (randomIndex_range (e 0) 2147483647 (He 0) ltac:(lia)).
      unfold two53 in *. lia.
    + exists n', text. rewrite Hc. auto.
Qed.

Lemma permuteChoices_keeps_correct_text_witness :
  (exists (n' : Z) (text : jsstring),
      answerIndex (permuteChoices sampleQuestion (fun _ => 0%Z))
      = Some (AnsNum n')
      ∧ aget (choices sampleQuestion) 2 = Some text
      ∧ aget (choices (permuteChoices sampleQuestion (fun _ => 0%Z))) n'
        = Some text)
  ∧ (exists (n' : Z) (text : jsstring),
      answerIndex (LegacySession.permuteChoices sampleQuestion
                     (fun _ => 0%Z))
      = Some (AnsNum n')
      ∧ aget (choices sampleQuestion) 2 = Some text
      ∧ aget (choices (LegacySession.permuteChoices sampleQuestion
                         (fun _ => 0%Z))) n'
        = Some text).
Proof.
  destruct (permuteChoices_keeps_correct_text sampleQuestion
              [str "A"; str "B"; str "C"; str "D"] 2 (fun _ => 0%Z)
              eq_refl eq_refl eq_refl ltac:(lia)) as [H1 H2].
  split; [exact H1 | apply H2].
  intros k. unfold two53. lia.
Defined.

(** ** The tokenizer reads back what the serializer writes *)

Section RoundTrip.
Implicit Types (c cur text rest : jsstring) (row : list jsstring)
  (rows : list (list jsstring)).

Lemma chEq_true a b : chEq a b = true <-> a = b.
Proof. unfold chEq. apply bool_decide_eq_true. Qed.

Lemma chEq_false a b : chEq a b = false <-> a ≠ b.
Proof. unfold chEq. apply bool_decide_eq_false. Qed.

Lemma chEq_refl a : chEq a a = true.
Proof. apply chEq_true. reflexivity. Qed.

(** A character that is neither quote, comma nor line break is appended
    to the field, inside quotes or not. *)
Lemma scan_plain ch rest rows row cur inQ :
  chEq ch dquote = false ->
  (inQ = true ∨ (chEq ch comma = false ∧ chEq ch LF = false
                 ∧ chEq ch CR = false)) ->
  scan (ch :: rest) rows row cur inQ = scan rest rows row (cur ++ [ch]) inQ.
Proof.
  intros Hq H. cbn [scan]. rewrite Hq.
  destruct H as [-> | (-> & -> & ->)]; [reflexivity |].
  rewrite !andb_false_r. reflexivity.
Qed.

Lemma scan_bare c : forall rest rows row cur,
  needsQuote c = false ->
  CR ∉ c ->
  scan (c ++ rest) rows row cur false = scan rest rows row (cur ++ c) false.
Proof.
  induction c as [| ch c IH]; intros rest rows row cur Hnq Hcr.
  - simpl. rewrite app_nil_r. reflexivity.
  - simpl in Hnq. apply orb_false_iff in Hnq as [Hch Hnq].
    apply orb_false_iff in Hch as [Hch Hlf].
    apply orb_false_iff in Hch as [Hdq Hco].
    apply not_elem_of_cons in Hcr as [Hne Hcr].
    rewrite <- app_comm_cons, scan_plain.
    + rewrite IH by assumption. rewrite <- app_assoc. reflexivity.
    + exact Hdq.
    + right. repeat split; [exact Hco | exact Hlf |].
      apply chEq_false. congruence.
Qed.

Lemma scan_quote_toggle rest rows row cur inQ :
  (inQ = false ∨ noQuoteAhead rest) ->
  scan (dquote :: rest) rows row cur inQ = scan rest rows row cur (negb inQ).
Proof.
  intros H. cbn [scan]. rewrite chEq_refl.
  destruct rest as [| ch2 rest']; [reflexivity |].
  destruct H as [-> | Hne]; [reflexivity |].
  simpl in Hne. apply chEq_false in Hne. rewrite Hne, andb_false_r.
  reflexivity.
Qed.

Lemma scan_quoted c : forall rest rows row cur,
  noQuoteAhead rest ->
  scan (doubleQuotes c ++ dquote :: rest) rows row cur true
  = scan rest rows row (cur ++ c) false.
Proof.
  induction c as [| ch c IH]; intros rest rows row cur Hrest.
  - simpl doubleQuotes. rewrite app_nil_l, app_nil_r.
    apply scan_quote_toggle. right. exact Hrest.
  - cbn [doubleQuotes]. destruct (chEq ch dquote) eqn:Hch.
    + apply chEq_true in Hch. subst ch.
      rewrite <- !app_comm_cons. cbn [scan]. rewrite !chEq_refl. simpl.
      rewrite IH by exact Hrest. rewrite <- app_assoc. reflexivity.
    + rewrite <- app_comm_cons, scan_plain; [| exact Hch | left; reflexivity].
      rewrite IH by exact Hrest. rewrite <- app_assoc. reflexivity.
Qed.

Lemma scan_cell c rest rows row cur :
  protectedCell c ->
  noQuoteAhead rest ->
  scan (encodeCell c ++ rest) rows row cur false
  = scan rest rows row (cur ++ c) false.
Proof.
  intros Hc Hrest. unfold encodeCell.
  destruct (needsQuote c) eqn:Hnq.
  - rewrite <- app_comm_cons, <- app_assoc. simpl app.
    rewrite scan_quote_toggle by (left; reflexivity).
    apply scan_quoted, Hrest.
  - apply scan_bare; [exact Hnq |].
    intros Hcr. specialize (Hc Hcr). congruence.
Qed.

Lemma encodeRow_cons c c2 cs :
  encodeRow (c :: c2 :: cs) = encodeCell c ++ comma :: encodeRow (c2 :: cs).
Proof. reflexivity. Qed.

(** After the text of a row the tokenizer holds all its cells but the
    last in [row] and the last one in [cur]. *)
Lemma scan_row init : forall lastc rest rows row,
  Forall protectedCell (init ++ [lastc]) ->
  noQuoteAhead rest ->
  scan (encodeRow (init ++ [lastc]) ++ rest) rows row [] false
  = scan rest rows (row ++ init) lastc false.
Proof.
  induction init as [| c init IH]; intros lastc rest rows row Hall Hrest.
  - simpl app. unfold encodeRow. simpl. rewrite app_nil_r.
    apply Forall_inv in Hall.
    rewrite scan_cell by assumption. reflexivity.
  - apply Forall_cons in Hall as [Hc Hall].
    assert (Hnext : exists c2 cs, init ++ [lastc] = c2 :: cs).
    { destruct init as [| c2 init]; simpl; eauto. }
    destruct Hnext as (c2 & cs & Heq).
    rewrite <- app_comm_cons, Heq, encodeRow_cons, <- Heq.
    rewrite <- app_assoc, scan_cell; [| exact Hc | simpl; discriminate].
    rewrite <- app_comm_cons. cbn [scan].
    replace (chEq comma dquote) with false by reflexivity.
    rewrite chEq_refl. simpl.
    rewrite IH by assumption.
    rewrite <- app_assoc. reflexivity.
Qed.

Lemma pushRow_kept rows row : keptRow row -> pushRow rows row = rows ++ [row].
Proof.
  intros (c & Hin & Hne). unfold pushRow.
  assert (Hlen : (length row =? 0)%nat = false).
  { destruct row; [inversion Hin | reflexivity]. }
  assert (Hex : existsb (fun c => negb (isEmpty c)) row = true).
  { apply existsb_exists. exists c. split; [apply list_elem_of_In, Hin |].
    destruct c; [contradiction | reflexivity]. }
  rewrite Hlen, Hex. reflexivity.
Qed.

Lemma keptRow_snoc row :
  keptRow row -> exists init lastc, row = init ++ [lastc].
Proof.
  intros (c & Hin & _).
  destruct row as [| x row] using rev_ind; [inversion Hin | eauto].
Qed.

(** The end of the text closes the row in progress. *)
Lemma scan_end rows init lastc :
  keptRow (init ++ [lastc]) ->
  scan [] rows init lastc false = rows ++ [init ++ [lastc]].
Proof.
  intros Hk. cbn [scan].
  assert (Hgo : negb (length lastc =? 0)%nat || negb (length init =? 0)%nat
                = true).
  { destruct init as [| c init]; [| apply orb_true_r].
    destruct Hk as (c & Hin & Hne). simpl in Hin.
    apply list_elem_of_singleton in Hin. subst c.
    destruct lastc; [contradiction | reflexivity]. }
  rewrite Hgo. apply pushRow_kept, Hk.
Qed.

(** A line feed closes the row in progress and starts an empty one. *)
Lemma scan_newline rest rows init lastc :
  keptRow (init ++ [lastc]) ->
  scan (LF :: rest) rows init lastc false
  = scan rest (rows ++ [init ++ [lastc]]) [] [] false.
Proof.
  intros Hk. cbn [scan].
  replace (chEq LF dquote) with false by reflexivity.
  replace (chEq LF comma) with false by reflexivity.
  rewrite chEq_refl. simpl.
  rewrite (pushRow_kept _ _ Hk).
  replace (chEq LF CR) with false by reflexivity. simpl.
  destruct rest; reflexivity.
Qed.

Lemma toCSV_cons r r2 rs :
  toCSV (r :: r2 :: rs) = encodeRow r ++ LF :: toCSV (r2 :: rs).
Proof. reflexivity. Qed.

Lemma scan_table rs : forall acc,
  roundTripTable rs ->
  scan (toCSV rs) acc [] [] false = acc ++ rs.
Proof.
  induction rs as [| r rs IH]; intros acc Hall.
  - simpl. rewrite app_nil_r. reflexivity.
  - apply Forall_cons in Hall as [[Hk Hcells] Hall].
    destruct (keptRow_snoc r Hk) as (init & lastc & ->).
    destruct rs as [| r2 rs].
    + unfold toCSV. simpl join.
      rewrite <- (app_nil_r (encodeRow (init ++ [lastc]))).
      rewrite scan_row; [| exact Hcells | exact I].
      simpl app. apply scan_end, Hk.
    + rewrite toCSV_cons, scan_row; [| exact Hcells | simpl; discriminate].
      simpl app. rewrite scan_newline by exact Hk.
      rewrite IH by exact Hall. rewrite <- app_assoc. reflexivity.
Qed.

End RoundTrip.

(** C2, as amended.  For every sequence of rows in which each row has a
    cell that is not empty and each cell that holds a carriage return
    also holds a double quote, a comma or a line feed, tokenizing the
    text [toCSV] writes gives back exactly the rows. *)
Theorem parseCSVStream_toCSV (rows : list (list jsstring)) :
  roundTripTable rows ->
  parseCSVStream (toCSV rows) = rows.
Proof.
  intros Hrows. unfold parseCSVStream.
  rewrite scan_table by exact Hrows. reflexivity.
Qed.

Lemma roundTripTableb_sound rows :
  roundTripTableb rows = true -> roundTripTable rows.
Proof.
  unfold roundTripTableb, roundTripTable. intros H.
  apply Forall_forall. intros r Hr.
  rewrite forallb_forall in H.
  specialize (H r (proj1 (list_elem_of_In _ _) Hr)).
  apply andb_true_iff in H as [Hk Hc]. split.
  - apply existsb_exists in Hk as (c & Hin & Hne).
    exists c. split; [apply list_elem_of_In, Hin |].
    destruct c; [discriminate | discriminate].
  - apply Forall_forall. intros c Hin Hcr.
    rewrite forallb_forall in Hc.
    specialize (Hc c (proj1 (list_elem_of_In _ _) Hin)).
    apply orb_true_iff in Hc as [Hq | Hno]; [exact Hq |].
    apply negb_true_iff in Hno.
    assert (Hyes : existsb (chEq CR) c = true); [| congruence].
    apply existsb_exists. exists CR.
    split; [apply list_elem_of_In, Hcr | apply chEq_refl].
Qed.

Lemma parseCSVStream_toCSV_witness :
  parseCSVStream
    (toCSV [[str "id"; str "note"; []];
            [str "Q1"; quotedField; str "two" ++ [LF] ++ str "lines"]])
  = [[str "id"; str "note"; []];
     [str "Q1"; quotedField; str "two" ++ [LF] ++ str "lines"]].
Proof.
  apply parseCSVStream_toCSV. apply roundTripTableb_sound.
  vm_compute. reflexivity.
Defined.

(** C2 as stated fails on two kinds of input: a row whose cells are all
    empty is written as an empty line, which the tokenizer drops, and a
    cell with a carriage return but no quote, comma or line feed is
    written bare, where the tokenizer ends the row at the carriage
    return. *)
Lemma parseCSVStream_toCSV_fails :
  parseCSVStream (toCSV [[str "a"]; [[]]; [str "b"]])
  = [[str "a"]; [str "b"]]
  ∧ parseCSVStream (toCSV [[str "a" ++ [CR] ++ str "b"]])
    = [[str "a"]; [str "b"]]
  ∧ ¬ (forall rows, parseCSVStream (toCSV rows) = rows).
Proof.
  split; [vm_compute; reflexivity |].
  split; [vm_compute; reflexivity |].
  intros H. specialize (H [[[]]]). vm_compute in H. discriminate H.
Qed.

(** ** The header check of [parseCSV] *)

Lemma indexOfFrom_absent {A} `{EqDecision A} (l : list A) (x : A) :
  forall k : Z, x ∉ l -> indexOfFrom l x k = (-1)%Z.
Proof.
  induction l as [| y l IH]; intros k Hx; [reflexivity |].
  apply not_elem_of_cons in Hx as [Hne Hx].
  cbn [indexOfFrom]. rewrite bool_decide_eq_false_2 by congruence.
  apply IH, Hx.
Qed.

Lemma required_detects_absent (H : list jsstring) (name : jsstring) :
  name ∈ requiredNames ->
  name ∉ H ->
  existsb (fun i => (i <? 0)%Z) (required (columns H)) = true.
Proof.
  intros Hreq Habs.
  assert (Hix : indexOf H name = (-1)%Z)
    by (apply indexOfFrom_absent, Habs).
  apply existsb_exists. exists (-1)%Z. split; [| reflexivity].
  unfold required, columns. cbn [di qq ai bi ci dd co].
  unfold requiredNames in Hreq.
  repeat (apply elem_of_cons in Hreq as [-> | Hreq];
          [rewrite Hix; simpl; tauto |]).
  inversion Hreq.
Qed.

(** C5.  Whatever the text, if one of the required column names is not
    among the trimmed, lower-cased cells of its header row, [parseCSV]
    returns the empty list; [parseCSV] is a total function of the text,
    it has no path that throws. *)
Theorem parseCSV_missing_required_column (text name : jsstring) :
  name ∈ requiredNames ->
  name ∉ headerOf text ->
  parseCSV text = [].
Proof.
  intros Hreq Habs. unfold parseCSV, headerOf in *.
  destruct (parseCSVStream text) as [| hrow body]; [reflexivity |].
  rewrite (required_detects_absent _ name Hreq Habs). reflexivity.
Qed.

Lemma parseCSV_missing_required_column_witness :
  parseCSV sampleCsvNoCorrect = [].
Proof.
  apply (parseCSV_missing_required_column sampleCsvNoCorrect (str "correct")).
  - unfold requiredNames. do 6 right. left.
  - vm_compute. intros Hin.
    repeat (apply elem_of_cons in Hin as [Heq | Hin]; [discriminate Heq |]).
    inversion Hin.
Defined.

(** ** [parseCSV] row by row *)

Lemma reduceFrom_reducer (c : Columns) (body : list (list jsstring)) :
  forall (r0 : nat) (acc : list Question),
  reduceFrom (reducer c) body r0 acc = acc ++ convertFrom c body r0.
Proof.
  induction body as [| row body IH]; intros r0 acc.
  - simpl. rewrite app_nil_r. reflexivity.
  - cbn [reduceFrom convertFrom]. rewrite IH. unfold reducer.
    destruct (convertRow c row r0) as [q |]; [| reflexivity].
    rewrite <- app_assoc. reflexivity.
Qed.

Lemma required_all_present (H : list jsstring) :
  (forall name, name ∈ requiredNames -> name ∈ H) ->
  existsb (fun i => (i <? 0)%Z) (required (columns H)) = false.
Proof.
  intros Hall.
  assert (Hge : forall name, name ∈ requiredNames ->
                  (indexOf H name <? 0)%Z = false).
  { intros name Hn. destruct (indexOf_spec H name (Hall name Hn)) as (n & -> & _).
    apply Z.ltb_ge. lia. }
  unfold required, columns. cbn [di qq ai bi ci dd co existsb].
  unfold requiredNames in Hge.
  rewrite !Hge by set_solver. reflexivity.
Qed.

(** The result of [parseCSV] is either empty because a required column
    is missing (as it is when there is no row at all), or the records of
    the data rows in row order. *)
Lemma parseCSV_unfold (text : jsstring) :
  (parseCSV text = []
   ∧ ¬ (forall name, name ∈ requiredNames -> name ∈ headerOf text))
  ∨ parseCSV text = convertFrom (columns (headerOf text)) (dataRows text) 0.
Proof.
  unfold parseCSV, headerOf, dataRows.
  destruct (parseCSVStream text) as [| hrow body].
  - left. split; [reflexivity |]. intros Hall.
    specialize (Hall (str "domain") ltac:(left)). inversion Hall.
  - destruct (existsb _ _) eqn:Hreq.
    + left. split; [reflexivity |]. intros Hall.
      rewrite (required_all_present _ Hall) in Hreq. discriminate.
    + right. rewrite reduceFrom_reducer. reflexivity.
Qed.

Lemma parseCSV_header_ok (text : jsstring) :
  (forall name, name ∈ requiredNames -> name ∈ headerOf text) ->
  parseCSV text = convertFrom (columns (headerOf text)) (dataRows text) 0.
Proof.
  intros Hall. unfold parseCSV, headerOf, dataRows in *.
  destruct (parseCSVStream text) as [| hrow body]; [reflexivity |].
  rewrite (required_all_present _ Hall), reduceFrom_reducer. reflexivity.
Qed.

(** Every record of [convertFrom] has a source row, the sources increase
    strictly along the output, and no accepted row is left out. *)
Lemma convertFrom_sources (c : Columns) (body : list (list jsstring)) :
  forall r0 : nat,
  exists src : list nat,
    StronglySorted lt src
    ∧ Forall (fun r => r0 <= r) src
    ∧ Forall2 (fun q r => exists row,
                 body !! (r - r0) = Some row ∧ convertRow c row r = Some q)
        (convertFrom c body r0) src
    ∧ (forall k row q, body !! k = Some row ->
         convertRow c row (r0 + k) = Some q -> (r0 + k) ∈ src).
Proof.
  induction body as [| row body IH]; intros r0.
  - exists []. repeat split; try constructor. intros k row q Hk. inversion Hk.
  - destruct (IH (S r0)) as (src & Hsorted & Hlow & Hall & Hcomplete).
    assert (Hshift : Forall2 (fun q r => exists row',
                        (row :: body) !! (r - r0) = Some row'
                        ∧ convertRow c row' r = Some q)
                       (convertFrom c body (S r0)) src).
    { clear -Hall Hlow. induction Hall as [| q r qs rs (row' & Hr & Hq) Hrest IHf];
        [constructor |].
      apply Forall_cons in Hlow as [Hge Hlow].
      constructor; [| apply IHf, Hlow].
      exists row'. split; [| exact Hq].
      replace (r - r0) with (S (r - S r0)) by lia. exact Hr. }
    cbn [convertFrom]. destruct (convertRow c row r0) as [q |] eqn:Hrow.
    + exists (r0 :: src). split; [| split; [| split]].
      * constructor; [exact Hsorted |].
        eapply Forall_impl; [exact Hlow | intros r Hr; simpl in Hr; lia].
      * constructor; [lia |].
        eapply Forall_impl; [exact Hlow | intros r Hr; simpl in Hr; lia].
      * constructor; [| exact Hshift].
        exists row. rewrite Nat.sub_diag. split; [reflexivity | exact Hrow].
      * intros [| k] row' q' Hk Hq'.
        -- rewrite Nat.add_0_r. left.
        -- right. replace (r0 + S k) with (S r0 + k) in * by lia.
           eapply Hcomplete; [exact Hk | exact Hq'].
    + exists src. split; [exact Hsorted |]. split; [| split].
      * eapply Forall_impl; [exact Hlow | intros r Hr; simpl in Hr; lia].
      * exact Hshift.
      * intros [| k] row' q' Hk Hq'.
        -- simpl in Hk. injection Hk as <-. rewrite Nat.add_0_r in Hq'.
           congruence.
        -- replace (r0 + S k) with (S r0 + k) in * by lia.
           eapply Hcomplete; [exact Hk | exact Hq'].
Qed.

(** ** The explanation and reference of a record *)

Lemma convertFrom_elem (c : Columns) (body : list (list jsstring)) :
  forall (r0 : nat) (q : Question),
  q ∈ convertFrom c body r0 ->
  exists r row, body !! r = Some row ∧ convertRow c row (r0 + r) = Some q.
Proof.
  induction body as [| row body IH]; intros r0 q Hin; [inversion Hin |].
  cbn [convertFrom] in Hin.
  assert (Hrest : q ∈ convertFrom c body (S r0) ->
            exists r row', (row :: body) !! r = Some row'
                           ∧ convertRow c row' (r0 + r) = Some q).
  { intros Hq. destruct (IH (S r0) q Hq) as (r & row' & Hr & Hc).
    exists (S r), row'. split; [exact Hr |].
    replace (r0 + S r) with (S r0 + r) by lia. exact Hc. }
  destruct (convertRow c row r0) as [q0 |] eqn:Hrow; [| auto].
  apply elem_of_cons in Hin as [-> | Hin]; [| auto].
  exists 0, row. rewrite Nat.add_0_r. auto.
Qed.






(** ** Practice-mode scoring *)

(** What a correct choice records in practice mode: [recordResult] reads
    the attempt history of the snapshot, which does not yet hold the
    choice being handled, so [tries] is the number of earlier attempts
    (at least 1) and [firstTryCorrect] is set when there was at most one
    earlier attempt. *)
Lemma onChoice_hit_records (s s' : App.State) (now c : Z) (q : Question) :
  App.mode s = practice ->
  App.current s = Some q ->
  App.correctIndex q = Some (AnsNum c) ->
  App.step s now (App.Choice c) = Some s' ->
  exists r,
    App.results s' !! id q = Some r
    ∧ Result.tries r = Z.max 1 (Z.of_nat (length (App.chosenHistory s)))
    ∧ Result.firstTryCorrect r
      = (Z.of_nat (length (App.chosenHistory s)) <=? 1)%Z
    ∧ Result.chosenHistory r = App.chosenHistory s
    ∧ App.chosenHistory s' = App.chosenHistory s ++ [c].
Proof.
  intros Hmode Hcur Hcorrect Hstep.
  unfold App.step, App.onChoice in Hstep.
  rewrite Hcur, Hmode, Hcorrect in Hstep.
  rewrite bool_decide_eq_true_2 in Hstep by reflexivity.
  cbn [fmap option_fmap option_map App.queue] in Hstep.
  injection Hstep as <-.
  unfold App.recordResult. rewrite Hcur.
  cbn [app App.commit fold_left App.setChosenHistory App.setResults
       App.setFirstTryCorrect App.results App.chosenHistory].
  eexists. split; [apply lookup_insert_eq |].
  cbn [Result.tries Result.firstTryCorrect Result.chosenHistory].
  set (n := Z.of_nat (length (App.chosenHistory s))).
  assert (0 <= n)%Z by (subst n; lia).
  repeat split.
  - destruct (Z.eqb_spec n 0); lia.
  - destruct (Z.eqb_spec n 0) as [-> | Hne]; [reflexivity |].
    simpl. destruct (Z.eqb_spec (Z.max 1 n) 1), (Z.leb_spec n 1);
      try reflexivity; lia.
Qed.

(** C1, evaluated.  With correct index 2, the choice 0 followed by the
    choice 2 is recorded with [tries = 1] and [firstTryCorrect = true]
    (while the state variable [firstTryCorrect] of the component is
    [false]); the choice 2 alone is recorded with [tries = 1] and
    [firstTryCorrect = true]. *)
Lemma practice_miss_then_hit_recorded_as_first_try :
  ((fun s => (App.results s !! str "Q1", App.firstTryCorrect s))
     <$> App.run sampleSession [(1500%Z, App.Choice 0);
                                (2500%Z, App.Choice 2)])
  = Some (Some (Result.mk (str "Q1") true 1 1500 [0%Z]), Some false)
  ∧ ((fun s => (App.results s !! str "Q1", App.firstTryCorrect s))
       <$> App.run sampleSession [(2500%Z, App.Choice 2)])
    = Some (Some (Result.mk (str "Q1") true 1 1500 []), Some true).
Proof. split; vm_compute; reflexivity. Qed.

(** ** The exported summary *)

Lemma splitLines_no_LF (t : jsstring) : forall cur,
  LF ∉ t -> splitLines t cur = [cur ++ t].
Proof.
  induction t as [| ch t IH]; intros cur Hno.
  - simpl. rewrite app_nil_r. reflexivity.
  - apply not_elem_of_cons in Hno as [Hne Hno].
    cbn [splitLines].
    replace (chEq ch LF) with false
      by (symmetry; apply chEq_false; congruence).
    rewrite IH by exact Hno. rewrite <- app_assoc. reflexivity.
Qed.

Lemma splitLines_at_LF (a b : jsstring) : forall cur,
  LF ∉ a -> splitLines (a ++ LF :: b) cur = (cur ++ a) :: splitLines b [].
Proof.
  induction a as [| ch a IH]; intros cur Hno.
  - cbn [app splitLines]. rewrite chEq_refl, app_nil_r. reflexivity.
  - apply not_elem_of_cons in Hno as [Hne Hno].
    rewrite <- app_comm_cons. cbn [splitLines].
    replace (chEq ch LF) with false
      by (symmetry; apply chEq_false; congruence).
    rewrite IH by exact Hno. rewrite <- app_assoc. reflexivity.
Qed.

Lemma doubleQuotes_no_LF (c : jsstring) : LF ∉ c -> LF ∉ doubleQuotes c.
Proof.
  induction c as [| ch c IH]; intros Hno; [exact Hno |].
  apply not_elem_of_cons in Hno as [Hne Hno].
  cbn [doubleQuotes]. destruct (chEq ch dquote) eqn:Hch.
  - apply chEq_true in Hch. subst ch.
    repeat (apply not_elem_of_cons; split; [discriminate |]).
    apply IH, Hno.
  - apply not_elem_of_cons. split; [exact Hne | apply IH, Hno].
Qed.

Lemma encodeCell_no_LF (c : jsstring) : LF ∉ c -> LF ∉ encodeCell c.
Proof.
  intros Hno. unfold encodeCell. destruct (needsQuote c); [| exact Hno].
  apply not_elem_of_cons. split; [discriminate |].
  apply not_elem_of_app. split; [apply doubleQuotes_no_LF, Hno |].
  apply not_elem_of_cons. split; [discriminate | apply not_elem_of_nil].
Qed.

Lemma encodeRow_no_LF (row : list jsstring) :
  Forall (fun c => LF ∉ c) row -> LF ∉ encodeRow row.
Proof.
  unfold encodeRow. induction row as [| c row IH]; intros Hall;
    [apply not_elem_of_nil |].
  apply Forall_cons in Hall as [Hc Hall].
  destruct row as [| c2 row]; [simpl; apply encodeCell_no_LF, Hc |].
  change (join [comma] (map encodeCell (c :: c2 :: row)))
    with (encodeCell c ++ comma :: join [comma] (map encodeCell (c2 :: row))).
  apply not_elem_of_app. split; [apply encodeCell_no_LF, Hc |].
  apply not_elem_of_cons. split; [discriminate | apply IH, Hall].
Qed.

Lemma summaryHeader_plain :
  Forall (fun c : jsstring => (LF ∉ c) ∧ (CR ∉ c)) App.summaryHeader.
Proof.
  unfold App.summaryHeader.
  repeat (apply Forall_cons; split;
          [split; intros Hin; vm_compute in Hin;
           repeat (apply elem_of_cons in Hin as [Heq | Hin];
                   [discriminate Heq |]);
           inversion Hin |]).
  apply Forall_nil_2.
Qed.

(** C7, as amended.  For a session of exactly one question that has a
    recorded result and a choice at its correct index, [exportSummary]
    builds exactly two rows, the header and one data row of nine cells;
    the cell of the data row under [correct] is the text of the correct
    choice; and when no cell of the data row holds a line feed or a
    carriage return, the exported text has exactly two lines and
    tokenizes back to the two rows. *)
Theorem exportSummary_one_question (s : App.State) (q : Question)
    (res : Result.t) (n : Z) (ctext : jsstring) :
  items (App.sessionQs s) = [Some q] ->
  App.results s !! id q = Some res ->
  App.correctIndex q = Some (AnsNum n) ->
  aget (choices q) n = Some ctext ->
  exists row : list jsstring,
    App.summaryRows s = Some [App.summaryHeader; row]
    ∧ length row = 9
    ∧ App.summaryHeader !! 7 = Some (str "correct")
    ∧ row !! 7 = Some ctext
    ∧ (Forall (fun c => (LF ∉ c) ∧ (CR ∉ c)) row ->
       exists csv : jsstring,
         App.exportSummary s = Some csv
         ∧ lines csv = [encodeRow App.summaryHeader; encodeRow row]
         ∧ parseCSVStream csv = [App.summaryHeader; row]).
Proof.
  intros Hqs Hres Hidx Htext.
  assert (Hrows : exists row,
            App.summaryRows s = Some [App.summaryHeader; row]
            ∧ length row = 9 ∧ row !! 7 = Some ctext
            ∧ row !! 2 = Some (App.boolString (Result.firstTryCorrect res))).
  { unfold App.summaryRows. rewrite Hqs. cbn [mapM App.summaryRow].
    rewrite Hres, Hidx, Htext. cbn. eexists. repeat split. }
  destruct Hrows as (row & Hrows & Hlen & Hcorrect & Hbool).
  exists row. split; [exact Hrows |]. split; [exact Hlen |].
  split; [reflexivity |]. split; [exact Hcorrect |].
  intros Hplain.
  exists (toCSV [App.summaryHeader; row]).
  split; [unfold App.exportSummary; rewrite Hrows; reflexivity |].
  split.
  - rewrite toCSV_cons. unfold lines.
    rewrite splitLines_at_LF.
    + unfold toCSV. simpl join. rewrite splitLines_no_LF; [reflexivity |].
      apply encodeRow_no_LF. eapply Forall_impl; [exact Hplain |].
      intros c [Hc _]. exact Hc.
    + apply encodeRow_no_LF. eapply Forall_impl; [exact summaryHeader_plain |].
      intros c [Hc _]. exact Hc.
  - unfold parseCSVStream. rewrite scan_table; [reflexivity |].
    assert (Hprot : forall r : list jsstring,
              Forall (fun c => (LF ∉ c) ∧ (CR ∉ c)) r -> Forall protectedCell r).
    { intros r Hr. eapply Forall_impl; [exact Hr |].
      intros c [_ Hcr] Hin. contradiction. }
    apply Forall_cons. split; [split |].
    + exists (str "id"). split; [left | discriminate].
    + apply Hprot, summaryHeader_plain.
    + apply Forall_cons. split; [split | apply Forall_nil_2].
      * exists (App.boolString (Result.firstTryCorrect res)).
        split; [eapply list_elem_of_lookup_2; exact Hbool |].
        destruct (Result.firstTryCorrect res); discriminate.
      * apply Hprot, Hplain.
Qed.

Lemma exportSummary_one_question_witness :
  App.finished sampleFinished = true
  ∧ exists row csv : jsstring,
      App.summaryRows sampleFinished
      = Some [App.summaryHeader;
              [str "Q1"; str "People"; str "true"; str "1"; str "500"; [];
               str "What?"; row; []]]
      ∧ row = str "C"
      ∧ App.exportSummary sampleFinished = Some csv
      ∧ length (lines csv) = 2.
Proof.
  split; [vm_compute; reflexivity |].
  destruct (exportSummary_one_question sampleFinished sampleQuestion
              (Result.mk (str "Q1") true 1 500 []) 2 (str "C"))
    as (row & Hrows & _ & _ & _ & Htext);
    [vm_compute; reflexivity .. |].
  assert (Hrow : row = [str "Q1"; str "People"; str "true"; str "1";
                        str "500"; []; str "What?"; str "C"; []]).
  { assert (Hc : App.summaryRows sampleFinished
                 = Some [App.summaryHeader;
                         [str "Q1"; str "People"; str "true"; str "1";
                          str "500"; []; str "What?"; str "C"; []]])
      by (vm_compute; reflexivity).
    rewrite Hc in Hrows. injection Hrows as <-. reflexivity. }
  subst row.
  destruct Htext as (csv & Hcsv & Hlines & _).
  - repeat (apply Forall_cons; split;
            [split; intros Hin; vm_compute in Hin;
             repeat (apply elem_of_cons in Hin as [Heq | Hin];
                     [discriminate Heq |]);
             inversion Hin |]).
    apply Forall_nil_2.
  - exists (str "C"), csv. split; [exact Hrows |]. split; [reflexivity |].
    split; [exact Hcsv |]. rewrite Hlines. reflexivity.
Defined.

(** C7 as stated fails when an exported cell holds a line break.  The
    question of the [newlineInField] sample has a line feed in its text:
    the export of its finished one-question session has three lines.
    With a carriage return instead, the cell is written bare and the
    text tokenizes back to three rows. *)
Lemma exportSummary_line_break_in_cell :
  App.finished sampleFinishedNewline = true
  ∧ alength (App.sessionQs sampleFinishedNewline) = 1
  ∧ is_Some (App.results sampleFinishedNewline !! str "Q4")
  ∧ (fun csv => length (lines csv)) <$> App.exportSummary sampleFinishedNewline
    = Some 3
  ∧ App.finished sampleFinishedReturn = true
  ∧ alength (App.sessionQs sampleFinishedReturn) = 1
  ∧ is_Some (App.results sampleFinishedReturn !! str "Q4")
  ∧ (fun csv => length (parseCSVStream csv))
      <$> App.exportSummary sampleFinishedReturn
    = Some 3.
Proof.
  repeat split; try (vm_compute; reflexivity); vm_compute; eauto.
Qed.

(** ** The tokenizer keeps the rows in the order of the text *)

Section TokenizerOrder.
Implicit Types (t text rest : jsstring) (row : list jsstring)
  (rows acc : list (list jsstring)).

(** Induction for a reader that looks one character ahead. *)
Lemma lookahead_ind (P : jsstring -> Prop) :
  P [] ->
  (forall ch, P [ch]) ->
  (forall ch ch2 rest, P rest -> P (ch2 :: rest) -> P (ch :: ch2 :: rest)) ->
  forall t, P t.
Proof.
  intros Hnil Hone Hstep t.
  assert (H : P t ∧ forall ch, P (ch :: t)); [| exact (proj1 H)].
  induction t as [| ch2 t [IH1 IH2]]; [split; [exact Hnil | exact Hone] |].
  split; [apply IH2 |]. intros ch. apply Hstep; [exact IH1 | apply IH2].
Qed.

Lemma pushRow_acc acc rows row :
  pushRow (acc ++ rows) row = acc ++ pushRow rows row.
Proof.
  unfold pushRow. destruct (_ && _); [| reflexivity].
  rewrite <- app_assoc. reflexivity.
Qed.

(** Rows already pushed are never touched again. *)
Lemma scan_acc t : forall acc rows row cur inQ,
  scan t (acc ++ rows) row cur inQ = acc ++ scan t rows row cur inQ.
Proof.
  induction t as [| ch | ch ch2 rest IH1 IH2] using lookahead_ind;
    intros acc rows row cur inQ.
  - cbn [scan]. destruct (_ || _); [apply pushRow_acc | reflexivity].
  - cbn [scan].
    destruct (chEq ch dquote); [destruct (_ || _);
                                [apply pushRow_acc | reflexivity] |].
    destruct (negb inQ && chEq ch comma);
      [destruct (_ || _); [apply pushRow_acc | reflexivity] |].
    destruct (negb inQ && (chEq ch LF || chEq ch CR)).
    + rewrite pushRow_acc. cbn [scan length Nat.eqb negb orb]. reflexivity.
    + destruct (_ || _); [apply pushRow_acc | reflexivity].
  - cbn [scan] in *.
    destruct (chEq ch dquote).
    { destruct (inQ && chEq ch2 dquote); [apply IH1 | apply IH2]. }
    destruct (negb inQ && chEq ch comma); [apply IH2 |].
    destruct (negb inQ && (chEq ch LF || chEq ch CR)); [| apply IH2].
    rewrite pushRow_acc.
    destruct (chEq ch CR && chEq ch2 LF); [apply IH1 | apply IH2].
Qed.

Lemma scan_nil rows row cur inQ :
  scan [] rows row cur inQ = pushRow rows (row ++ [cur]).
Proof.
  cbn [scan]. destruct cur as [| ch cur]; [| reflexivity].
  destruct row as [| c row]; [reflexivity | reflexivity].
Qed.

Lemma scan_LF rest rows row cur :
  scan (LF :: rest) rows row cur false
  = scan rest (pushRow rows (row ++ [cur])) [] [] false.
Proof.
  cbn [scan].
  replace (chEq LF dquote) with false by reflexivity.
  replace (chEq LF comma) with false by reflexivity.
  rewrite chEq_refl.
  replace (chEq LF CR) with false by reflexivity.
  cbn [negb andb orb]. destruct rest; reflexivity.
Qed.

(** One turn of the loop. *)
Lemma scan_cons ch rest rows row cur inQ :
  scan (ch :: rest) rows row cur inQ
  = if chEq ch dquote then
      match rest with
      | ch2 :: rest' =>
          if inQ && chEq ch2 dquote
          then scan rest' rows row (cur ++ [dquote]) inQ
          else scan rest rows row cur (negb inQ)
      | [] => scan rest rows row cur (negb inQ)
      end
    else if negb inQ && chEq ch comma then
      scan rest rows (row ++ [cur]) [] inQ
    else if negb inQ && (chEq ch LF || chEq ch CR) then
      match rest with
      | ch2 :: rest' =>
          if chEq ch CR && chEq ch2 LF
          then scan rest' (pushRow rows (row ++ [cur])) [] [] inQ
          else scan rest (pushRow rows (row ++ [cur])) [] [] inQ
      | [] => scan rest (pushRow rows (row ++ [cur])) [] [] inQ
      end
    else scan rest rows row (cur ++ [ch]) inQ.
Proof. reflexivity. Qed.

(** Reading a text up to a line feed that stands outside quotes leaves
    the rows that reading the text alone gives, and an empty row in
    progress. *)
Lemma scan_split t1 : forall t2 rows row cur inQ,
  insideAfter t1 inQ = false ->
  scan (t1 ++ LF :: t2) rows row cur inQ
  = scan t2 (scan t1 rows row cur inQ) [] [] false.
Proof.
  induction t1 as [| ch | ch ch2 rest IH1 IH2] using lookahead_ind;
    intros t2 rows row cur inQ Hin.
  - simpl in Hin. subst inQ. rewrite app_nil_l, scan_LF, scan_nil.
    reflexivity.
  - cbn [insideAfter] in Hin.
    change ([ch] ++ LF :: t2) with (ch :: LF :: t2).
    rewrite (scan_cons ch (LF :: t2)), (scan_cons ch []).
    destruct (chEq ch dquote) eqn:Hq.
    { destruct inQ; [| discriminate Hin].
      replace (chEq LF dquote) with false by reflexivity.
      cbn [andb negb]. rewrite scan_LF, scan_nil. reflexivity. }
    subst inQ. cbn [negb andb].
    destruct (chEq ch comma) eqn:Hc.
    { rewrite scan_LF, !scan_nil. reflexivity. }
    destruct (chEq ch LF || chEq ch CR) eqn:Hnl.
    + rewrite chEq_refl, andb_true_r, scan_nil.
      change (pushRow (pushRow rows (row ++ [cur])) ([] ++ [[]]))
        with (pushRow rows (row ++ [cur])).
      destruct (chEq ch CR); [reflexivity |].
      rewrite scan_LF. reflexivity.
    + rewrite scan_LF, scan_nil. reflexivity.
  - cbn [insideAfter] in Hin.
    change ((ch :: ch2 :: rest) ++ LF :: t2)
      with (ch :: ch2 :: (rest ++ LF :: t2)).
    rewrite (scan_cons ch (ch2 :: rest ++ LF :: t2)),
      (scan_cons ch (ch2 :: rest)).
    destruct (chEq ch dquote) eqn:Hq.
    { destruct (inQ && chEq ch2 dquote) eqn:Hesc.
      - apply andb_true_iff in Hesc as [-> Hq2]. rewrite Hq2 in Hin.
        apply IH1. exact Hin.
      - apply (IH2 t2 rows row cur (negb inQ)). exact Hin. }
    destruct (negb inQ && chEq ch comma);
      [apply (IH2 t2 _ _ _ inQ); exact Hin |].
    destruct (negb inQ && (chEq ch LF || chEq ch CR)) eqn:Hnl;
      [| apply (IH2 t2 _ _ _ inQ); exact Hin].
    destruct (chEq ch CR && chEq ch2 LF) eqn:Hcrlf.
    + apply andb_true_iff in Hcrlf as [_ Hlf]. apply chEq_true in Hlf.
      subst ch2. apply IH1. exact Hin.
    + apply (IH2 t2 _ _ _ inQ). exact Hin.
Qed.

(** The rows of the text before a line feed outside quotes come first,
    the rows of the text after it follow. *)
Lemma parseCSVStream_split t1 t2 :
  insideAfter t1 false = false ->
  parseCSVStream (t1 ++ LF :: t2) = parseCSVStream t1 ++ parseCSVStream t2.
Proof.
  intros Hin. unfold parseCSVStream.
  rewrite (scan_split t1 t2 [] [] [] false Hin).
  rewrite <- (app_nil_r (scan t1 [] [] [] false)) at 1.
  apply scan_acc.
Qed.

End TokenizerOrder.

(** C10.  Whatever the text, the records [parseCSV] returns can be paired,
    in their order, with strictly increasing positions among the data rows
    the tokenizer produced: each record is the conversion of the row at
    its position, so a record never comes before the record of an earlier
    row; when the header has every required column, no accepted row is
    left out.  And the rows of the tokenizer follow the text: wherever
    the text is cut at a line feed outside quotes, the rows of the part
    before the cut come first and the rows of the part after it follow. *)
Theorem parseCSV_preserves_row_order (text : jsstring) :
  (exists src : list nat,
    StronglySorted lt src
    ∧ Forall2 (fun q r => exists row,
                 dataRows text !! r = Some row
                 ∧ convertRow (columns (headerOf text)) row r = Some q)
        (parseCSV text) src
    ∧ ((forall name, name ∈ requiredNames -> name ∈ headerOf text) ->
       forall r row q,
         dataRows text !! r = Some row ->
         convertRow (columns (headerOf text)) row r = Some q ->
         r ∈ src))
  ∧ (forall t1 t2 : jsstring,
       text = t1 ++ LF :: t2 ->
       insideAfter t1 false = false ->
       parseCSVStream text = parseCSVStream t1 ++ parseCSVStream t2).
Proof.
  split; [| intros t1 t2 -> Hin; apply parseCSVStream_split, Hin].
  destruct (convertFrom_sources (columns (headerOf text)) (dataRows text) 0)
    as (src & Hsorted & _ & Hall & Hcomplete).
  assert (Hall' : Forall2 (fun q r => exists row,
                     dataRows text !! r = Some row
                     ∧ convertRow (columns (headerOf text)) row r = Some q)
                    (convertFrom (columns (headerOf text)) (dataRows text) 0)
                    src).
  { eapply Forall2_impl; [exact Hall |].
    intros q r (row & Hr & Hq). rewrite Nat.sub_0_r in Hr. eauto. }
  destruct (parseCSV_unfold text) as [[Hnil Hbad] | Hrows].
  - exists []. rewrite Hnil.
    split; [constructor |]. split; [constructor |].
    intros Hok. contradiction.
  - exists src. rewrite Hrows.
    split; [exact Hsorted |]. split; [exact Hall' |].
    intros _ r row q Hr Hq. apply (Hcomplete r row q Hr Hq).
Qed.

(** On the three-row sample: the records are those of rows 0, 1 and 2 in
    this order, and the table is the header row followed by the rows of
    the rest of the text. *)
Lemma parseCSV_preserves_row_order_witness :
  id <$> parseCSV sampleCsv = [str "Q1"; str "Q2"; str "Q3"]
  ∧ (exists src : list nat,
       StronglySorted lt src
       ∧ Forall2 (fun q r => exists row,
                    dataRows sampleCsv !! r = Some row
                    ∧ convertRow (columns (headerOf sampleCsv)) row r
                      = Some q)
           (parseCSV sampleCsv) src)
  ∧ parseCSVStream sampleCsv
    = parseCSVStream (str "id,domain,question,a,b,c,d,correct")
      ++ parseCSVStream
           (str "Q1,People,What?,A,B,C,D,A" ++ [LF]
            ++ str "Q2,Process,How?,A,B,C,D,b" ++ [LF]
            ++ str "Q3,Agile,Why?,A,B,C,D,2" ++ [LF]).
Proof.
  split; [vm_compute; reflexivity |].
  destruct (parseCSV_preserves_row_order sampleCsv)
    as [(src & Hsorted & Hall & _) Hsplit].
  split; [exists src; split; [exact Hsorted | exact Hall] |].
  apply Hsplit; reflexivity.
Defined.

(** * Further properties of the session handlers *)

(** X1.  In exam mode a choice on a question whose attempt history is
    still empty writes one result under the id of the question, with
    [tries = 1], [firstTryCorrect] telling whether the choice is the
    correct index, and the attempt history of the snapshot (empty) as
    [chosenHistory]; then the session is finished if the question was
    the last one, and otherwise the next question is current with its
    transient state reset. *)
Theorem exam_choice_records_once_and_advances (s : App.State) (now c : Z)
    (q : Question) :
  App.mode s = exam ->
  App.current s = Some q ->
  App.chosenHistory s = [] ->
  exists s' elapsed,
    App.step s now (App.Choice c) = Some s'
    ∧ App.results s'
      = <[id q := Result.mk (id q)
                    (bool_decide (App.correctIndex q = Some (AnsNum c)))
                    1 elapsed []]> (App.results s)
    ∧ App.sessionQs s' = App.sessionQs s
    ∧ (if (Z.of_nat (alength (App.sessionQs s)) <=? App.idx s + 1)%Z
       then App.finished s' = true ∧ App.started s' = false
            ∧ App.idx s' = App.idx s
       else App.idx s' = (App.idx s + 1)%Z ∧ App.finished s' = App.finished s
            ∧ App.chosenHistory s' = [] ∧ App.eliminated s' = ∅
            ∧ App.firstTryCorrect s' = None
            ∧ App.questionStart s' = Some now).
Proof.
  intros Hmode Hcur Hhist.
  unfold App.step, App.onChoice. rewrite Hcur, Hmode.
  cbn [fmap option_fmap option_map App.queue].
  unfold App.recordResult, App.nextQuestion. rewrite Hcur, Hhist.
  cbn [length Z.of_nat Z.eqb Z.max Z.compare].
  destruct (Z.of_nat (alength (App.sessionQs s)) <=? App.idx s + 1)%Z;
    eexists; eexists; (split; [reflexivity |]);
    cbn; rewrite andb_true_r; auto 10.
Qed.

Lemma exam_choice_records_once_and_advances_witness :
  exists s',
    App.step (App.commit (App.initial sampleBank exam 20 42)
                (App.startSession (App.initial sampleBank exam 20 42) 1000
                   (fun _ => 0%Z)))
      1500 (App.Choice 1)
    = Some s'
    ∧ App.idx s' = 1%Z
    ∧ size (App.results s') = 1.
Proof.
  destruct (exam_choice_records_once_and_advances
              (App.commit (App.initial sampleBank exam 20 42)
                 (App.startSession (App.initial sampleBank exam 20 42) 1000
                    (fun _ => 0%Z)))
              1500 1
              (default sampleQuestion
                 (App.current
                    (App.commit (App.initial sampleBank exam 20 42)
                       (App.startSession (App.initial sampleBank exam 20 42)
                          1000 (fun _ => 0%Z))))))
    as (s' & elapsed & Hstep & Hres & _ & Hadv);
    [reflexivity | vm_compute; reflexivity | reflexivity |].
  exists s'. split; [exact Hstep |].
  vm_compute in Hadv. destruct Hadv as (Hidx & _).
  split; [exact Hidx |].
  rewrite Hres. vm_compute. reflexivity.
Defined.

(** X2.  In practice mode a choice that is not the correct index records
    nothing: the results are untouched and the question stays current;
    the choice is marked eliminated, appended to the attempt history, and
    the first-try flag of the component becomes [false].  No timer is
    set. *)
Theorem practice_miss_eliminates_and_stays (s : App.State) (now c : Z)
    (q : Question) :
  App.mode s = practice ->
  App.current s = Some q ->
  App.correctIndex q ≠ Some (AnsNum c) ->
  exists s',
    App.step s now (App.Choice c) = Some s'
    ∧ (App.timer <$> App.onChoice s now c) = Some false
    ∧ App.results s' = App.results s
    ∧ App.idx s' = App.idx s
    ∧ App.sessionQs s' = App.sessionQs s
    ∧ App.current s' = Some q
    ∧ App.eliminated s' = <[c := true]> (App.eliminated s)
    ∧ App.chosenHistory s' = App.chosenHistory s ++ [c]
    ∧ App.firstTryCorrect s' = Some false.
Proof.
  intros Hmode Hcur Hne.
  unfold App.step, App.onChoice. rewrite Hcur, Hmode.
  rewrite bool_decide_eq_false_2 by exact Hne.
  eexists. split; [reflexivity |].
  cbn. unfold App.current in *. cbn. auto 10.
Qed.

Lemma practice_miss_eliminates_and_stays_witness :
  exists s',
    App.step sampleSession 1500 (App.Choice 0) = Some s'
    ∧ App.results s' = App.results sampleSession
    ∧ App.chosenHistory s' = [0%Z]
    ∧ App.eliminated s' !! 0%Z = Some true.
Proof.
  destruct (practice_miss_eliminates_and_stays sampleSession 1500 0
              sampleQuestion)
    as (s' & Hstep & _ & Hres & _ & _ & _ & Helim & Hhist & _);
    [reflexivity | vm_compute; reflexivity | vm_compute; discriminate |].
  exists s'. split; [exact Hstep |]. split; [exact Hres |].
  split; [exact Hhist |]. rewrite Helim. apply lookup_insert_eq.
Defined.

(** X3.  In practice mode the correct choice always succeeds: it writes
    a result whose [tries] is the number of attempts made before it (1
    when there was none), whose [firstTryCorrect] is set when at most
    one attempt was made before it, and whose [chosenHistory] is the
    history before the choice; the choice is appended to the history of
    the component, the question stays current, and the timer that will
    run [nextQuestion] is set. *)
Theorem practice_hit_counts_earlier_attempts (s : App.State) (now c : Z)
    (q : Question) :
  App.mode s = practice ->
  App.current s = Some q ->
  App.correctIndex q = Some (AnsNum c) ->
  exists s' r,
    App.step s now (App.Choice c) = Some s'
    ∧ (App.timer <$> App.onChoice s now c) = Some true
    ∧ App.results s' = <[id q := r]> (App.results s)
    ∧ Result.tries r = Z.max 1 (Z.of_nat (length (App.chosenHistory s)))
    ∧ Result.firstTryCorrect r
      = (Z.of_nat (length (App.chosenHistory s)) <=? 1)%Z
    ∧ Result.chosenHistory r = App.chosenHistory s
    ∧ App.chosenHistory s' = App.chosenHistory s ++ [c]
    ∧ App.firstTryCorrect s'
      = Some (length (App.chosenHistory s) =? 0)%nat
    ∧ App.idx s' = App.idx s
    ∧ App.sessionQs s' = App.sessionQs s.
Proof.
  intros Hmode Hcur Hcorrect.
  unfold App.step, App.onChoice. rewrite Hcur, Hmode, Hcorrect.
  rewrite bool_decide_eq_true_2 by reflexivity.
  unfold App.recordResult. rewrite Hcur.
  eexists. eexists. split; [reflexivity |]. split; [reflexivity |].
  split; [reflexivity |].
  cbn [Result.tries Result.firstTryCorrect Result.chosenHistory].
  set (n := Z.of_nat (length (App.chosenHistory s))).
  assert (0 <= n)%Z by (subst n; lia).
  split; [destruct (Z.eqb_spec n 0); lia |].
  split; [| cbn; auto].
  destruct (Z.eqb_spec n 0) as [-> | Hne]; [reflexivity |].
  simpl. destruct (Z.eqb_spec (Z.max 1 n) 1), (Z.leb_spec n 1);
    try reflexivity; lia.
Qed.

Lemma practice_hit_counts_earlier_attempts_witness :
  exists s' r,
    App.step sampleSession 2500 (App.Choice 2) = Some s'
    ∧ App.results s' = <[id sampleQuestion := r]> (App.results sampleSession)
    ∧ Result.tries r = 1%Z
    ∧ Result.firstTryCorrect r = true.
Proof.
  destruct (practice_hit_counts_earlier_attempts sampleSession 2500 2
              sampleQuestion)
    as (s' & r & Hstep & _ & Hres & Ht & Hf & _);
    [reflexivity | vm_compute; reflexivity | reflexivity |].
  exists s', r. split; [exact Hstep |]. split; [exact Hres |].
  split; [exact Ht | exact Hf].
Defined.

(** X4.  The timer of a correct practice answer and the Next button are
    not idempotent: [nextQuestion] advances with [setIdx(i => i + 1)].
    When the correct choice is made in the snapshot [snap] and Next is
    clicked before the timer of that choice goes off, the next question
    is current after the click; when the timer then runs the
    [nextQuestion] of [snap], the session moves on once more and ends up
    two questions ahead of [snap] (provided two more questions exist).
    The question in between was current only from the click to the
    timer, and no result is written for it: the results hold the entry
    of the answered question and are otherwise as in [snap]. *)
Theorem hit_next_timer_skips_a_question (snap : App.State) (t0 t1 t2 c : Z)
    (q : Question) :
  App.mode snap = practice ->
  App.current snap = Some q ->
  App.correctIndex q = Some (AnsNum c) ->
  (App.idx snap + 2 < Z.of_nat (alength (App.sessionQs snap)))%Z ->
  exists s1 s' r,
    App.run snap [(t0, App.Choice c); (t1, App.Next)] = Some s1
    ∧ App.idx s1 = (App.idx snap + 1)%Z
    ∧ App.run snap [(t0, App.Choice c); (t1, App.Next);
                    (t2, App.Timeout snap)]
      = Some s'
    ∧ App.idx s' = (App.idx snap + 2)%Z
    ∧ App.finished s' = App.finished snap
    ∧ App.results s' = <[id q := r]> (App.results snap)
    ∧ App.sessionQs s' = App.sessionQs snap.
Proof.
  intros Hmode Hcur Hcorrect Hlt.
  cbn [App.run]. unfold App.step at 1 3. unfold App.onChoice.
  rewrite Hcur, Hmode, Hcorrect.
  rewrite bool_decide_eq_true_2 by reflexivity.
  unfold App.recordResult. rewrite Hcur.
  cbn [fmap option_fmap option_map App.queue].
  cbn [App.step]. unfold App.nextQuestion.
  cbn [app App.commit fold_left App.setChosenHistory App.setResults
       App.setFirstTryCorrect App.sessionQs App.idx].
  destruct (Z.leb_spec (Z.of_nat (alength (App.sessionQs snap)))
              (App.idx snap + 1)); [lia |].
  eexists. eexists. eexists. split; [reflexivity |].
  split; [reflexivity |]. split; [reflexivity |].
  cbn. repeat split. lia.
Qed.

Lemma hit_next_timer_skips_a_question_witness :
  exists s1 s',
    App.run (App.commit (App.initial sampleBank practice 20 42)
               (App.startSession (App.initial sampleBank practice 20 42)
                  1000 (fun _ => 0%Z)))
      [(1400%Z, App.Choice 2); (1500%Z, App.Next)]
    = Some s1
    ∧ App.idx s1 = 1%Z
    ∧ App.run (App.commit (App.initial sampleBank practice 20 42)
                 (App.startSession (App.initial sampleBank practice 20 42)
                    1000 (fun _ => 0%Z)))
        [(1400%Z, App.Choice 2); (1500%Z, App.Next);
         (1620%Z,
          App.Timeout
            (App.commit (App.initial sampleBank practice 20 42)
               (App.startSession (App.initial sampleBank practice 20 42)
                  1000 (fun _ => 0%Z))))]
      = Some s'
    ∧ App.idx s' = 2%Z
    ∧ size (App.results s') = 1.
Proof.
  destruct (hit_next_timer_skips_a_question
              (App.commit (App.initial sampleBank practice 20 42)
                 (App.startSession (App.initial sampleBank practice 20 42)
                    1000 (fun _ => 0%Z)))
              1400 1500 1620 2
              (default sampleQuestion
                 (App.current
                    (App.commit (App.initial sampleBank practice 20 42)
                       (App.startSession
                          (App.initial sampleBank practice 20 42) 1000
                          (fun _ => 0%Z))))))
    as (s1 & s' & r & Hrun1 & Hidx1 & Hrun & Hidx & _ & Hres & _);
    [reflexivity | vm_compute; reflexivity | vm_compute; reflexivity
    | vm_compute; reflexivity |].
  exists s1, s'. split; [exact Hrun1 |]. split; [exact Hidx1 |].
  split; [exact Hrun |]. split; [exact Hidx |].
  rewrite Hres. vm_compute. reflexivity.
Defined.

(** One exam answer, as the run below needs it. *)
Lemma exam_step_state (s : App.State) (now c : Z) (q : Question) :
  App.mode s = exam ->
  App.current s = Some q ->
  App.chosenHistory s = [] ->
  exists s' r,
    App.step s now (App.Choice c) = Some s'
    ∧ App.mode s' = exam
    ∧ App.sessionQs s' = App.sessionQs s
    ∧ App.results s' = <[id q := r]> (App.results s)
    ∧ Result.tries r = 1%Z
    ∧ ((Z.of_nat (alength (App.sessionQs s)) <= App.idx s + 1)%Z ->
       App.finished s' = true ∧ App.started s' = false)
    ∧ ((App.idx s + 1 < Z.of_nat (alength (App.sessionQs s)))%Z ->
       App.idx s' = (App.idx s + 1)%Z ∧ App.chosenHistory s' = []).
Proof.
  intros Hmode Hcur Hhist.
  unfold App.step, App.onChoice. rewrite Hcur, Hmode.
  cbn [fmap option_fmap option_map App.queue].
  unfold App.recordResult, App.nextQuestion. rewrite Hcur, Hhist.
  cbn [length Z.of_nat Z.eqb Z.max Z.compare].
  destruct (Z.leb_spec (Z.of_nat (alength (App.sessionQs s)))
              (App.idx s + 1));
    eexists; eexists; (split; [reflexivity |]); cbn;
    (split; [exact Hmode |]); repeat split; auto; lia.
Qed.

Lemma exam_run_from (qs : list Question) (evs : list (Z * Z)) :
  forall (s : App.State) (k : nat),
  App.mode s = exam ->
  App.sessionQs s = ofList qs ->
  App.idx s = Z.of_nat k ->
  App.chosenHistory s = [] ->
  k + length evs = length qs ->
  evs ≠ [] ->
  exists s',
    App.run s ((fun tc => (fst tc, App.Choice (snd tc))) <$> evs) = Some s'
    ∧ App.finished s' = true
    ∧ App.started s' = false
    ∧ (forall key, is_Some (App.results s' !! key)
                   <-> is_Some (App.results s !! key)
                       ∨ key ∈ id <$> drop k qs)
    ∧ (forall key r, App.results s' !! key = Some r ->
         App.results s !! key = Some r ∨ Result.tries r = 1%Z).
Proof.
  induction evs as [| [t c] evs IH]; intros s k Hmode Hqs Hidx Hhist Hlen Hne;
    [contradiction |].
  simpl in Hlen.
  destruct (lookup_lt_is_Some_2 qs k) as [q Hq]; [lia |].
  assert (Hcur : App.current s = Some q).
  { unfold App.current, aget. rewrite Hqs, Hidx.
    destruct (Z.ltb_spec (Z.of_nat k) 0); [lia |].
    rewrite Nat2Z.id. unfold ofList. simpl.
    rewrite list_lookup_fmap, Hq. reflexivity. }
  assert (Hlenqs : alength (App.sessionQs s) = length qs)
    by (rewrite Hqs; apply alength_ofList).
  assert (Hdrop : drop k qs = q :: drop (S k) qs)
    by (apply drop_S, Hq).
  destruct (exam_step_state s t c q Hmode Hcur Hhist)
    as (s1 & r & Hstep & Hmode1 & Hqs1 & Hres1 & Htries & Hend & Hnext).
  cbn [fmap list_fmap fst snd App.run]. rewrite Hstep.
  destruct evs as [| ev evs].
  - exists s1. split; [reflexivity |].
    destruct Hend as [Hfin Hsta]; [rewrite Hlenqs, Hidx; simpl in Hlen; lia |].
    split; [exact Hfin |]. split; [exact Hsta |].
    assert (Hnil : drop (S k) qs = [])
      by (apply drop_ge; simpl in Hlen; lia).
    rewrite Hdrop, Hnil, Hres1. split.
    + intros key. destruct (decide (id q = key)) as [<- | Hk].
      * rewrite lookup_insert_eq. split; [intros _; right; left | eauto].
      * rewrite lookup_insert_ne by exact Hk. split; [auto |].
        intros [H | H]; [exact H |].
        apply list_elem_of_singleton in H. congruence.
    + intros key r'. destruct (decide (id q = key)) as [<- | Hk].
      * rewrite lookup_insert_eq. intros [= <-]. right. exact Htries.
      * rewrite lookup_insert_ne by exact Hk. auto.
  - destruct Hnext as [Hidx1 Hhist1];
      [rewrite Hlenqs, Hidx; simpl in Hlen; lia |].
    destruct (IH s1 (S k)) as (s' & Hrun & Hfin & Hsta & Hdom & Htr);
      [exact Hmode1 | congruence | rewrite Hidx1, Hidx; lia | exact Hhist1
      | simpl in *; lia | discriminate |].
    exists s'. split; [exact Hrun |]. split; [exact Hfin |].
    split; [exact Hsta |]. split.
    + intros key. rewrite Hdom, Hres1, Hdrop, fmap_cons, elem_of_cons.
      destruct (decide (id q = key)) as [<- | Hk].
      * rewrite lookup_insert_eq. split; [auto | eauto].
      * rewrite lookup_insert_ne by exact Hk. split; [tauto |].
        intros [H | [H | H]]; [auto | congruence | auto].
    + intros key r' Hr'. destruct (Htr key r' Hr') as [Hold | H1]; [| auto].
      rewrite Hres1 in Hold. destruct (decide (id q = key)) as [<- | Hk].
      * rewrite lookup_insert_eq in Hold. injection Hold as <-. auto.
      * rewrite lookup_insert_ne in Hold by exact Hk. auto.
Qed.

(** X5.  An exam session runs to completion: from the start of a session
    over the questions [qs] (at least one), after one choice per question
    the session is finished, a result is recorded exactly under the ids
    of the questions of the session, and every recorded result has
    [tries = 1]. *)
Theorem exam_session_completes (s : App.State) (qs : list Question)
    (evs : list (Z * Z)) :
  App.mode s = exam ->
  App.sessionQs s = ofList qs ->
  App.idx s = 0%Z ->
  App.chosenHistory s = [] ->
  App.results s = ∅ ->
  length evs = length qs ->
  qs ≠ [] ->
  exists s',
    App.run s ((fun tc => (fst tc, App.Choice (snd tc))) <$> evs) = Some s'
    ∧ App.finished s' = true
    ∧ App.started s' = false
    ∧ (forall key, is_Some (App.results s' !! key) <-> key ∈ id <$> qs)
    ∧ (forall key r, App.results s' !! key = Some r ->
         Result.tries r = 1%Z).
Proof.
  intros Hmode Hqs Hidx Hhist Hres Hlen Hne.
  destruct (exam_run_from qs evs s 0 Hmode Hqs Hidx Hhist Hlen)
    as (s' & Hrun & Hfin & Hsta & Hdom & Htr).
  { destruct evs; [destruct qs; [contradiction | discriminate] | discriminate]. }
  exists s'. split; [exact Hrun |]. split; [exact Hfin |].
  split; [exact Hsta |]. split.
  - intros key. rewrite Hdom, Hres, lookup_empty, drop_0.
    split; [intros [[x Hx] | H]; [discriminate | exact H] | auto].
  - intros key r Hr. destruct (Htr key r Hr) as [Hold | H1]; [| exact H1].
    rewrite Hres, lookup_empty in Hold. discriminate.
Qed.

Lemma exam_session_completes_witness :
  exists s',
    App.run (App.commit (App.initial sampleBank exam 20 42)
               (App.startSession (App.initial sampleBank exam 20 42) 1000
                  (fun _ => 0%Z)))
      [(1100%Z, App.Choice 0); (1200%Z, App.Choice 1);
       (1300%Z, App.Choice 2)]
    = Some s'
    ∧ App.finished s' = true
    ∧ is_Some (App.results s' !! str "Q1")
    ∧ is_Some (App.results s' !! str "Q2")
    ∧ is_Some (App.results s' !! str "Q3").
Proof.
  destruct (exam_session_completes
              (App.commit (App.initial sampleBank exam 20 42)
                 (App.startSession (App.initial sampleBank exam 20 42) 1000
                    (fun _ => 0%Z)))
              (default sampleQuestion
                 <$> items (App.sessionQs
                      (App.commit (App.initial sampleBank exam 20 42)
                         (App.startSession
                            (App.initial sampleBank exam 20 42) 1000
                            (fun _ => 0%Z)))))
              [(1100, 0); (1200, 1); (1300, 2)]%Z)
    as (s' & Hrun & Hfin & _ & Hdom & _);
    [vm_compute; reflexivity .. | vm_compute; discriminate |].
  exists s'. split; [exact Hrun |]. split; [exact Hfin |].
  repeat split; apply Hdom; vm_compute; repeat first [left | right].
Defined.

(** X6.  A session is drawn from the filtered pool without repetition:
    for every state, clock and random source, the questions of the
    session started, together with some remainder, are a permutation of
    the filtered questions, so no bank entry is used twice and none is an
    empty slot.  Every question of the session is a question of the bank
    with a domain that is not empty and that passes the test
    [selectedDomains[q.domain]] of the filter: the domain is selected, or
    it has no entry in [selectedDomains] and is a name every object
    inherits (toString, constructor, ...), which the test finds as well.
    The session starts at position 0, not finished, with no result, no
    eliminated choice and an empty attempt history. *)
Theorem startSession_draws_from_filtered (s : App.State) (now : Z)
    (e : Entropy) :
  (exists rest,
      items (App.sessionQs (App.commit s (App.startSession s now e))) ++ rest
      ≡ₚ Some <$> App.filtered s)
  ∧ props (App.sessionQs (App.commit s (App.startSession s now e))) = []
  ∧ (forall elt,
       elt ∈ items (App.sessionQs (App.commit s (App.startSession s now e))) ->
       exists q, elt = Some q ∧ q ∈ App.allQuestions s
                 ∧ domain q ≠ []
                 ∧ (App.selectedDomains s !! domain q = Some true
                    ∨ (App.selectedDomains s !! domain q = None
                       ∧ domain q ∈ App.inheritedNames)))
  ∧ App.idx (App.commit s (App.startSession s now e)) = 0%Z
  ∧ App.started (App.commit s (App.startSession s now e)) = true
  ∧ App.finished (App.commit s (App.startSession s now e)) = false
  ∧ App.results (App.commit s (App.startSession s now e)) = ∅
  ∧ App.eliminated (App.commit s (App.startSession s now e)) = ∅
  ∧ App.chosenHistory (App.commit s (App.startSession s now e)) = [].
Proof.
  rewrite startSession_sessionQs.
  set (pool := shuffle (ofList (App.filtered s)) (Some (App.seed s)) e).
  set (k := Z.min (App.sessionSize s) (Z.of_nat (alength pool))).
  destruct (shuffle_perm (ofList (App.filtered s)) (Some (App.seed s)) e)
    as [Hperm _]. fold pool in Hperm.
  assert (Hsub : exists rest, items (slice0 pool k) ++ rest
                              ≡ₚ Some <$> App.filtered s).
  { unfold slice0. cbn [items].
    eexists. rewrite take_drop. exact Hperm. }
  split; [exact Hsub |]. split; [reflexivity |].
  split; [| repeat split].
  intros elt Hin. destruct Hsub as [rest Hsub].
  assert (Hin' : elt ∈ Some <$> App.filtered s).
  { rewrite <- Hsub. apply elem_of_app. left. exact Hin. }
  apply list_elem_of_fmap in Hin' as (q & -> & Hq).
  exists q. split; [reflexivity |].
  unfold App.filtered in Hq. apply list_elem_of_In, filter_In in Hq.
  destruct Hq as [Hall Hsel]. apply andb_true_iff in Hsel as [Hdom Hsel].
  split; [apply list_elem_of_In, Hall |].
  split; [intros Hempty; rewrite Hempty in Hdom; discriminate Hdom |].
  unfold App.truthyAt in Hsel.
  destruct (App.selectedDomains s !! domain q) as [[|] |];
    [left; reflexivity | discriminate Hsel |].
  right. split; [reflexivity |]. apply bool_decide_eq_true in Hsel. exact Hsel.
Qed.

(** The inherited names do pass the filter: a bank entry whose domain is
    [toString] enters the session although no such domain is selected. *)
Example startSession_takes_inherited_domain :
  App.filtered
    (App.initial
       [mkQuestion (str "Q9") (str "toString") (str "What?")
          (ofList [str "A"; str "B"; str "C"; str "D"]) (Some (AnsNum 0))
          [] [] None None None]
       practice 20 42)
  = [mkQuestion (str "Q9") (str "toString") (str "What?")
       (ofList [str "A"; str "B"; str "C"; str "D"]) (Some (AnsNum 0))
       [] [] None None None].
Proof. vm_compute. reflexivity. Qed.

(** X7.  [toggleFlag] flips the flag of the current question and touches
    nothing else: the truthiness of [flagged[q.id]] is negated, the flags
    of the other ids, the results, the position and the attempt history
    are as before; two toggles in a row restore the truthiness of the
    flag, and without a current question nothing changes. *)
Theorem toggleFlag_flips_current_only (s : App.State) :
  match App.current s with
  | None => App.commit s (App.toggleFlag s) = s
  | Some q =>
      App.truthyAt (App.flagged (App.commit s (App.toggleFlag s))) (id q)
      = negb (App.truthyAt (App.flagged s) (id q))
      ∧ (forall k, k ≠ id q ->
           App.flagged (App.commit s (App.toggleFlag s)) !! k
           = App.flagged s !! k)
      ∧ App.results (App.commit s (App.toggleFlag s)) = App.results s
      ∧ App.idx (App.commit s (App.toggleFlag s)) = App.idx s
      ∧ App.chosenHistory (App.commit s (App.toggleFlag s))
        = App.chosenHistory s
      ∧ App.truthyAt
          (App.flagged
             (App.commit (App.commit s (App.toggleFlag s))
                (App.toggleFlag (App.commit s (App.toggleFlag s)))))
          (id q)
        = App.truthyAt (App.flagged s) (id q)
  end.
Proof.
  destruct (App.current s) as [q |] eqn:Hcur.
  - assert (Hs1 : App.commit s (App.toggleFlag s)
                  = App.setFlagged
                      (fun prev =>
                         <[id q := negb (App.truthyAt prev (id q))]> prev) s)
      by (unfold App.toggleFlag; rewrite Hcur; reflexivity).
    rewrite Hs1.
    set (s1 := App.setFlagged _ s).
    assert (Hcur1 : App.current s1 = Some q) by exact Hcur.
    assert (Hs2 : App.commit s1 (App.toggleFlag s1)
                  = App.setFlagged
                      (fun prev =>
                         <[id q := negb (App.truthyAt prev (id q))]> prev) s1)
      by (unfold App.toggleFlag; rewrite Hcur1; reflexivity).
    rewrite Hs2. subst s1.
    cbn [App.setFlagged App.flagged App.results App.idx App.chosenHistory].
    assert (Hown : forall (m : gmap jsstring bool) b,
              App.truthyAt (<[id q := b]> m) (id q) = b).
    { intros m b. unfold App.truthyAt. rewrite lookup_insert_eq. reflexivity. }
    rewrite !Hown.
    split; [reflexivity |].
    split; [intros k Hk; apply lookup_insert_ne; congruence |].
    repeat split. apply negb_involutive.
  - unfold App.toggleFlag. rewrite Hcur. reflexivity.
Qed.

(** * Further properties of the tokenizer *)

Lemma pushRow_keeps_kept rows row :
  Forall keptRow rows -> Forall keptRow (pushRow rows row).
Proof.
  intros Hall. unfold pushRow.
  destruct (negb (length row =? 0)%nat) eqn:Hlen; [| exact Hall].
  destruct (existsb (fun c => negb (isEmpty c)) row) eqn:Hex; [| exact Hall].
  apply Forall_app. split; [exact Hall |].
  apply Forall_cons. split; [| apply Forall_nil_2].
  apply existsb_exists in Hex as (c & Hin & Hne).
  exists c. split; [apply list_elem_of_In, Hin |].
  destruct c; [discriminate | discriminate].
Qed.

Lemma scan_keeps_kept t : forall rows row cur inQ,
  Forall keptRow rows -> Forall keptRow (scan t rows row cur inQ).
Proof.
  induction t as [| ch | ch ch2 rest IH1 IH2] using lookahead_ind;
    intros rows row cur inQ Hall.
  - rewrite scan_nil. apply pushRow_keeps_kept, Hall.
  - rewrite scan_cons.
    destruct (chEq ch dquote);
      [rewrite scan_nil; apply pushRow_keeps_kept, Hall |].
    destruct (negb inQ && chEq ch comma);
      [rewrite scan_nil; apply pushRow_keeps_kept, Hall |].
    destruct (negb inQ && (chEq ch LF || chEq ch CR));
      rewrite scan_nil; repeat apply pushRow_keeps_kept; exact Hall.
  - rewrite scan_cons.
    destruct (chEq ch dquote).
    { destruct (inQ && chEq ch2 dquote); [apply IH1 | apply IH2]; exact Hall. }
    destruct (negb inQ && chEq ch comma); [apply IH2, Hall |].
    destruct (negb inQ && (chEq ch LF || chEq ch CR)); [| apply IH2, Hall].
    destruct (chEq ch CR && chEq ch2 LF);
      [apply IH1 | apply IH2]; apply pushRow_keeps_kept, Hall.
Qed.

(** X8.  The tokenizer never returns a blank row: whatever the text,
    every row of [parseCSVStream] has a cell that is not the empty
    string (so no row is the empty list either); blank lines, lines of
    commas only and a trailing line break leave no trace. *)
Theorem parseCSVStream_rows_not_blank (text : jsstring) :
  Forall keptRow (parseCSVStream text)
  ∧ Forall (fun row => row ≠ []) (parseCSVStream text).
Proof.
  assert (H : Forall keptRow (parseCSVStream text))
    by (apply scan_keeps_kept, Forall_nil_2).
  split; [exact H |].
  eapply Forall_impl; [exact H |].
  intros row (c & Hin & _) ->. inversion Hin.
Qed.

Lemma scan_CR rest rows row cur :
  scan (CR :: rest) rows row cur false
  = scan rest (pushRow rows (row ++ [cur])) [] [] false.
Proof.
  rewrite scan_cons.
  replace (chEq CR dquote) with false by reflexivity.
  replace (chEq CR comma) with false by reflexivity.
  rewrite chEq_refl.
  replace (chEq CR LF) with false by reflexivity.
  cbn [negb andb orb].
  destruct rest as [| ch2 rest]; [reflexivity |].
  destruct (chEq ch2 LF) eqn:Hlf; [| reflexivity].
  apply chEq_true in Hlf. subst ch2.
  rewrite scan_LF. reflexivity.
Qed.

(** The counterpart of [scan_split] for a carriage return. *)
Lemma scan_split_CR t1 : forall t2 rows row cur inQ,
  insideAfter t1 inQ = false ->
  scan (t1 ++ CR :: t2) rows row cur inQ
  = scan t2 (scan t1 rows row cur inQ) [] [] false.
Proof.
  induction t1 as [| ch | ch ch2 rest IH1 IH2] using lookahead_ind;
    intros t2 rows row cur inQ Hin.
  - simpl in Hin. subst inQ. rewrite app_nil_l, scan_CR, scan_nil.
    reflexivity.
  - cbn [insideAfter] in Hin.
    change ([ch] ++ CR :: t2) with (ch :: CR :: t2).
    rewrite (scan_cons ch (CR :: t2)), (scan_cons ch []).
    destruct (chEq ch dquote) eqn:Hq.
    { destruct inQ; [| discriminate Hin].
      replace (chEq CR dquote) with false by reflexivity.
      cbn [andb negb]. rewrite scan_CR, scan_nil. reflexivity. }
    subst inQ. cbn [negb andb].
    destruct (chEq ch comma) eqn:Hc.
    { rewrite scan_CR, !scan_nil. reflexivity. }
    destruct (chEq ch LF || chEq ch CR) eqn:Hnl.
    + replace (chEq CR LF) with false by reflexivity.
      rewrite andb_false_r, scan_nil, scan_CR.
      change (pushRow (pushRow rows (row ++ [cur])) ([] ++ [[]]))
        with (pushRow rows (row ++ [cur])).
      reflexivity.
    + rewrite scan_CR, scan_nil. reflexivity.
  - cbn [insideAfter] in Hin.
    change ((ch :: ch2 :: rest) ++ CR :: t2)
      with (ch :: ch2 :: (rest ++ CR :: t2)).
    rewrite (scan_cons ch (ch2 :: rest ++ CR :: t2)),
      (scan_cons ch (ch2 :: rest)).
    destruct (chEq ch dquote) eqn:Hq.
    { destruct (inQ && chEq ch2 dquote) eqn:Hesc.
      - apply andb_true_iff in Hesc as [-> Hq2]. rewrite Hq2 in Hin.
        apply IH1. exact Hin.
      - apply (IH2 t2 rows row cur (negb inQ)). exact Hin. }
    destruct (negb inQ && chEq ch comma);
      [apply (IH2 t2 _ _ _ inQ); exact Hin |].
    destruct (negb inQ && (chEq ch LF || chEq ch CR)) eqn:Hnl;
      [| apply (IH2 t2 _ _ _ inQ); exact Hin].
    destruct (chEq ch CR && chEq ch2 LF) eqn:Hcrlf.
    + apply andb_true_iff in Hcrlf as [_ Hlf]. apply chEq_true in Hlf.
      subst ch2. apply IH1. exact Hin.
    + apply (IH2 t2 _ _ _ inQ). exact Hin.
Qed.

Lemma parseCSVStream_leading_LF t :
  parseCSVStream (LF :: t) = parseCSVStream t.
Proof. unfold parseCSVStream. rewrite scan_LF. reflexivity. Qed.

(** X9.  The three line terminators are interchangeable outside quotes:
    when the text before it leaves the reader outside quotes, a line
    feed, a carriage return and a carriage return followed by a line
    feed all give the rows of the text before followed by the rows of
    the text after. *)
Theorem parseCSVStream_line_terminators (t1 t2 : jsstring) :
  insideAfter t1 false = false ->
  parseCSVStream (t1 ++ [LF] ++ t2) = parseCSVStream t1 ++ parseCSVStream t2
  ∧ parseCSVStream (t1 ++ [CR] ++ t2)
    = parseCSVStream t1 ++ parseCSVStream t2
  ∧ parseCSVStream (t1 ++ [CR; LF] ++ t2)
    = parseCSVStream t1 ++ parseCSVStream t2.
Proof.
  intros Hin.
  assert (Hcr : forall t, parseCSVStream (t1 ++ CR :: t)
                          = parseCSVStream t1 ++ parseCSVStream t).
  { intros t. unfold parseCSVStream.
    rewrite (scan_split_CR t1 t [] [] [] false Hin).
    rewrite <- (app_nil_r (scan t1 [] [] [] false)) at 1.
    apply scan_acc. }
  split; [apply parseCSVStream_split, Hin |].
  split; [apply Hcr |].
  change (t1 ++ [CR; LF] ++ t2) with (t1 ++ CR :: LF :: t2).
  rewrite Hcr, parseCSVStream_leading_LF. reflexivity.
Qed.

Lemma parseCSVStream_line_terminators_witness :
  parseCSVStream (str "a,b" ++ [CR; LF] ++ str "c,d")
  = [[str "a"; str "b"]; [str "c"; str "d"]]
  ∧ parseCSVStream (str "a,b" ++ [CR] ++ str "c,d")
    = [[str "a"; str "b"]; [str "c"; str "d"]].
Proof.
  destruct (parseCSVStream_line_terminators (str "a,b") (str "c,d") eq_refl)
    as (_ & Hcr & Hcrlf).
  rewrite Hcr, Hcrlf. split; vm_compute; reflexivity.
Defined.

(** * Further properties of [parseCSV] *)

Section TrimFacts.
Implicit Types s : jsstring.

Lemma trimStart_head s : headNotSpace (trimStart s).
Proof.
  induction s as [| c s IH]; [exact I |].
  cbn [trimStart]. destruct (isSpace c) eqn:Hc; [exact IH | exact Hc].
Qed.

Lemma trimStart_fixed s : headNotSpace s -> trimStart s = s.
Proof.
  destruct s as [| c s]; [reflexivity |].
  simpl. intros ->. reflexivity.
Qed.

Lemma trimStart_suffix s : exists w, s = w ++ trimStart s.
Proof.
  induction s as [| c s [w IH]]; [exists []; reflexivity |].
  cbn [trimStart]. destruct (isSpace c).
  - exists (c :: w). simpl. f_equal. exact IH.
  - exists []. reflexivity.
Qed.

(** [trim] leaves nothing more to trim. *)
Lemma trim_idempotent s : trim (trim s) = trim s.
Proof.
  unfold trim. set (a := trimStart s).
  assert (Ha : headNotSpace a) by apply trimStart_head.
  assert (Hb : trimStart (trimEnd a) = trimEnd a).
  { apply trimStart_fixed. unfold trimEnd.
    destruct (trimStart_suffix (rev a)) as [w Hw].
    assert (Hsplit : a = rev (trimStart (rev a)) ++ rev w).
    { rewrite <- rev_app_distr, <- Hw, rev_involutive. reflexivity. }
    destruct (rev (trimStart (rev a))) as [| c b]; [exact I |].
    rewrite Hsplit in Ha. exact Ha. }
  rewrite Hb. unfold trimEnd at 1 2.
  rewrite rev_involutive.
  rewrite (trimStart_fixed (trimStart (rev a))) by apply trimStart_head.
  reflexivity.
Qed.
End TrimFacts.

Lemma convertRow_record (c : Columns) (row : list jsstring) (r : nat)
    (q : Question) :
  convertRow c row r = Some q ->
  exists a,
    toIdx (cellOr row (co c)) = Some a
    ∧ trim (cellOr row (di c)) ∈ allowed
    ∧ q = makeRecord c row r a (trim (cellOr row (di c))).
Proof.
  unfold convertRow. destruct (blankRow row); [discriminate |].
  destruct (toIdx _) as [a |]; [| discriminate].
  case_bool_decide; [| discriminate].
  intros [= <-]. eauto.
Qed.

Lemma parseCSV_elem (text : jsstring) (q : Question) :
  q ∈ parseCSV text ->
  exists r row a,
    dataRows text !! r = Some row
    ∧ toIdx (cellOr row (co (columns (headerOf text)))) = Some a
    ∧ trim (cellOr row (di (columns (headerOf text)))) ∈ allowed
    ∧ q = makeRecord (columns (headerOf text)) row r a
            (trim (cellOr row (di (columns (headerOf text))))).
Proof.
  intros Hin.
  destruct (parseCSV_unfold text) as [[Hnil _] | Hrows];
    [rewrite Hnil in Hin; inversion Hin |].
  rewrite Hrows in Hin.
  destruct (convertFrom_elem _ _ _ _ Hin) as (r & row & Hr & Hc).
  destruct (convertRow_record _ _ _ _ Hc) as (a & Ha & Hd & Hq).
  exists r, row, a. auto.
Qed.

Lemma decimal_nonempty (n : nat) : decimal n ≠ [].
Proof.
  unfold decimal, str, NilZero.string_of_uint.
  destruct (Nat.to_uint n) as [| d | d | d | d | d | d | d | d | d | d];
    discriminate.
Qed.

(** X10.  Every record [parseCSV] returns is well formed: its domain is
    one of People, Process, Business, Agile; it has exactly four choices,
    none missing, each with nothing left to trim; its question has
    nothing left to trim; its id is not the empty string; and it carries
    none of the v2.1 fields, so [correctIndex] reads its [answerIndex]. *)
Theorem parseCSV_records_well_formed (text : jsstring) (q : Question) :
  q ∈ parseCSV text ->
  domain q ∈ allowed
  ∧ (exists a b c d,
       choices q = ofList [a; b; c; d]
       ∧ trim a = a ∧ trim b = b ∧ trim c = c ∧ trim d = d)
  ∧ trim (question q) = question q
  ∧ id q ≠ []
  ∧ App.isV21 q = false
  ∧ App.correctIndex q = answerIndex q
  ∧ is_Some (answerIndex q).
Proof.
  intros Hin.
  destruct (parseCSV_elem text q Hin) as (r & row & a & _ & _ & Hdom & ->).
  split; [exact Hdom |].
  split; [do 4 eexists; split; [reflexivity |];
          repeat split; apply trim_idempotent |].
  split; [apply trim_idempotent |].
  split; [| repeat split; eauto].
  cbn [id makeRecord].
  destruct (isEmpty _) eqn:Hempty.
  - intros H. apply app_eq_nil in H as [H _]. discriminate H.
  - intros H. rewrite H in Hempty. discriminate Hempty.
Qed.

Lemma parseCSV_records_well_formed_witness :
  domain (hd sampleQuestion (parseCSV sampleCsv)) ∈ allowed
  ∧ id (hd sampleQuestion (parseCSV sampleCsv)) ≠ []
  ∧ trim (question (hd sampleQuestion (parseCSV sampleCsv)))
    = question (hd sampleQuestion (parseCSV sampleCsv)).
Proof.
  destruct (parseCSV_records_well_formed sampleCsv
              (hd sampleQuestion (parseCSV sampleCsv)))
    as (Hd & _ & Ht & Hi & _).
  - vm_compute. left.
  - auto.
Defined.

Lemma toIdx_range (s : jsstring) (a : AnswerIndex) :
  toIdx s = Some a ->
  (exists n, a = AnsNum n ∧ (0 <= n <= 3)%Z)
  ∨ (a = AnsInherited (toLowerCase (trim s))
     ∧ (toLowerCase (trim s) = str "constructor"
        ∨ toLowerCase (trim s) = str "__proto__")).
Proof.
  unfold toIdx, strEq.
  set (t := toLowerCase (trim s)).
  assert (Hnum : forall n o, (0 <= n <= 3)%Z ->
            (o = Some a -> (exists n, a = AnsNum n ∧ (0 <= n <= 3)%Z)
                           ∨ (a = AnsInherited t
                              ∧ (t = str "constructor"
                                 ∨ t = str "__proto__"))) ->
            forall b : bool,
            (if b then Some (AnsNum n) else o) = Some a ->
            (exists n, a = AnsNum n ∧ (0 <= n <= 3)%Z)
            ∨ (a = AnsInherited t
               ∧ (t = str "constructor" ∨ t = str "__proto__"))).
  { intros n o Hn Ho [|]; [| exact Ho].
    intros [= <-]. left. exists n. auto. }
  do 4 (apply Hnum; [lia |]).
  destruct (bool_decide (t = str "constructor")
            || bool_decide (t = str "__proto__")) eqn:Hinh.
  - intros [= <-]. right. split; [reflexivity |].
    apply orb_true_iff in Hinh as [H | H];
      apply bool_decide_eq_true in H; auto.
  - do 4 (apply Hnum; [lia |]). discriminate.
Qed.

(** X11.  The answer index of a parsed record is one of 0, 1, 2, 3 and
    then leads to one of the four choices of the record, unless the
    trimmed, lower-cased [correct] cell is [constructor] or [__proto__]:
    [toIdx] looks the cell up with [in], which also finds what the
    object literal inherits, so such a row is accepted with an answer
    index that is no number and leads to no choice. *)
Theorem parseCSV_answer_index (text : jsstring) (q : Question) :
  q ∈ parseCSV text ->
  (exists n text', answerIndex q = Some (AnsNum n) ∧ (0 <= n <= 3)%Z
                   ∧ aget (choices q) n = Some text')
  ∨ (exists name, answerIndex q = Some (AnsInherited name)
                  ∧ (name = str "constructor" ∨ name = str "__proto__")).
Proof.
  intros Hin.
  destruct (parseCSV_elem text q Hin) as (r & row & a & _ & Ha & _ & ->).
  cbn [answerIndex choices makeRecord].
  destruct (toIdx_range _ _ Ha) as [(n & -> & Hn) | [-> Hname]].
  - left. exists n.
    destruct (aget_ofList
                [trim (cellOr row (ai (columns (headerOf text))));
                 trim (cellOr row (bi (columns (headerOf text))));
                 trim (cellOr row (ci (columns (headerOf text))));
                 trim (cellOr row (dd (columns (headerOf text))))] n)
      as (x & _ & Hx); [simpl; lia |].
    exists x. auto.
  - right. eexists. split; [reflexivity | exact Hname].
Qed.

Lemma parseCSV_answer_index_witness :
  answerIndex <$> parseCSV sampleCsvInherited
  = [Some (AnsInherited (str "constructor")); Some (AnsNum 3)]
  ∧ ((exists n text',
        answerIndex (hd sampleQuestion (parseCSV sampleCsvInherited))
        = Some (AnsNum n) ∧ (0 <= n <= 3)%Z
        ∧ aget (choices (hd sampleQuestion (parseCSV sampleCsvInherited))) n
          = Some text')
     ∨ (exists name,
          answerIndex (hd sampleQuestion (parseCSV sampleCsvInherited))
          = Some (AnsInherited name)
          ∧ (name = str "constructor" ∨ name = str "__proto__"))).
Proof.
  split; [vm_compute; reflexivity |].
  apply (parseCSV_answer_index sampleCsvInherited
           (hd sampleQuestion (parseCSV sampleCsvInherited))).
  vm_compute. left.
Defined.

Lemma decimal_inj (n m : nat) : decimal n = decimal m -> n = m.
Proof.
  assert (Hnil : forall k, Nat.to_uint k ≠ Decimal.Nil).
  { intros k. rewrite <- (Unsigned.of_to k) at 1.
    rewrite Unsigned.to_of. apply unorm_nonnil. }
  unfold decimal, str. intros H.
  apply (f_equal string_of_list_ascii) in H.
  rewrite !string_of_list_ascii_of_string in H.
  apply (f_equal NilZero.uint_of_string) in H.
  rewrite !NilZero.usu in H by apply Hnil.
  injection H as H. apply Unsigned.to_uint_inj, H.
Qed.

Lemma StronglySorted_lt_NoDup (l : list nat) : StronglySorted lt l -> NoDup l.
Proof.
  induction 1 as [| a l _ IH Hall]; constructor; [| exact IH].
  intros Hin. rewrite Forall_forall in Hall.
  specialize (Hall a Hin). lia.
Qed.

(** X12.  When the header has no [id] column, the ids that [parseCSV]
    makes up, U followed by the position of the row, are pairwise
    distinct, also when rows in between were skipped: no two records of
    the bank share a key of [results] and [flagged]. *)
Theorem parseCSV_default_ids_distinct (text : jsstring) :
  str "id" ∉ headerOf text ->
  NoDup (id <$> parseCSV text).
Proof.
  intros Hno.
  destruct (parseCSV_unfold text) as [[-> _] | ->]; [constructor |].
  destruct (convertFrom_sources (columns (headerOf text)) (dataRows text) 0)
    as (src & Hsorted & _ & Hall & _).
  assert (Hqi : qi (columns (headerOf text)) = (-1)%Z).
  { cbn [qi columns]. apply indexOfFrom_absent, Hno. }
  assert (Hids : id <$> convertFrom (columns (headerOf text)) (dataRows text) 0
                 = (fun r => str "U" ++ decimal (r + 1)) <$> src).
  { induction Hall as [| q r qs rs (row & _ & Hc) _ IH]; [reflexivity |].
    cbn [fmap list_fmap]. f_equal.
    - destruct (convertRow_record _ _ _ _ Hc) as (a & _ & _ & ->).
      cbn [id makeRecord]. rewrite Hqi. reflexivity.
    - apply IH. apply StronglySorted_inv in Hsorted. tauto. }
  rewrite Hids. apply NoDup_fmap_2; [| apply StronglySorted_lt_NoDup, Hsorted].
  intros r1 r2 Heq. apply app_inv_head in Heq.
  apply decimal_inj in Heq. lia.
Qed.

Lemma parseCSV_default_ids_distinct_witness :
  NoDup (id <$> parseCSV sampleCsvInherited)
  ∧ id <$> parseCSV sampleCsvInherited = [str "U1"; str "U2"].
Proof.
  split; [| vm_compute; reflexivity].
  apply (parseCSV_default_ids_distinct sampleCsvInherited).
  vm_compute. intros Hin.
  repeat (apply elem_of_cons in Hin as [Heq | Hin]; [discriminate Heq |]).
  inversion Hin.
Defined.

(** * The quiz engine *)

Section QuizEngineExport.
Import QuizEngine.
Implicit Types (rest cur : jsstring) (row : list jsstring)
  (rows : list (list jsstring)).

Lemma scan_quoteCell c rest rows row cur :
  noQuoteAhead rest ->
  scan (quoteCell c ++ rest) rows row cur false
  = scan rest rows row (cur ++ c) false.
Proof.
  intros Hrest. unfold quoteCell.
  rewrite <- app_comm_cons, <- app_assoc. simpl app.
  rewrite scan_quote_toggle by (left; reflexivity).
  apply scan_quoted, Hrest.
Qed.

Lemma join_cons (sep p p2 : jsstring) (ps : list jsstring) :
  join sep (p :: p2 :: ps) = p ++ sep ++ join sep (p2 :: ps).
Proof. reflexivity. Qed.

Lemma scan_quoted_row (init : list (option jsstring)) :
  forall (lastc : option jsstring) rest rows row,
  noQuoteAhead rest ->
  scan (join [comma]
          (map (fun cell => quoteCell (cellString cell)) (init ++ [lastc]))
        ++ rest) rows row [] false
  = scan rest rows (row ++ map cellString init) (cellString lastc) false.
Proof.
  induction init as [| c init IH]; intros lastc rest rows row Hrest.
  - cbn [app map join].
    rewrite scan_quoteCell by exact Hrest. rewrite app_nil_r. reflexivity.
  - assert (Hnext : exists c2 cs, init ++ [lastc] = c2 :: cs).
    { destruct init as [| c2 init]; simpl; eauto. }
    destruct Hnext as (c2 & cs & Heq).
    rewrite <- app_comm_cons, Heq. cbn [map]. rewrite join_cons.
    rewrite <- !app_assoc.
    rewrite scan_quoteCell by (simpl; discriminate).
    cbn [app]. cbn [scan].
    replace (chEq comma dquote) with false by reflexivity.
    rewrite chEq_refl. simpl negb. simpl andb.
    change (quoteCell (cellString c2)
            :: map (fun cell => quoteCell (cellString cell)) cs)
      with (map (fun cell => quoteCell (cellString cell)) (c2 :: cs)).
    rewrite <- Heq, IH by exact Hrest.
    rewrite <- app_assoc. reflexivity.
Qed.

Lemma scan_csvOf (table : list (list (option jsstring))) : forall acc,
  Forall (fun r => keptRow (map cellString r)) table ->
  scan (csvOf table) acc [] [] false = acc ++ map (map cellString) table.
Proof.
  induction table as [| r table IH]; intros acc Hall.
  - simpl. rewrite app_nil_r. reflexivity.
  - apply Forall_cons in Hall as [Hk Hall].
    assert (Hsnoc : exists init lastc, r = init ++ [lastc]).
    { destruct Hk as (c & Hin & _).
      destruct r as [| x r _] using rev_ind; [inversion Hin | eauto]. }
    destruct Hsnoc as (init & lastc & ->).
    assert (Hk' : keptRow (map cellString init ++ [cellString lastc])).
    { rewrite map_app in Hk. exact Hk. }
    destruct table as [| r2 table].
    + unfold csvOf. cbn [map join].
      rewrite <- (app_nil_r (join _ _)).
      rewrite scan_quoted_row by exact I.
      simpl app. rewrite map_app. cbn [map]. apply scan_end, Hk'.
    + unfold csvOf. cbn [map]. rewrite join_cons.
      rewrite scan_quoted_row by (simpl; discriminate).
      simpl app. rewrite scan_newline by exact Hk'.
      fold (csvOf (r2 :: table)).
      rewrite IH by exact Hall.
      rewrite <- app_assoc, map_app. reflexivity.
Qed.

End QuizEngineExport.

(** X13.  The export of the quiz engine is read back by the tokenizer as
    it was written: the header and then one row of five cells for every
    question, in order, with every cell as [exportCSV] wrote it, whatever
    the cells hold (quotes, commas, line feeds, carriage returns), as
    long as no question has an empty text.  A cell that was [undefined],
    for a chosen or correct index outside the choices, reads back as the
    word undefined. *)
Theorem exportCSV_reads_back (questions : list QuizEngine.Q)
    (s : QuizEngine.State) :
  Forall (fun q => QuizEngine.question q ≠ []) questions ->
  parseCSVStream (QuizEngine.exportCSV questions s)
  = QuizEngine.exportHeader
    :: map (fun q => map QuizEngine.cellString (QuizEngine.exportRow s q))
         questions.
Proof.
  intros Hq. unfold parseCSVStream, QuizEngine.exportCSV.
  rewrite scan_csvOf.
  - cbn [map app]. f_equal. apply List.map_map.
  - constructor.
    + exists (str "Question"). split; [left | discriminate].
    + apply Forall_forall. intros r Hr.
      apply list_elem_of_In, in_map_iff in Hr as (q & <- & Hin).
      rewrite Forall_forall in Hq.
      exists (QuizEngine.question q). split; [left |].
      apply Hq, list_elem_of_In, Hin.
Qed.

Lemma exportCSV_reads_back_witness :
  parseCSVStream
    (QuizEngine.exportCSV QuizEngine.sampleQuestions sampleAnswered)
  = QuizEngine.exportHeader
    :: map (fun q => map QuizEngine.cellString
                       (QuizEngine.exportRow sampleAnswered q))
         QuizEngine.sampleQuestions.
Proof.
  apply exportCSV_reads_back.
  repeat constructor; discriminate.
Defined.

Section QuizEngineFacts.
Import QuizEngine.
Variable questions : list Q.

Lemma clamp_range (n hi : Z) : (0 <= clamp n 0 hi <= Z.max 0 hi)%Z.
Proof. unfold clamp. lia. Qed.

Lemma step_idx_range (s s' : State) (ev : Event) :
  (0 <= idx s <= Z.max 0 (total questions - 1))%Z ->
  step questions s ev = Some s' ->
  (0 <= idx s' <= Z.max 0 (total questions - 1))%Z.
Proof.
  intros Hs Hstep.
  destruct ev; cbn in Hstep;
    try (injection Hstep as <-; cbn [idx]; first [exact Hs | apply clamp_range | lia]).
  - unfold toggleEliminate in Hstep. destruct (current questions s) as [cur |].
    + cbn in Hstep. destruct (eliminatedOf _ _); [| discriminate].
      cbn in Hstep. injection Hstep as <-. exact Hs.
    + cbn in Hstep. injection Hstep as <-. exact Hs.
  - unfold choose in Hstep. destruct (current questions s) as [cur |];
      cbn in Hstep; injection Hstep as <-; exact Hs.
Qed.

Lemma run_idx_range (evs : list Event) : forall s s' : State,
  (0 <= idx s <= Z.max 0 (total questions - 1))%Z ->
  run questions s evs = Some s' ->
  (0 <= idx s' <= Z.max 0 (total questions - 1))%Z.
Proof.
  induction evs as [| ev evs IH]; intros s s' Hs Hrun.
  - injection Hrun as <-. exact Hs.
  - cbn [run] in Hrun. destruct (step questions s ev) as [s1 |] eqn:Hstep;
      [| discriminate].
    apply (IH s1 s'); [| exact Hrun].
    apply (step_idx_range s s1 ev Hs Hstep).
Qed.

Lemma newSetFrom_elem (l : list Z) : forall (acc : list Z) (x : Z),
  x ∈ newSetFrom l acc <-> x ∈ acc ∨ x ∈ l.
Proof.
  induction l as [| y l IH]; intros acc x; cbn [newSetFrom].
  - rewrite elem_of_nil. tauto.
  - case_bool_decide as Hy; rewrite IH, elem_of_cons.
    + split; [tauto |]. intros [H | [-> | H]]; auto.
    + rewrite elem_of_app, list_elem_of_singleton. tauto.
Qed.

Lemma newSetFrom_NoDup (l : list Z) : forall acc : list Z,
  NoDup acc -> NoDup (newSetFrom l acc).
Proof.
  induction l as [| y l IH]; intros acc Hacc; cbn [newSetFrom];
    [exact Hacc |].
  case_bool_decide as Hy; apply IH; [exact Hacc |].
  apply NoDup_app. split; [exact Hacc |]. split; [| apply NoDup_singleton].
  intros x Hx Hx'. apply list_elem_of_singleton in Hx'. subst x. contradiction.
Qed.

Lemma toggled_spec (l : list Z) (c : Z) :
  NoDup (toggled l c)
  ∧ forall x, x ∈ toggled l c <-> (x ≠ c ∧ x ∈ l) ∨ (x = c ∧ c ∉ l).
Proof.
  assert (Hset : forall x, x ∈ newSet l <-> x ∈ l).
  { intros x. unfold newSet. rewrite newSetFrom_elem, elem_of_nil. tauto. }
  assert (Hnd : NoDup (newSet l)).
  { apply newSetFrom_NoDup. constructor. }
  unfold toggled, setHas, setAdd, setDelete, setHas.
  case_bool_decide as Hc.
  - split; [apply NoDup_ListNoDup, List.NoDup_filter, NoDup_ListNoDup, Hnd |].
    intros x. rewrite list_elem_of_In, filter_In, <- list_elem_of_In, Hset.
    rewrite negb_true_iff, Z.eqb_neq. apply Hset in Hc. tauto.
  - split.
    + apply NoDup_app. split; [exact Hnd |].
      split; [| apply NoDup_singleton].
      intros x Hx Hx'. apply list_elem_of_singleton in Hx'. subst x.
      contradiction.
    + intros x. rewrite elem_of_app, list_elem_of_singleton, Hset.
      rewrite Hset in Hc. destruct (decide (x = c)) as [-> | Hne]; tauto.
Qed.

Lemma step_toggleEliminate (s : State) (q : Q) (c : Z) :
  current questions s = Some q ->
  step questions s (ToggleEliminate c)
  = (fun l => mkState (idx s) (started s) (mode s) (answers s)
                (<[id q := toggled l c]> (eliminated s)))
    <$> eliminatedOf (eliminated s) (id q).
Proof.
  intros Hcur. cbn [step]. unfold toggleEliminate. rewrite Hcur.
  cbn. destruct (eliminatedOf (eliminated s) (id q)); reflexivity.
Qed.

End QuizEngineFacts.

(** X14.  However the engine is driven (starting, resetting, choosing,
    eliminating, Next, Prev, the exam timer going off, in any order and
    any number of times), the index stays on a question: with a
    question list that is not empty, every state reached from the first
    render has a current question. *)
Theorem navigation_keeps_current_question (questions : list QuizEngine.Q)
    (evs : list QuizEngine.Event) (s' : QuizEngine.State) :
  questions ≠ [] ->
  QuizEngine.run questions QuizEngine.initial evs = Some s' ->
  (0 <= QuizEngine.idx s' < QuizEngine.total questions)%Z
  ∧ is_Some (QuizEngine.current questions s').
Proof.
  intros Hne Hrun.
  assert (Htotal : (0 < QuizEngine.total questions)%Z).
  { unfold QuizEngine.total. destruct questions; [contradiction | simpl; lia]. }
  assert (Hrange : (0 <= QuizEngine.idx s'
                    <= Z.max 0 (QuizEngine.total questions - 1))%Z).
  { apply (run_idx_range questions evs QuizEngine.initial s'); [| exact Hrun].
    cbn [QuizEngine.idx QuizEngine.initial]. lia. }
  split; [lia |].
  unfold QuizEngine.current, at_.
  destruct (QuizEngine.idx s' <? 0)%Z eqn:Hneg; [lia |].
  apply lookup_lt_is_Some. unfold QuizEngine.total in *. lia.
Qed.

Lemma navigation_keeps_current_question_witness :
  exists s',
    QuizEngine.run QuizEngine.sampleQuestions QuizEngine.initial
      [QuizEngine.StartExam; QuizEngine.Choose 1; QuizEngine.Timeout;
       QuizEngine.Next; QuizEngine.Next; QuizEngine.Prev] = Some s'
    ∧ (0 <= QuizEngine.idx s'
       < QuizEngine.total QuizEngine.sampleQuestions)%Z
    ∧ is_Some (QuizEngine.current QuizEngine.sampleQuestions s').
Proof.
  eexists. split; [vm_compute; reflexivity |].
  apply (navigation_keeps_current_question QuizEngine.sampleQuestions
           [QuizEngine.StartExam; QuizEngine.Choose 1; QuizEngine.Timeout;
            QuizEngine.Next; QuizEngine.Next; QuizEngine.Prev]).
  - discriminate.
  - vm_compute. reflexivity.
Defined.

(** X15.  [toggleEliminate] flips one choice of the current question and
    nothing else: afterwards the choice is in the question's list of
    eliminated choices exactly when it was not before, every other
    choice is in it exactly when it was before, the list has no
    duplicates, the lists of the other questions, the index and the
    answers are as they were.  The exception is a question whose id is a
    name every object inherits (constructor, toString, ...) and that has
    no list yet: the updater hands the inherited member to [new Set],
    which throws. *)
Theorem toggleEliminate_flips_choice (questions : list QuizEngine.Q)
    (s : QuizEngine.State) (q : QuizEngine.Q) (c : Z) :
  QuizEngine.current questions s = Some q ->
  match QuizEngine.eliminatedOf (QuizEngine.eliminated s) (QuizEngine.id q)
  with
  | Some l =>
      l = default [] (QuizEngine.eliminated s !! QuizEngine.id q)
      ∧ exists s' l',
          QuizEngine.step questions s (QuizEngine.ToggleEliminate c) = Some s'
          ∧ QuizEngine.eliminated s' !! QuizEngine.id q = Some l'
          ∧ NoDup l'
          ∧ (forall x, x ∈ l' <-> (x ≠ c ∧ x ∈ l) ∨ (x = c ∧ c ∉ l))
          ∧ (forall k, k ≠ QuizEngine.id q ->
               QuizEngine.eliminated s' !! k = QuizEngine.eliminated s !! k)
          ∧ QuizEngine.idx s' = QuizEngine.idx s
          ∧ QuizEngine.answers s' = QuizEngine.answers s
  | None =>
      QuizEngine.id q ∈ App.inheritedNames
      ∧ QuizEngine.eliminated s !! QuizEngine.id q = None
      ∧ QuizEngine.step questions s (QuizEngine.ToggleEliminate c) = None
  end.
Proof.
  intros Hcur.
  rewrite (step_toggleEliminate questions s q c Hcur).
  unfold QuizEngine.eliminatedOf.
  destruct (QuizEngine.eliminated s !! QuizEngine.id q) as [l |] eqn:Hown.
  - split; [reflexivity |].
    destruct (toggled_spec l c) as [Hnd Hmem].
    eexists. exists (QuizEngine.toggled l c).
    split; [cbn; reflexivity |]. cbn [QuizEngine.eliminated].
    split; [apply lookup_insert_eq |].
    split; [exact Hnd |]. split; [exact Hmem |].
    split; [| split; reflexivity].
    intros k Hk. apply lookup_insert_ne. congruence.
  - case_bool_decide as Hinh.
    + split; [exact Hinh |]. split; reflexivity.
    + split; [reflexivity |].
      destruct (toggled_spec [] c) as [Hnd Hmem].
      eexists. exists (QuizEngine.toggled [] c).
      split; [cbn; reflexivity |]. cbn [QuizEngine.eliminated].
      split; [apply lookup_insert_eq |].
      split; [exact Hnd |]. split; [exact Hmem |].
      split; [| split; reflexivity].
      intros k Hk. apply lookup_insert_ne. congruence.
Qed.

Lemma toggleEliminate_flips_choice_witness :
  exists s',
    QuizEngine.step QuizEngine.sampleQuestions sampleAnswered
      (QuizEngine.ToggleEliminate 2) = Some s'
    ∧ QuizEngine.eliminated s' !! str "q2" = Some [2%Z]
    ∧ QuizEngine.eliminated s' !! str "q1" = Some [0; 2]%Z.
Proof.
  pose proof (toggleEliminate_flips_choice QuizEngine.sampleQuestions
                sampleAnswered
                (QuizEngine.mkQ (str "q2")
                   (str "Which artifact tracks benefits?")
                   [str "Stakeholder register";
                    str "Benefits management plan";
                    str "Project charter"; str "Issue log"] 1
                   (Some (str "Business Value")))
                2 eq_refl) as H.
  assert (E : QuizEngine.eliminatedOf (QuizEngine.eliminated sampleAnswered)
                (str "q2") = Some []) by (vm_compute; reflexivity).
  cbn [QuizEngine.id] in H. rewrite E in H.
  destruct H as (_ & s' & l' & Hstep & _).
  exists s'. split; [exact Hstep |].
  vm_compute in Hstep. injection Hstep as <-.
  split; vm_compute; reflexivity.
Defined.

Section QuizEngineCount.
Import QuizEngine.

Lemma fold_left_add {A} (f : A -> Z) (l : list A) : forall a : Z,
  fold_left (fun acc e => (acc + f e)%Z) l a
  = (a + foldr (fun e acc => (f e + acc)%Z) 0%Z l)%Z.
Proof.
  induction l as [| e l IH]; intros a; cbn [fold_left foldr]; [lia |].
  rewrite IH. lia.
Qed.

Lemma foldr_add_perm {A} (f : A -> Z) (l l' : list A) :
  l ≡ₚ l' ->
  foldr (fun e acc => (f e + acc)%Z) 0%Z l
  = foldr (fun e acc => (f e + acc)%Z) 0%Z l'.
Proof.
  induction 1; cbn [foldr]; lia.
Qed.

Lemma filter_none {A} (p : A -> bool) (l : list A) :
  (forall x, x ∈ l -> p x = false) -> List.filter p l = [].
Proof.
  induction l as [| x l IH]; intros H; [reflexivity |].
  cbn [List.filter]. rewrite (H x) by left.
  apply IH. intros y Hy. apply H. right. exact Hy.
Qed.

Lemma scoreEntry_count (qs : list Q) (i : jsstring) (x : Z) :
  NoDup (id <$> qs) ->
  scoreEntry qs (i, x)
  = Z.of_nat (length (List.filter
                        (fun q => bool_decide (id q = i)
                                  && (answerIndex q =? x)%Z) qs)).
Proof.
  unfold scoreEntry. cbn [fst snd].
  induction qs as [| q qs IH]; intros Hnd; [reflexivity |].
  rewrite fmap_cons in Hnd. apply NoDup_cons in Hnd as [Hq Hnd].
  cbn [List.find List.filter].
  case_bool_decide as Hi.
  - rewrite andb_true_l.
    rewrite (filter_none _ qs).
    + destruct (answerIndex q =? x)%Z; reflexivity.
    + intros q' Hq'. rewrite bool_decide_eq_false_2; [reflexivity |].
      intros Heq. apply Hq. rewrite Hi, <- Heq.
      apply list_elem_of_fmap. eauto.
  - rewrite andb_false_l. apply IH, Hnd.
Qed.

Lemma count_insert (qs : list Q) (m : gmap jsstring Z) (i : jsstring)
    (x : Z) :
  m !! i = None ->
  length (List.filter
            (fun q => bool_decide (<[i := x]> m !! id q
                                   = Some (answerIndex q))) qs)
  = length (List.filter
              (fun q => bool_decide (m !! id q = Some (answerIndex q))) qs)
    + length (List.filter
                (fun q => bool_decide (id q = i) && (answerIndex q =? x)%Z)
                qs).
Proof.
  intros Hi. induction qs as [| q qs IH]; [reflexivity |].
  cbn [List.filter].
  destruct (decide (id q = i)) as [Heq | Hne].
  - rewrite (bool_decide_eq_true_2 (id q = i)) by exact Heq.
    rewrite andb_true_l, Heq, lookup_insert_eq, Hi.
    rewrite (bool_decide_eq_false_2 (None = _)) by discriminate.
    destruct (answerIndex q =? x)%Z eqn:Hx.
    + apply Z.eqb_eq in Hx. subst x.
      rewrite bool_decide_eq_true_2 by reflexivity.
      cbn [length]. rewrite IH. lia.
    + apply Z.eqb_neq in Hx.
      rewrite bool_decide_eq_false_2 by congruence.
      exact IH.
  - rewrite (bool_decide_eq_false_2 (id q = i)) by exact Hne.
    rewrite andb_false_l, lookup_insert_ne by congruence.
    destruct (bool_decide (m !! id q = Some (answerIndex q)));
      cbn [length]; rewrite IH; lia.
Qed.

End QuizEngineCount.

(** X16.  When the questions have pairwise distinct ids, [correctCount]
    is the number of questions whose recorded answer is their
    [answerIndex]: answers recorded under an id that no question has
    count for nothing, and the order of the entries does not matter. *)
Theorem correctCount_counts_correct_answers (questions : list QuizEngine.Q)
    (s : QuizEngine.State) :
  NoDup (QuizEngine.id <$> questions) ->
  QuizEngine.correctCount questions s
  = Z.of_nat
      (length
         (List.filter
            (fun q => bool_decide (QuizEngine.answers s !! QuizEngine.id q
                                   = Some (QuizEngine.answerIndex q)))
            questions)).
Proof.
  intros Hnd. unfold QuizEngine.correctCount.
  rewrite fold_left_add, Z.add_0_l.
  generalize (QuizEngine.answers s). intros m.
  induction m as [| i x m Hi _ IH] using map_first_key_ind.
  - rewrite map_to_list_empty. cbn [foldr].
    rewrite filter_none; [reflexivity |].
    intros q _. rewrite lookup_empty.
    apply bool_decide_eq_false_2. discriminate.
  - rewrite (foldr_add_perm _ _ _ (map_to_list_insert m i x Hi)).
    cbn [foldr]. rewrite IH, count_insert by exact Hi.
    rewrite (scoreEntry_count questions i x Hnd). lia.
Qed.

Lemma correctCount_counts_correct_answers_witness :
  QuizEngine.correctCount QuizEngine.sampleQuestions sampleAnswered
  = Z.of_nat
      (length
         (List.filter
            (fun q => bool_decide
                        (QuizEngine.answers sampleAnswered !! QuizEngine.id q
                         = Some (QuizEngine.answerIndex q)))
            QuizEngine.sampleQuestions))
  ∧ QuizEngine.correctCount QuizEngine.sampleQuestions sampleAnswered = 1%Z.
Proof.
  split; [| vm_compute; reflexivity].
  apply correctCount_counts_correct_answers.
  vm_compute. repeat constructor.
  - intros Hin. apply list_elem_of_singleton in Hin. discriminate Hin.
  - intros Hin. inversion Hin.
Defined.

(** * The v2.1 trainer *)

Lemma newSet_elem (l : list Z) (x : Z) : x ∈ newSet l <-> x ∈ l.
Proof. unfold newSet. rewrite newSetFrom_elem, elem_of_nil. tauto. Qed.

Lemma filter_empty_or_witness {A} (p : A -> bool) (l : list A) :
  (List.filter p l = [] ∧ forall x, x ∈ l -> p x = false)
  ∨ (List.filter p l ≠ [] ∧ exists x, x ∈ l ∧ p x = true).
Proof.
  induction l as [| y l IH]; [left; split; [reflexivity |] |].
  - intros x Hx. inversion Hx.
  - cbn [List.filter]. destruct (p y) eqn:Hy.
    + right. split; [discriminate |]. exists y. split; [left | exact Hy].
    + destruct IH as [[Hnil Hall] | [Hne (x & Hx & Hpx)]].
      * left. split; [exact Hnil |]. intros x Hx.
        apply elem_of_cons in Hx as [-> | Hx]; auto.
      * right. split; [exact Hne |]. exists x. split; [right |]; assumption.
Qed.

Lemma scoreMulti_same_elements (selection correct : list Z) :
  (forall i, i ∈ selection <-> i ∈ correct) ->
  (V21.scoreMulti selection correct).1 = true.
Proof.
  intros Hsame. unfold V21.scoreMulti. cbn [fst].
  rewrite !filter_none; [reflexivity | |].
  - intros i Hi. apply negb_false_iff, bool_decide_eq_true.
    apply newSet_elem, Hsame, newSet_elem, Hi.
  - intros i Hi. apply negb_false_iff, bool_decide_eq_true.
    apply newSet_elem, Hsame, newSet_elem, Hi.
Qed.

(** X17.  [scoreMulti] compares the selection and the correct indices as
    sets: the verdict is correct exactly when both hold the same
    elements, whatever their order and however often an element is
    repeated.  Otherwise the message asks to remove wrong choices as soon
    as one selected element is not correct, and to select the remaining
    correct choices only when everything selected is correct and
    something correct is missing. *)
Theorem scoreMulti_compares_sets (selection correct : list Z) :
  ((forall i, i ∈ selection <-> i ∈ correct)
   ∧ V21.scoreMulti selection correct = (true, str "Correct"))
  ∨ ((exists i, i ∈ selection ∧ i ∉ correct)
     ∧ V21.scoreMulti selection correct
       = (false, str "Keep trying: remove wrong choices."))
  ∨ ((forall i, i ∈ selection -> i ∈ correct)
     ∧ (exists i, i ∈ correct ∧ i ∉ selection)
     ∧ V21.scoreMulti selection correct
       = (false, str "Keep trying: select remaining correct choices.")).
Proof.
  unfold V21.scoreMulti.
  destruct (filter_empty_or_witness
              (fun i => negb (setHas (newSet correct) i))
              (newSet selection))
    as [[-> Hsel] | [Hne (x & Hx & Hpx)]].
  - destruct (filter_empty_or_witness
                (fun i => negb (setHas (newSet selection) i))
                (newSet correct))
      as [[-> Hcor] | [Hne (x & Hx & Hpx)]].
    + left. split; [| reflexivity].
      intros i. split; intros Hi.
      * apply newSet_elem in Hi. specialize (Hsel i Hi).
        apply negb_false_iff, bool_decide_eq_true in Hsel.
        apply newSet_elem, Hsel.
      * apply newSet_elem in Hi. specialize (Hcor i Hi).
        apply negb_false_iff, bool_decide_eq_true in Hcor.
        apply newSet_elem, Hcor.
    + right. right. split; [| split].
      * intros i Hi. apply newSet_elem in Hi. specialize (Hsel i Hi).
        apply negb_false_iff, bool_decide_eq_true in Hsel.
        apply newSet_elem, Hsel.
      * exists x. split; [apply newSet_elem, Hx |].
        apply negb_true_iff, bool_decide_eq_false in Hpx.
        rewrite newSet_elem in Hpx. exact Hpx.
      * destruct (List.filter _ (newSet correct)); [contradiction |].
        reflexivity.
  - right. left. split.
    + exists x. split; [apply newSet_elem, Hx |].
      apply negb_true_iff, bool_decide_eq_false in Hpx.
      rewrite newSet_elem in Hpx. exact Hpx.
    + destruct (List.filter _ (newSet selection)); [contradiction |].
      reflexivity.
Qed.

Lemma trim_head (s : jsstring) : headNotSpace (trim s).
Proof.
  unfold trim. set (a := trimStart s).
  assert (Ha : headNotSpace a) by apply trimStart_head.
  unfold trimEnd.
  destruct (trimStart_suffix (rev a)) as [w Hw].
  assert (Hsplit : a = rev (trimStart (rev a)) ++ rev w).
  { rewrite <- rev_app_distr, <- Hw, rev_involutive. reflexivity. }
  destruct (rev (trimStart (rev a))) as [| c b]; [exact I |].
  rewrite Hsplit in Ha. exact Ha.
Qed.

Lemma removeSpaces_digits (d : Decimal.uint) :
  V21.removeSpaces (str (NilEmpty.string_of_uint d))
  = str (NilEmpty.string_of_uint d).
Proof.
  unfold V21.removeSpaces, str.
  induction d; cbn; [reflexivity | f_equal; exact IHd ..].
Qed.

Lemma removeSpaces_decimal (n : nat) :
  V21.removeSpaces (decimal n) = decimal n.
Proof.
  unfold decimal, NilZero.string_of_uint.
  destruct (Nat.to_uint n); first [reflexivity | apply removeSpaces_digits].
Qed.

Lemma makeRecord_compact (c : Columns) (row : list jsstring) (r : nat)
    (a : AnswerIndex) (dom : jsstring) :
  V21.makeRecord c row (S r) a dom = compactId (makeRecord c row r a dom).
Proof.
  unfold V21.makeRecord, makeRecord, compactId. cbn [id domain question
    choices answerIndex explanation reference item_type correct_index prompt].
  f_equal.
  set (given := if (0 <=? qi c)%Z then trim (cellOr row (qi c)) else []).
  assert (Hhead : headNotSpace given).
  { unfold given. destruct (0 <=? qi c)%Z; [apply trim_head | exact I]. }
  destruct given as [| ch given'].
  - replace (r + 1) with (S r) by lia.
    change (str "U" ++ decimal (S r)
            = V21.removeSpaces (str "U" ++ decimal (S r))).
    unfold V21.removeSpaces. rewrite List.filter_app.
    fold (V21.removeSpaces (decimal (S r))).
    rewrite removeSpaces_decimal. reflexivity.
  - simpl in Hhead. unfold V21.removeSpaces. cbn [List.filter isEmpty].
    rewrite Hhead. reflexivity.
Qed.

Lemma loop_convertFrom (c : Columns) (rows : list (list jsstring)) :
  forall (r : nat) (out : list Question),
  V21.loop c rows (S r) out = out ++ (compactId <$> convertFrom c rows r).
Proof.
  induction rows as [| row rows IH]; intros r out.
  - cbn. rewrite app_nil_r. reflexivity.
  - cbn [V21.loop convertFrom]. unfold convertRow.
    destruct (blankRow row); [apply IH |].
    destruct (toIdx _) as [a |]; [| apply IH].
    case_bool_decide; [| apply IH].
    rewrite IH, fmap_cons, makeRecord_compact, <- app_assoc. reflexivity.
Qed.

(** X18.  The CSV reader of the v2.1 trainer accepts the same rows as
    [parseCSV], in the same order, and builds the same records, except
    that it takes all white space out of an id: the two results differ
    by [compactId] only.  In particular the row numbers in the made-up
    ids agree, although one reader counts the rows from 1 and the other
    one from 0 and adds 1. *)
Theorem v21_parseCSV_agrees (text : jsstring) :
  V21.parseCSV text = compactId <$> parseCSV text.
Proof.
  unfold V21.parseCSV, parseCSV.
  destruct (parseCSVStream text) as [| hrow body]; [reflexivity |].
  destruct (existsb _ _); [reflexivity |].
  cbn [drop]. rewrite drop_0.
  rewrite loop_convertFrom, reduceFrom_reducer. reflexivity.
Qed.

(** The ids the two readers give the rows of a text with white space in
    its id cells. *)
Example v21_parseCSV_ids :
  id <$> parseCSV sampleCsvSpacedIds = [str "Q 1"; str "U2"]
  ∧ id <$> V21.parseCSV sampleCsvSpacedIds = [str "Q1"; str "U2"].
Proof. split; vm_compute; reflexivity. Qed.

(** * The older [App.jsx] *)

Section LegacyAppFacts.
Import LegacyApp.

(** Wrong answers in practice mode only clear [firstTry] and grey the
    choices out. *)
Lemma run_misses (q : Question) (misses : list Z) : forall s : State,
  practiceMode s = true ->
  current s = Some q ->
  Forall (fun c => answerIndex q ≠ Some (AnsNum c)) misses ->
  run s misses
  = Some (mkState (sessionQuestions s) (currentIdx s) true
            (firstTry s && bool_decide (misses = []))
            (disabledChoices s ++ misses) (results s) (started s)
            (finished s) (showInterstitial s)).
Proof.
  induction misses as [| c misses IH]; intros s Hmode Hcur Hall.
  - cbn [run]. rewrite app_nil_r, andb_true_r. destruct s. cbn in *.
    rewrite Hmode. reflexivity.
  - apply Forall_cons in Hall as [Hc Hall].
    cbn [run]. unfold handleAnswer. rewrite Hcur, Hmode.
    rewrite bool_decide_eq_false_2 by exact Hc.
    rewrite IH.
    + rewrite (bool_decide_eq_false_2 (c :: misses = [])) by discriminate.
      rewrite andb_false_r.
      destruct (firstTry s) eqn:Hf; cbn;
        rewrite ?Hf, <- app_assoc, ?andb_false_l; reflexivity.
    + destruct (firstTry s); cbn; exact Hmode.
    + destruct (firstTry s); cbn; exact Hcur.
    + exact Hall.
Qed.

End LegacyAppFacts.

(** X19.  In practice mode the older app records the first try as it
    happened: when a question is answered with any number of wrong
    choices and then the right one, its entry in [results] holds the
    right choice and [firstTry] is true exactly when no wrong choice
    came before.  The wrong choices leave [results] alone, the entries of
    the other questions are kept, and the session moves on by one
    question (with [firstTry] and the greyed-out choices reset) or, at
    the last question, ends. *)
Theorem legacy_practice_records_first_try (s : LegacyApp.State)
    (q : Question) (a : Z) (misses : list Z) :
  LegacyApp.practiceMode s = true ->
  LegacyApp.firstTry s = true ->
  LegacyApp.current s = Some q ->
  answerIndex q = Some (AnsNum a) ->
  Forall (fun c => c ≠ a) misses ->
  exists s',
    LegacyApp.run s (misses ++ [a]) = Some s'
    ∧ LegacyApp.results s'
      = <[id q := LegacyApp.mkAnswer a (Some (bool_decide (misses = [])))]>
          (LegacyApp.results s)
    ∧ (if (Z.of_nat (length (LegacyApp.sessionQuestions s))
           <=? LegacyApp.currentIdx s + 1)%Z
       then LegacyApp.finished s' = true ∧ LegacyApp.started s' = false
            ∧ LegacyApp.currentIdx s' = LegacyApp.currentIdx s
       else LegacyApp.currentIdx s' = (LegacyApp.currentIdx s + 1)%Z
            ∧ LegacyApp.firstTry s' = true
            ∧ LegacyApp.disabledChoices s' = []
            ∧ LegacyApp.finished s' = LegacyApp.finished s).
Proof.
  intros Hmode Hfirst Hcur Hans Hmiss.
  assert (Hrun : forall s0 l1 l2 s1,
            LegacyApp.run s0 l1 = Some s1 ->
            LegacyApp.run s0 (l1 ++ l2) = LegacyApp.run s1 l2).
  { intros s0 l1. revert s0.
    induction l1 as [| c l1 IH]; intros s0 l2 s1 H.
    - injection H as <-. reflexivity.
    - cbn [LegacyApp.run app] in *.
      destruct (LegacyApp.handleAnswer s0 c); [| discriminate].
      apply IH, H. }
  assert (Hmiss' : Forall (fun c => answerIndex q ≠ Some (AnsNum c)) misses).
  { apply Forall_forall. intros c Hc. rewrite Forall_forall in Hmiss.
    rewrite Hans. intros [= Heq]. apply (Hmiss c Hc). congruence. }
  eexists. split.
  - rewrite (Hrun s misses [a] _ (run_misses q misses s Hmode Hcur Hmiss')).
    cbn [LegacyApp.run]. unfold LegacyApp.handleAnswer.
    unfold LegacyApp.current in *. cbn [LegacyApp.sessionQuestions
      LegacyApp.currentIdx LegacyApp.practiceMode]. rewrite Hcur.
    rewrite (bool_decide_eq_true_2 (answerIndex q = Some (AnsNum a)))
      by exact Hans.
    reflexivity.
  - unfold LegacyApp.nextQuestion.
    cbn [LegacyApp.sessionQuestions LegacyApp.currentIdx LegacyApp.firstTry].
    rewrite Hfirst, andb_true_l.
    destruct (Z.of_nat (length (LegacyApp.sessionQuestions s))
              <=? LegacyApp.currentIdx s + 1)%Z.
    + cbn. auto.
    + destruct ((LegacyApp.currentIdx s + 1) mod 10 =? 0)%Z; cbn; auto.
Qed.

Lemma legacy_practice_records_first_try_witness :
  exists s',
    LegacyApp.run sampleLegacySession [1; 3; 0]%Z = Some s'
    ∧ LegacyApp.results s'
      = <[str "Q1" := LegacyApp.mkAnswer 0 (Some false)]> ∅
    ∧ LegacyApp.currentIdx s' = 1%Z
    ∧ LegacyApp.firstTry s' = true.
Proof.
  destruct (legacy_practice_records_first_try sampleLegacySession
              (hd sampleQuestion sampleBank) 0 [1; 3]%Z)
    as (s' & Hrun & Hres & Hnext).
  - reflexivity.
  - reflexivity.
  - vm_compute. reflexivity.
  - vm_compute. reflexivity.
  - repeat constructor; discriminate.
  - exists s'. split; [exact Hrun |].
    split; [rewrite Hres; vm_compute; reflexivity |].
    vm_compute in Hnext. tauto.
Defined.

(** * The session handlers of the v2.1 trainer *)

Lemma sortInsert_perm (x : Z) (l : list Z) : sortInsert x l ≡ₚ x :: l.
Proof.
  induction l as [| y l IH]; [reflexivity |].
  cbn [sortInsert]. destruct (strLtb _ _); [| reflexivity].
  rewrite IH. apply Permutation_swap.
Qed.

Lemma sortDefault_perm (l : list Z) : sortDefault l ≡ₚ l.
Proof.
  induction l as [| x l IH]; [reflexivity |].
  cbn [sortDefault foldr]. fold (sortDefault l).
  rewrite sortInsert_perm, IH. reflexivity.
Qed.

Lemma sortDefault_elem (l : list Z) (x : Z) : x ∈ sortDefault l <-> x ∈ l.
Proof. rewrite sortDefault_perm. reflexivity. Qed.

Lemma sortDefault_nil (l : list Z) : sortDefault l = [] <-> l = [].
Proof.
  split; [| intros ->; reflexivity].
  intros H. apply Permutation_nil_r. rewrite <- H.
  symmetry. apply sortDefault_perm.
Qed.

Section V21AppFacts.
Import V21App.

(** Through a permutation [idxs] of 0..3, the choice at the position of
    [ci] in [idxs] is the old choice at [ci]. *)
Lemma imap_choice (idxs : jsarray Z) (cs : list (option jsstring)) (ci : Z) :
  items idxs ≡ₚ [Some 0; Some 1; Some 2; Some 3]%Z ->
  length cs = 4 ->
  (0 <= ci < 4)%Z ->
  (0 <= indexOf (items idxs) (Some ci) < 4)%Z
  ∧ choiceAt (imap (fun i _ => choiceAt cs (aget idxs (Z.of_nat i))) cs)
      (Some (indexOf (items idxs) (Some ci)))
    = choiceAt cs (Some ci).
Proof.
  intros Hp Hlen Hci.
  assert (Hin : Some ci ∈ items idxs).
  { rewrite Hp. assert (ci = 0 ∨ ci = 1 ∨ ci = 2 ∨ ci = 3)%Z as Hc by lia.
    clear Hci. destruct Hc as [-> | [-> | [-> | ->]]]; set_solver. }
  destruct (indexOf_spec (items idxs) (Some ci) Hin) as (k & Hk & Hl).
  pose proof (lookup_lt_Some _ _ _ Hl) as Hlt.
  rewrite (Permutation_length Hp) in Hlt. simpl in Hlt.
  rewrite Hk. split; [lia |].
  assert (Hget : aget idxs (Z.of_nat k) = Some ci).
  { unfold aget. destruct (Z.ltb_spec (Z.of_nat k) 0); [lia |].
    rewrite Nat2Z.id, Hl. reflexivity. }
  destruct (lookup_lt_is_Some_2 cs k) as [c Hc]; [lia |].
  cbn [choiceAt]. unfold at_ at 1.
  destruct (Z.ltb_spec (Z.of_nat k) 0); [lia |].
  rewrite Nat2Z.id, list_lookup_imap, Hc. cbn. rewrite Hget. reflexivity.
Qed.

End V21AppFacts.

(** X20.  [beginSession] keeps a multi-select item aligned: for an item
    with four choices whose correct indices lie in 0..3, whatever order
    is drawn, the new correct indices again lie in 0..3 and the texts
    they lead to in the permuted choices are the texts the old correct
    indices led to (as many, up to order). *)
Theorem permuteItem_multi_keeps_correct_texts (q : V21App.Item)
    (cs : list (option jsstring)) (cor : list Z) (e : Entropy) :
  V21App.item_type q = Some (str "multi") ->
  V21App.choices q = Some cs ->
  length cs = 4 ->
  V21App.correct_indices q = Some cor ->
  Forall (fun ci => (0 <= ci < 4)%Z) cor ->
  exists q' cs' cor',
    V21App.permuteItem q e = Some q'
    ∧ V21App.choices q' = Some cs'
    ∧ V21App.correct_indices q' = Some cor'
    ∧ length cs' = 4
    ∧ Forall (fun ci => (0 <= ci < 4)%Z) cor'
    ∧ (fun ci => V21App.choiceAt cs' (Some ci)) <$> cor'
      ≡ₚ (fun ci => V21App.choiceAt cs (Some ci)) <$> cor.
Proof.
  intros Htype Hcs Hlen Hcor Hrange.
  unfold V21App.permuteItem, randomBelow, Math_random. rewrite Htype.
  replace (strEq (str "multi") (str "single") || strEq (str "multi") (str "multi"))
    with true by reflexivity.
  cbv beta iota zeta.
  set (idxs := shuffle _ _ _).
  assert (Hp : items idxs ≡ₚ [Some 0; Some 1; Some 2; Some 3]%Z)
    by apply shuffle_perm.
  clearbody idxs.
  unfold V21App.remapItem. rewrite Htype, Hcs, Hcor.
  replace (strEq (str "multi") (str "single") || strEq (str "multi") (str "multi"))
    with true by reflexivity.
  replace (strEq (str "multi") (str "multi")) with true by reflexivity.
  cbv beta iota zeta.
  eexists. eexists. eexists.
  split; [reflexivity |]. split; [reflexivity |]. split; [reflexivity |].
  split; [rewrite length_imap; exact Hlen |].
  split.
  - apply Forall_forall. intros n Hn.
    apply sortDefault_elem, list_elem_of_In, in_map_iff in Hn
      as (ci & <- & Hci).
    rewrite Forall_forall in Hrange.
    apply (imap_choice idxs cs ci Hp Hlen).
    apply Hrange, list_elem_of_In, Hci.
  - rewrite sortDefault_perm.
    change (map ?f ?l) with (f <$> l).
    rewrite <- list_fmap_compose.
    match goal with
    | |- ?l1 ≡ₚ ?l2 => assert (Heq : l1 = l2); [| rewrite Heq; reflexivity]
    end.
    apply Forall_fmap_ext_1.
    eapply Forall_impl; [exact Hrange |].
    intros ci Hci. unfold compose.
    apply (imap_choice idxs cs ci Hp Hlen Hci).
Qed.

Lemma permuteItem_multi_keeps_correct_texts_witness :
  exists q' cs' cor',
    V21App.permuteItem V21App.sampleMulti (fun _ => 0%Z) = Some q'
    ∧ V21App.choices q' = Some cs'
    ∧ V21App.correct_indices q' = Some cor'
    ∧ length cs' = 4
    ∧ Forall (fun ci => (0 <= ci < 4)%Z) cor'
    ∧ (fun ci => V21App.choiceAt cs' (Some ci)) <$> cor'
      ≡ₚ (fun ci =>
            V21App.choiceAt
              [Some (str "A"); Some (str "B"); Some (str "C");
               Some (str "D")] (Some ci)) <$> [0; 2]%Z.
Proof.
  apply (permuteItem_multi_keeps_correct_texts V21App.sampleMulti
           [Some (str "A"); Some (str "B"); Some (str "C"); Some (str "D")]
           [0; 2]%Z (fun _ => 0%Z)).
  - reflexivity.
  - reflexivity.
  - reflexivity.
  - reflexivity.
  - repeat constructor; lia.
Defined.

(** X21.  A multi-select item in practice mode is recorded with an honest
    first try: when the selection is not empty and holds exactly the
    correct indices, [onCheckMulti] writes a result whose [tries] is the
    number of earlier checks plus one and whose [firstTryCorrect] is true
    exactly when there was no earlier check; it sets the timer, leaves
    the index alone and notes the check in the history.  [sort()] orders
    both arrays as strings, which the set comparison does not notice. *)
Theorem onCheckMulti_hit_counts_checks (s : V21App.State) (now : Z)
    (q : V21App.Item) :
  V21App.mode s = practice ->
  V21App.current s = Some q ->
  V21App.matchSel s = [] ->
  V21App.multiSel s ≠ [] ->
  (forall i, i ∈ V21App.multiSel s
             <-> i ∈ default [] (V21App.correct_indices q)) ->
  exists eff r,
    V21App.onCheckMulti s now = Some eff
    ∧ V21App.timer eff = true
    ∧ V21App.results (V21App.commit s (V21App.queue eff))
      = <[V21App.id q := r]> (V21App.results s)
    ∧ V21App.tries r = (Z.of_nat (length (V21App.chosenHistory s)) + 1)%Z
    ∧ V21App.outcomeFirstTryCorrect r
      = bool_decide (V21App.chosenHistory s = [])
    ∧ V21App.firstTryCorrect (V21App.commit s (V21App.queue eff))
      = Some (bool_decide (V21App.chosenHistory s = []))
    ∧ V21App.chosenHistory (V21App.commit s (V21App.queue eff))
      = V21App.chosenHistory s ++ [(-1)%Z]
    ∧ V21App.idx (V21App.commit s (V21App.queue eff)) = V21App.idx s.
Proof.
  intros Hmode Hcur Hmatch Hsel Hsame.
  unfold V21App.onCheckMulti. rewrite Hcur, Hmode.
  rewrite scoreMulti_same_elements.
  2: { intros i. rewrite !sortDefault_elem. apply Hsame. }
  assert (Htries : V21App.triesOf s
                   = (Z.of_nat (length (V21App.chosenHistory s)) + 1)%Z).
  { unfold V21App.triesOf. rewrite Hmatch.
    destruct (V21App.multiSel s) as [| x sel]; [contradiction |].
    cbn [length Nat.eqb].
    destruct (Z.eqb_spec
                (Z.of_nat (length (V21App.chosenHistory s)) + 1 + 0) 0);
      lia. }
  eexists. eexists. split; [reflexivity |].
  split; [reflexivity |].
  unfold V21App.recordResult. rewrite Hcur.
  cbn [V21App.queue app V21App.commit fold_left fmap option_fmap option_map
       default].
  cbn [V21App.setChosenHistory V21App.setResults V21App.setFirstTryCorrect
       V21App.results V21App.chosenHistory V21App.firstTryCorrect V21App.idx
       V21App.tries V21App.outcomeFirstTryCorrect].
  split; [reflexivity |].
  split; [exact Htries |].
  split; [| split; [| split; reflexivity]].
  - rewrite Htries, andb_true_l.
    destruct (V21App.chosenHistory s) as [| c h].
    + reflexivity.
    + rewrite bool_decide_eq_false_2 by discriminate.
      apply Z.eqb_neq. cbn [length]. lia.
  - f_equal. destruct (V21App.chosenHistory s); reflexivity.
Qed.

Lemma onCheckMulti_hit_counts_checks_witness :
  exists eff r,
    V21App.onCheckMulti V21App.sampleState 1900 = Some eff
    ∧ V21App.results (V21App.commit V21App.sampleState (V21App.queue eff))
      !! str "M1" = Some r
    ∧ V21App.tries r = 2%Z
    ∧ V21App.outcomeFirstTryCorrect r = false.
Proof.
  destruct (onCheckMulti_hit_counts_checks V21App.sampleState 1900
              V21App.sampleMulti)
    as (eff & r & Heff & _ & Hres & Htries & Hfirst & _).
  - reflexivity.
  - reflexivity.
  - reflexivity.
  - discriminate.
  - intros i. cbn. rewrite !elem_of_cons, !elem_of_nil. tauto.
  - exists eff, r. split; [exact Heff |].
    split; [rewrite Hres; apply lookup_insert_eq |].
    split; [exact Htries | exact Hfirst].
Defined.

(** X22.  In the v2.1 trainer the Next button and the timer of a correct
    practice answer do not add up: [nextQuestion] sets the index to the
    index of its own render plus one.  When the correct choice is made
    in the snapshot [snap], Next is clicked before the timer of that
    choice goes off, and the timer then runs the [nextQuestion] of
    [snap], the session is one question ahead of [snap], not two; the
    late timer only restarts the clock and clears the selections of the
    question that has just become current. *)
Theorem v21_next_and_timer_advance_once (snap : V21App.State)
    (t0 t1 t2 c : Z) (q : V21App.Item) :
  V21App.mode snap = practice ->
  V21App.current snap = Some q ->
  (if V21App.isV21 q
   then Some (AnsNum (default 0%Z (V21App.correct_index q)))
   else V21App.answerIndex q) = Some (AnsNum c) ->
  (V21App.idx snap + 1 < Z.of_nat (length (V21App.sessionQs snap)))%Z ->
  exists s',
    V21App.run snap [(t0, V21App.Single c); (t1, V21App.Next);
                     (t2, V21App.Timeout snap)]
    = Some s'
    ∧ V21App.idx s' = (V21App.idx snap + 1)%Z
    ∧ V21App.finished s' = V21App.finished snap
    ∧ V21App.chosenHistory s' = []
    ∧ V21App.questionStart s' = Some t2
    ∧ V21App.sessionQs s' = V21App.sessionQs snap.
Proof.
  intros Hmode Hcur Hcorrect Hlt.
  cbn [V21App.run]. unfold V21App.step at 1. unfold V21App.onChoiceSingle.
  rewrite Hcur, Hmode, Hcorrect.
  rewrite bool_decide_eq_true_2 by reflexivity.
  unfold V21App.recordResult. rewrite Hcur.
  cbn [fmap option_fmap option_map V21App.queue].
  cbn [V21App.step]. unfold V21App.nextQuestion.
  cbn [app V21App.commit fold_left V21App.setChosenHistory
       V21App.setResults V21App.setFirstTryCorrect V21App.sessionQs
       V21App.idx].
  destruct (Z.leb_spec (Z.of_nat (length (V21App.sessionQs snap)))
              (V21App.idx snap + 1)); [lia |].
  eexists. split; [reflexivity |].
  cbn. repeat split.
Qed.

Lemma v21_next_and_timer_advance_once_witness :
  exists s',
    V21App.run V21App.sampleFresh
      [(1400%Z, V21App.Single 1); (1500%Z, V21App.Next);
       (1650%Z, V21App.Timeout V21App.sampleFresh)]
    = Some s'
    ∧ V21App.idx s' = 1%Z.
Proof.
  destruct (v21_next_and_timer_advance_once V21App.sampleFresh
              1400 1500 1650 1 V21App.sampleSingle)
    as (s' & Hrun & Hidx & _).
  - reflexivity.
  - reflexivity.
  - reflexivity.
  - cbn. lia.
  - exists s'. split; [exact Hrun | exact Hidx].
Defined.

(** * The CSV reader of the older [App.jsx] *)








(** * An opening quote that is never closed *)

Lemma scan_inside (body : jsstring) : forall rows row cur,
  dquote ∉ body ->
  body ≠ [] ->
  scan body rows row cur true = pushRow rows (row ++ [cur ++ body]).
Proof.
  induction body as [| ch body IH]; intros rows row cur Hq Hne;
    [contradiction |].
  apply not_elem_of_cons in Hq as [Hch Hq].
  rewrite scan_plain; [| apply chEq_false; congruence | left; reflexivity].
  destruct body as [| ch2 body].
  - cbn [scan]. destruct (cur ++ [ch]) eqn:Hcur.
    + destruct cur; discriminate Hcur.
    + reflexivity.
  - rewrite IH by (try exact Hq; discriminate).
    rewrite <- app_assoc. reflexivity.
Qed.

Lemma encodeRow_plain (cells : list jsstring) :
  Forall plainCell cells -> encodeRow cells = join [comma] cells.
Proof.
  intros Hall. unfold encodeRow. f_equal.
  induction Hall as [| c cells [Hc _] _ IH]; [reflexivity |].
  cbn [map]. unfold encodeCell at 1. rewrite Hc, IH. reflexivity.
Qed.

(** X24.  An opening quote that is never closed swallows the rest of the
    text: when a line starts with cells free of quotes, commas and line
    breaks and then opens a quote that no later quote closes, everything
    after the quote, later lines included, is read as the last cell of
    that one row. *)
Theorem parseCSVStream_unmatched_quote (t1 : jsstring)
    (cells : list jsstring) (body : jsstring) :
  insideAfter t1 false = false ->
  cells ≠ [] ->
  Forall plainCell cells ->
  dquote ∉ body ->
  body ≠ [] ->
  parseCSVStream
    (t1 ++ [LF] ++ join [comma] cells ++ [comma; dquote] ++ body)
  = parseCSVStream t1 ++ [cells ++ [body]].
Proof.
  intros Hin Hcells Hplain Hq Hne.
  change (t1 ++ [LF] ++ join [comma] cells ++ [comma; dquote] ++ body)
    with (t1 ++ LF :: (join [comma] cells ++ [comma; dquote] ++ body)).
  rewrite parseCSVStream_split by exact Hin. f_equal.
  destruct cells as [| x cells _] using rev_ind; [contradiction |].
  rewrite <- encodeRow_plain by exact Hplain.
  unfold parseCSVStream. rewrite scan_row.
  - cbn [app]. rewrite (scan_cons comma).
    replace (chEq comma dquote) with false by reflexivity.
    rewrite chEq_refl. cbn [negb andb].
    rewrite scan_quote_toggle by (left; reflexivity). cbn [negb].
    rewrite scan_inside by assumption.
    rewrite pushRow_kept; [reflexivity |].
    exists body. split; [| exact Hne].
    rewrite !elem_of_app, list_elem_of_singleton. auto.
  - eapply Forall_impl; [exact Hplain |].
    intros c [Hc Hcr] Hcr'. contradiction.
  - simpl. discriminate.
Qed.

Lemma parseCSVStream_unmatched_quote_witness :
  parseCSVStream sampleCsvUnmatched
  = parseCSVStream (str "id,domain,question,a,b,c,d,correct")
    ++ [[str "U6"; str "People"]
        ++ [str "Unmatched,A,B,C,D,A" ++ [LF]
            ++ str "U7,Agile,Why?,A,B,C,D,2" ++ [LF]]]
  ∧ parseCSV sampleCsvUnmatched = [].
Proof.
  split; [| vm_compute; reflexivity].
  apply (parseCSVStream_unmatched_quote
           (str "id,domain,question,a,b,c,d,correct")
           [str "U6"; str "People"]
           (str "Unmatched,A,B,C,D,A" ++ [LF]
            ++ str "U7,Agile,Why?,A,B,C,D,2" ++ [LF])).
  - reflexivity.
  - discriminate.
  - repeat constructor; vm_compute; intros Hin;
      repeat (apply elem_of_cons in Hin as [Heq | Hin];
              [discriminate Heq |]);
      inversion Hin.
  - vm_compute. intros Hin.
    repeat (apply elem_of_cons in Hin as [Heq | Hin]; [discriminate Heq |]).
    inversion Hin.
  - discriminate.
Defined.
